(** * TyrantCam: vote ledger, counter triggers, listing and the submission form

    A shallow embedding of the database schema (tables [tyrants] and [votes],
    their constraints, the [on_vote_insert] / [on_vote_delete] triggers and the
    functions [has_voted] and [get_published_tyrants]) and of the client code
    that talks to it ([getIpHash], [handleVote], [fetchTyrants] in the
    application shell, [validateForm] / [handleSubmit] in the submission form).

    Conventions of the embedding:
    - a table is the list of its rows, in insertion order;
    - [TEXT] and JavaScript strings are [string], texts of one-byte
      characters: on those SQL's [char_length] and JS's [.length] are both
      [String.length] (they part on characters outside the Basic Multilingual
      Plane, which a [string] cannot hold);
    - [UUID] values are strings; a [TIMESTAMPTZ] is its number of microseconds
      from 2000-01-01 00:00 UTC, as PostgreSQL stores it, in a [Z]; where the
      code computes a timestamp, leaving the range of the type raises;
    - [INTEGER] is a [Z] that must stay within the 32-bit signed range:
      arithmetic that leaves it raises [numeric_value_out_of_range], it never
      wraps;
    - columns are read as the row types of the client declare them
      ([shame_count: number], [is_published: boolean], ...), that is, never NULL;
    - a statement is atomic: when it raises, the store it leaves is the store
      it found;
    - the script is applied statement by statement: one the parser refuses
      leaves the others in effect;
    - a statement is issued by the role that owns the tables, which holds
      every privilege and is exempt from row-level security, unless a role
      is named ([cast_vote_as]); row-level security is not modelled. *)

From Stdlib Require Import ZArith List String Ascii Bool Lia Permutation Sorted.
Import ListNotations.

Local Open Scope Z_scope.

(** ** The schema *)

Module Schema.

Definition uuid := string.
Definition timestamptz := Z.

(** [CREATE TYPE tyrant_category AS ENUM (...)]. *)
Inductive tyrant_category := federal | state | local | law_enforcement.

Definition tyrant_category_out (c : tyrant_category) : string :=
  match c with
  | federal => "federal"
  | state => "state"
  | local => "local"
  | law_enforcement => "law_enforcement"
  end.

Definition tyrant_category_labels : list string :=
  ["federal"; "state"; "local"; "law_enforcement"]%string.

(** The enum's input function: a label that is not declared is refused. *)
Definition tyrant_category_in (s : string) : option tyrant_category :=
  if (s =? "federal")%string then Some federal
  else if (s =? "state")%string then Some state
  else if (s =? "local")%string then Some local
  else if (s =? "law_enforcement")%string then Some law_enforcement
  else None.

Definition tyrant_category_eqb (a b : tyrant_category) : bool :=
  match a, b with
  | federal, federal | state, state | local, local
  | law_enforcement, law_enforcement => true
  | _, _ => false
  end.

(** The error conditions the statements below can raise, by SQLSTATE. *)
Inductive sqlstate :=
| check_violation                     (* 23514 *)
| unique_violation                    (* 23505 *)
| foreign_key_violation               (* 23503 *)
| numeric_value_out_of_range          (* 22003 *)
| invalid_row_count_in_limit          (* 2201W *)
| invalid_row_count_in_result_offset  (* 2201X *)
| invalid_text_representation         (* 22P02 *)
| datetime_field_overflow             (* 22008 *)
| undefined_function                  (* 42883 *)
| insufficient_privilege.             (* 42501 *)

(** The caller-visible taxonomy of the vote ledger. *)
Inductive vote_error := DuplicateVote | NotFound | ValidationError | StorageError.

Definition vote_error_of (e : sqlstate) : vote_error :=
  match e with
  | unique_violation => DuplicateVote
  | foreign_key_violation => NotFound
  | check_violation => ValidationError
  | _ => StorageError
  end.

Inductive outcome (A : Type) :=
| Done (a : A)
| Raised (e : sqlstate).
Arguments Done {A} a.
Arguments Raised {A} e.

(** [INTEGER]: 32-bit signed. *)
Definition int4_min : Z := -2147483648.
Definition int4_max : Z := 2147483647.
Definition in_int4 (z : Z) : bool := (int4_min <=? z) && (z <=? int4_max).

(** *** Table [tyrants] *)
Module Tyrant.
Record row := mk
  { id : uuid;
    name : string;
    title : string;
    position : string;
    category : tyrant_category;
    description : string;
    image_url : option string;
    evidence_urls : list string;
    shame_count : Z;
    is_published : bool;
    created_at : timestamptz;
    updated_at : timestamptz }.

Definition with_shame_count (n : Z) (t : row) : row :=
  mk (id t) (name t) (title t) (position t) (category t) (description t)
     (image_url t) (evidence_urls t) n (is_published t) (created_at t)
     (updated_at t).

Definition with_updated_at (ts : timestamptz) (t : row) : row :=
  mk (id t) (name t) (title t) (position t) (category t) (description t)
     (image_url t) (evidence_urls t) (shame_count t) (is_published t)
     (created_at t) ts.

Definition with_is_published (b : bool) (t : row) : row :=
  mk (id t) (name t) (title t) (position t) (category t) (description t)
     (image_url t) (evidence_urls t) (shame_count t) b (created_at t)
     (updated_at t).
End Tyrant.

(** *** Table [votes] *)
Module Vote.
Record row := mk
  { id : uuid;
    tyrant_id : uuid;
    ip_hash : string;
    created_at : timestamptz }.
End Vote.

Record store := mkStore
  { tyrants : list Tyrant.row;
    votes : list Vote.row }.

(** [CONSTRAINT votes_ip_hash_check CHECK (char_length(ip_hash) = 64)]. *)
Definition votes_ip_hash_check (ip_hash : string) : bool :=
  (String.length ip_hash =? 64)%nat.

(** [votes_pkey]: is the primary key already taken? *)
Definition votes_pkey_conflict (new_id : uuid) (vs : list Vote.row) : bool :=
  existsb (fun v => (Vote.id v =? new_id)%string) vs.

(** [CREATE UNIQUE INDEX idx_votes_tyrant_ip_unique ON votes(tyrant_id, ip_hash)]:
    is the pair already in the index? *)
Definition idx_votes_tyrant_ip_unique_conflict
    (p_tyrant_id : uuid) (p_ip_hash : string) (vs : list Vote.row) : bool :=
  existsb (fun v => (Vote.tyrant_id v =? p_tyrant_id)%string
                    && (Vote.ip_hash v =? p_ip_hash)%string) vs.

(** [tyrant_id UUID NOT NULL REFERENCES tyrants(id)]. *)
Definition votes_tyrant_id_fkey (p_tyrant_id : uuid) (ts : list Tyrant.row) : bool :=
  existsb (fun t => (Tyrant.id t =? p_tyrant_id)%string) ts.

(** [update_updated_at_column], the [BEFORE UPDATE] row trigger of [tyrants]. *)
Definition update_updated_at_column (now : timestamptz) (NEW : Tyrant.row) : Tyrant.row :=
  Tyrant.with_updated_at now NEW.

(** [UPDATE tyrants SET ... WHERE ...]: every row the condition selects gets
    its new value from [set] (which may raise), then passes through the
    [update_tyrants_updated_at] trigger. One failing row fails the statement. *)
Fixpoint update_tyrants (set : Tyrant.row -> option Tyrant.row)
    (where_ : Tyrant.row -> bool) (now : timestamptz)
    (ts : list Tyrant.row) : option (list Tyrant.row) :=
  match ts with
  | [] => Some []
  | t :: rest =>
      if where_ t then
        match set t, update_tyrants set where_ now rest with
        | Some t', Some rest' => Some (update_updated_at_column now t' :: rest')
        | _, _ => None
        end
      else
        match update_tyrants set where_ now rest with
        | Some rest' => Some (t :: rest')
        | None => None
        end
  end.

(** [SET shame_count = shame_count + 1]. *)
Definition set_increment (t : Tyrant.row) : option Tyrant.row :=
  let n := Tyrant.shame_count t + 1 in
  if in_int4 n then Some (Tyrant.with_shame_count n t) else None.

(** [SET shame_count = GREATEST(shame_count - 1, 0)]. *)
Definition set_decrement (t : Tyrant.row) : option Tyrant.row :=
  let n := Tyrant.shame_count t - 1 in
  if in_int4 n then Some (Tyrant.with_shame_count (Z.max n 0) t) else None.

(** Trigger function [increment_shame_count], fired by [on_vote_insert]. *)
Definition increment_shame_count (now : timestamptz) (NEW : Vote.row)
    (ts : list Tyrant.row) : option (list Tyrant.row) :=
  update_tyrants set_increment
    (fun t => (Tyrant.id t =? Vote.tyrant_id NEW)%string) now ts.

(** Trigger function [decrement_shame_count], fired by [on_vote_delete]. *)
Definition decrement_shame_count (now : timestamptz) (OLD : Vote.row)
    (ts : list Tyrant.row) : option (list Tyrant.row) :=
  update_tyrants set_decrement
    (fun t => (Tyrant.id t =? Vote.tyrant_id OLD)%string) now ts.

(** [INSERT INTO votes (id, tyrant_id, ip_hash) VALUES (...)], the statement
    behind [cast_vote]. [new_id] is the value of [uuid_generate_v4()] and [now]
    that of [NOW()]. The row is checked against the CHECK constraint, then
    entered into the unique indexes, then the foreign key is checked and
    [on_vote_insert] fires. *)
Definition cast_vote (now : timestamptz) (new_id : uuid)
    (p_tyrant_id : uuid) (p_ip_hash : string) (s : store)
  : store * outcome Vote.row :=
  let NEW := Vote.mk new_id p_tyrant_id p_ip_hash now in
  if negb (votes_ip_hash_check p_ip_hash) then (s, Raised check_violation)
  else if votes_pkey_conflict new_id (votes s) then (s, Raised unique_violation)
  else if idx_votes_tyrant_ip_unique_conflict p_tyrant_id p_ip_hash (votes s)
       then (s, Raised unique_violation)
  else if negb (votes_tyrant_id_fkey p_tyrant_id (tyrants s))
       then (s, Raised foreign_key_violation)
  else match increment_shame_count now NEW (tyrants s) with
       | Some ts' => (mkStore ts' (votes s ++ [NEW]), Done NEW)
       | None => (s, Raised numeric_value_out_of_range)
       end.

(** [on_vote_delete] is [FOR EACH ROW]: one run per deleted row. *)
Fixpoint on_vote_delete (now : timestamptz) (deleted : list Vote.row)
    (ts : list Tyrant.row) : option (list Tyrant.row) :=
  match deleted with
  | [] => Some ts
  | OLD :: rest =>
      match decrement_shame_count now OLD ts with
      | Some ts' => on_vote_delete now rest ts'
      | None => None
      end
  end.

(** [DELETE FROM votes WHERE id = vote_id], the statement behind
    [revoke_vote]; it answers with the rows it deleted. *)
Definition revoke_vote (now : timestamptz) (vote_id : uuid) (s : store)
  : store * outcome (list Vote.row) :=
  let deleted := filter (fun v => (Vote.id v =? vote_id)%string) (votes s) in
  let kept := filter (fun v => negb (Vote.id v =? vote_id)%string) (votes s) in
  match on_vote_delete now deleted (tyrants s) with
  | Some ts' => (mkStore ts' kept, Done deleted)
  | None => (s, Raised numeric_value_out_of_range)
  end.

(** *** Which [CREATE FUNCTION] statements the parser accepts *)

(** A parameter of a function, and a column of [RETURNS TABLE], is named by a
    [param_name] of PostgreSQL's grammar: an identifier, or a keyword of the
    classes "unreserved" and "can be function or type name". A keyword that
    is reserved, or of the class "cannot be function or type name", names
    one only when it is quoted. The two tables are those classes in
    PostgreSQL 16, in lower case as the lexer folds them. *)
Definition reserved_keyword : list string :=
  [ "all"; "analyse"; "analyze"; "and"; "any"; "array"; "as"; "asc";
    "asymmetric"; "both"; "case"; "cast"; "check"; "collate"; "column";
    "constraint"; "create"; "current_catalog"; "current_date"; "current_role";
    "current_time"; "current_timestamp"; "current_user"; "default";
    "deferrable"; "desc"; "distinct"; "do"; "else"; "end"; "except"; "false";
    "fetch"; "for"; "foreign"; "from"; "grant"; "group"; "having"; "in";
    "initially"; "intersect"; "into"; "lateral"; "leading"; "limit";
    "localtime"; "localtimestamp"; "not"; "null"; "offset"; "on"; "only"; "or";
    "order"; "placing"; "primary"; "references"; "returning"; "select";
    "session_user"; "some"; "symmetric"; "system_user"; "table"; "then"; "to";
    "trailing"; "true"; "union"; "unique"; "user"; "using"; "variadic"; "when";
    "where"; "window"; "with" ]%string.

Definition col_name_keyword : list string :=
  [ "between"; "bigint"; "bit"; "boolean"; "char"; "character"; "coalesce";
    "dec"; "decimal"; "exists"; "extract"; "float"; "greatest"; "grouping";
    "inout"; "int"; "integer"; "interval"; "json_array"; "json_arrayagg";
    "json_object"; "json_objectagg"; "least"; "national"; "nchar"; "none";
    "normalize"; "nullif"; "numeric"; "out"; "overlay"; "position";
    "precision"; "real"; "row"; "setof"; "smallint"; "substring"; "time";
    "timestamp"; "treat"; "trim"; "values"; "varchar"; "xmlattributes";
    "xmlconcat"; "xmlelement"; "xmlexists"; "xmlforest"; "xmlnamespaces";
    "xmlparse"; "xmlpi"; "xmlroot"; "xmlserialize"; "xmltable" ]%string.

Definition is_keyword_of (class : list string) (name : string) : bool :=
  existsb (fun k => (k =? name)%string) class.

Definition param_name (name : string) : bool :=
  negb (is_keyword_of reserved_keyword name)
  && negb (is_keyword_of col_name_keyword name).

(** A [CREATE FUNCTION] statement of the script: the function's name, the
    names of its parameters, the names of the columns of its
    [RETURNS TABLE] (none when it returns something else) as the script
    writes them, and whether it returns [TRIGGER]. *)
Record create_function := mkFunction
  { proname : string;
    proargnames : list string;
    returns_table : list string;
    returns_trigger : bool }.

Definition create_get_published_tyrants : create_function :=
  mkFunction "get_published_tyrants" ["p_category"; "p_limit"; "p_offset"]%string
    [ "id"; "name"; "title"; "position"; "category"; "description";
      "image_url"; "evidence_urls"; "shame_count"; "created_at" ]%string false.

Definition create_functions : list create_function :=
  [ mkFunction "update_updated_at_column" [] [] true;
    mkFunction "increment_shame_count" [] [] true;
    mkFunction "decrement_shame_count" [] [] true;
    mkFunction "has_voted" ["p_tyrant_id"; "p_ip_hash"; "p_hours"]%string [] false;
    create_get_published_tyrants;
    mkFunction "get_pending_submissions_count" [] [] false ].

(** Does the parser accept the statement? *)
Definition parses (f : create_function) : bool :=
  forallb param_name (proargnames f) && forallb param_name (returns_table f).

(** The functions of the schema once the script has run: those whose
    statement was accepted, by name, with their parameter names and whether
    they return [TRIGGER] (such a function cannot be called). *)
Definition functions : list (string * list string * bool) :=
  map (fun f => (proname f, proargnames f, returns_trigger f))
      (filter parses create_functions).

Definition function_exists (name : string) : bool :=
  existsb (fun '(n, _, _) => (n =? name)%string) functions.

(** *** [has_voted] *)

(** The instants a [TIMESTAMPTZ] can hold: from 4714-11-24 BC up to, not
    including, 294277-01-01, in microseconds from 2000-01-01. *)
Definition timestamp_min : Z := -211813488000000000.
Definition timestamp_end : Z := 9223371331200000000.

Definition is_valid_timestamp (t : Z) : bool :=
  (timestamp_min <=? t) && (t <? timestamp_end).

(** [(p_hours || ' hours')::INTERVAL], in microseconds. *)
Definition hours (p_hours : Z) : Z := p_hours * 3600000000.

(** Function [has_voted]. [p_hours] is an [INTEGER]: the function is entered
    with a value of that type only. [NOW() - (p_hours || ' hours')::INTERVAL]
    is a timestamp: when the subtraction leaves the range of the type the
    call raises "timestamp out of range" and answers nothing. *)
Definition has_voted (now : timestamptz) (p_tyrant_id : uuid)
    (p_ip_hash : string) (p_hours : Z) (s : store) : outcome bool :=
  let since := now - hours p_hours in
  if is_valid_timestamp since
  then Done (existsb (fun v => (Vote.tyrant_id v =? p_tyrant_id)%string
                               && (Vote.ip_hash v =? p_ip_hash)%string
                               && (since <? Vote.created_at v))
                     (votes s))
  else Raised datetime_field_overflow.

(** [ORDER BY]: insertion of a row into an ordered list, and the sort. *)
Fixpoint insert_by {A : Type} (before : A -> A -> bool) (x : A) (l : list A) : list A :=
  match l with
  | [] => [x]
  | y :: l' => if before x y then x :: y :: l' else y :: insert_by before x l'
  end.

Definition order_by {A : Type} (before : A -> A -> bool) (l : list A) : list A :=
  fold_right (insert_by before) [] l.

(** [ORDER BY t.shame_count DESC, t.created_at DESC]: may [a] stand before [b]? *)
Definition shame_then_recent (a b : Tyrant.row) : bool :=
  (Tyrant.shame_count b <? Tyrant.shame_count a)
  || ((Tyrant.shame_count a =? Tyrant.shame_count b)
      && (Tyrant.created_at b <=? Tyrant.created_at a)).

(** The row type [get_published_tyrants] returns. *)
Module Published.
Record row := mk
  { id : uuid;
    name : string;
    title : string;
    position : string;
    category : tyrant_category;
    description : string;
    image_url : option string;
    evidence_urls : list string;
    shame_count : Z;
    created_at : timestamptz }.
End Published.

Definition select_published (t : Tyrant.row) : Published.row :=
  Published.mk (Tyrant.id t) (Tyrant.name t) (Tyrant.title t) (Tyrant.position t)
    (Tyrant.category t) (Tyrant.description t) (Tyrant.image_url t)
    (Tyrant.evidence_urls t) (Tyrant.shame_count t) (Tyrant.created_at t).

(** [WHERE t.is_published = true AND (p_category IS NULL OR t.category = p_category)]. *)
Definition published_where (p_category : option tyrant_category) (t : Tyrant.row) : bool :=
  Bool.eqb (Tyrant.is_published t) true
  && match p_category with
     | None => true
     | Some c => tyrant_category_eqb (Tyrant.category t) c
     end.

(** The query in the body of [get_published_tyrants]. A negative [OFFSET]
    or [LIMIT] raises, the offset being looked at first. Rows that tie on
    both sort keys stay in table order here; PostgreSQL leaves their order
    open, and nothing below depends on it. *)
Definition published_query (p_category : option tyrant_category)
    (p_limit p_offset : Z) (s : store) : outcome (list Published.row) :=
  if p_offset <? 0 then Raised invalid_row_count_in_result_offset
  else if p_limit <? 0 then Raised invalid_row_count_in_limit
  else Done (map select_published
               (firstn (Z.to_nat p_limit)
                  (skipn (Z.to_nat p_offset)
                     (order_by shame_then_recent
                        (filter (published_where p_category) (tyrants s)))))).

(** A call of [get_published_tyrants]: it runs the body when the schema has
    the function, and raises "function does not exist" when it has not. *)
Definition get_published_tyrants (p_category : option tyrant_category)
    (p_limit p_offset : Z) (s : store) : outcome (list Published.row) :=
  if function_exists "get_published_tyrants"
  then published_query p_category p_limit p_offset s
  else Raised undefined_function.

(** [INSERT INTO tyrants] that leaves [shame_count], [created_at] and
    [updated_at] to their column defaults ([0], [NOW()], [NOW()]). *)
Definition tyrants_name_check (name : string) : bool := (2 <=? String.length name)%nat.
Definition tyrants_description_check (d : string) : bool := (10 <=? String.length d)%nat.

Definition create_tyrant (now : timestamptz) (new_id : uuid)
    (name title position : string) (category : tyrant_category)
    (description : string) (image_url : option string)
    (evidence_urls : list string) (is_published : bool) (s : store)
  : store * outcome Tyrant.row :=
  let NEW := Tyrant.mk new_id name title position category description
               image_url evidence_urls 0 is_published now now in
  if negb (tyrants_name_check name && tyrants_description_check description)
  then (s, Raised check_violation)
  else if existsb (fun t => (Tyrant.id t =? new_id)%string) (tyrants s)
  then (s, Raised unique_violation)
  else (mkStore (tyrants s ++ [NEW]) (votes s), Done NEW).

(** [UPDATE tyrants SET is_published = flag WHERE id = p_id], the moderator's
    publication switch. *)
Definition publish_tyrant (now : timestamptz) (p_id : uuid) (flag : bool) (s : store)
  : store :=
  mkStore
    (map (fun t => if (Tyrant.id t =? p_id)%string
                   then update_updated_at_column now (Tyrant.with_is_published flag t)
                   else t) (tyrants s))
    (votes s).

(** [DELETE FROM tyrants WHERE id = p_id]. [ON DELETE CASCADE] deletes the
    votes of a deleted entry, and [on_vote_delete] fires for each of them, on
    a table the entry has already left. *)
Definition delete_tyrant (now : timestamptz) (p_id : uuid) (s : store)
  : store * outcome (list Tyrant.row) :=
  let deleted := filter (fun t => (Tyrant.id t =? p_id)%string) (tyrants s) in
  let remaining := filter (fun t => negb (Tyrant.id t =? p_id)%string) (tyrants s) in
  match deleted with
  | [] => (s, Done [])
  | _ :: _ =>
      let cascaded := filter (fun v => (Vote.tyrant_id v =? p_id)%string) (votes s) in
      let kept := filter (fun v => negb (Vote.tyrant_id v =? p_id)%string) (votes s) in
      match on_vote_delete now cascaded remaining with
      | Some ts' => (mkStore ts' kept, Done deleted)
      | None => (s, Raised numeric_value_out_of_range)
      end
  end.

(** *** Roles and grants *)

(** The two roles the web client acts as, and the role that ran the script
    and owns the tables. ([service_role] is granted everything, but whether
    row-level security binds it is set outside the script; it is left out.) *)
Inductive role := anon | authenticated | owner.

Inductive privilege := SELECT | INSERT | UPDATE | DELETE.

Inductive table := rel_admin_users | rel_tyrants | rel_submissions | rel_votes.

(** [GRANT SELECT ON tyrants], [GRANT INSERT ON submissions] and
    [GRANT SELECT, INSERT ON votes], each [TO anon, authenticated]. The
    owner needs no grant. *)
Definition granted (r : role) (p : privilege) (t : table) : bool :=
  match r with
  | owner => true
  | anon | authenticated =>
      match t, p with
      | rel_tyrants, SELECT => true
      | rel_submissions, INSERT => true
      | rel_votes, SELECT => true
      | rel_votes, INSERT => true
      | _, _ => false
      end
  end.

(** [INSERT INTO votes] issued by role [r]. [increment_shame_count] is not
    declared [SECURITY DEFINER], so its [UPDATE tyrants] runs with the
    privileges of the role that inserts: it is refused, before it touches a
    row, when that role may not update [tyrants], and the refusal takes the
    whole statement with it. The trigger runs after the row has passed the
    CHECK, the unique indexes and the foreign key. *)
Definition cast_vote_as (r : role) (now : timestamptz) (new_id : uuid)
    (p_tyrant_id : uuid) (p_ip_hash : string) (s : store)
  : store * outcome Vote.row :=
  let NEW := Vote.mk new_id p_tyrant_id p_ip_hash now in
  if negb (granted r INSERT rel_votes) then (s, Raised insufficient_privilege)
  else if negb (votes_ip_hash_check p_ip_hash) then (s, Raised check_violation)
  else if votes_pkey_conflict new_id (votes s) then (s, Raised unique_violation)
  else if idx_votes_tyrant_ip_unique_conflict p_tyrant_id p_ip_hash (votes s)
       then (s, Raised unique_violation)
  else if negb (votes_tyrant_id_fkey p_tyrant_id (tyrants s))
       then (s, Raised foreign_key_violation)
  else if negb (granted r UPDATE rel_tyrants) then (s, Raised insufficient_privilege)
  else match increment_shame_count now NEW (tyrants s) with
       | Some ts' => (mkStore ts' (votes s ++ [NEW]), Done NEW)
       | None => (s, Raised numeric_value_out_of_range)
       end.

End Schema.

(** ** The application shell (getIpHash, fetchTyrants, handleVote) *)

Module App.
Import Schema.

(** [Number.prototype.toString] on an integer of magnitude below [10^21]: its
    decimal digits, with a minus sign when it is negative. *)
Definition digit_char (d : Z) : ascii := ascii_of_nat (48 + Z.to_nat d).

Fixpoint decimal_digits (fuel : nat) (n : Z) : string :=
  match fuel with
  | O => EmptyString
  | S fuel' =>
      if n <? 10 then String (digit_char n) EmptyString
      else (decimal_digits fuel' (n / 10) ++ String (digit_char (n mod 10)) EmptyString)%string
  end.

Definition js_number_to_string (n : Z) : string :=
  let digits m := decimal_digits (S (Z.to_nat (Z.log2 m))) m in
  if n <? 0 then String "-"%char (digits (- n)) else digits n.

(** Reading a string of decimal digits back, most significant first. *)
Definition digit_value (c : ascii) : Z := Z.of_nat (nat_of_ascii c) - 48.

Fixpoint decimal_value (acc : Z) (s : string) : Z :=
  match s with
  | EmptyString => acc
  | String c s' => decimal_value (10 * acc + digit_value c) s'
  end.

(** [Date.now()] answers a time value: an integer number of milliseconds
    within 8.64e15 of the epoch. *)
Definition time_value (t : Z) : Prop := -8640000000000000 <= t <= 8640000000000000.

(** The catch branch of [getIpHash]. *)
Definition getIpHash_fallback (date_now : Z) : string :=
  ("anonymous-" ++ js_number_to_string date_now)%string.

Section GetIpHash.
(** [crypto.subtle.digest('SHA-256', ...)] followed by the hex encoding of its
    32 bytes, two characters a byte. *)
Variable sha256_hex : string -> string.

(** [getIpHash]: [ip] is what the address lookup answered, [None] when any
    step of the [try] block threw. *)
Definition getIpHash (ip : option string) (date_now : Z) : string :=
  match ip with
  | Some ip => sha256_hex (ip ++ "-tyrantcam-vote")%string
  | None => getIpHash_fallback date_now
  end.
End GetIpHash.

(** The component state [handleVote] touches. *)
Record app_state := mkAppState
  { tyrants : list Tyrant.row;
    votedTyrants : list uuid }.

(** [new Set([...prev, tyrantId])]. *)
Definition set_add (x : uuid) (prev : list uuid) : list uuid :=
  if existsb (fun y => (y =? x)%string) prev then prev else prev ++ [x].

(** [supabase.rpc(fn, args)] reaches a function only when the schema has a
    callable one of that name whose parameters include every argument sent. *)
Definition rpc_resolves (fn : string) (args : list string) : bool :=
  existsb (fun '(name, params, returns_trigger) =>
             (name =? fn)%string && negb returns_trigger
             && forallb (fun a => existsb (fun p => (p =? a)%string) params) args)
          Schema.functions.

(** [fetchTyrants]: [.eq('is_published', true).order('shame_count', { ascending: false })]. *)
Definition fetchTyrants (db : store) : list Tyrant.row :=
  order_by (fun a b => Tyrant.shame_count b <=? Tyrant.shame_count a)
    (filter (fun t => Bool.eqb (Tyrant.is_published t) true) (Schema.tyrants db)).

(** [handleVote], given the fingerprint [getIpHash] answered. It returns the
    store, the component state and the error it throws, if any. *)
Definition handleVote (now : timestamptz) (new_id : uuid) (ipHash : string)
    (tyrantId : uuid) (db : store) (st : app_state)
  : store * app_state * option sqlstate :=
  match cast_vote now new_id tyrantId ipHash db with
  | (db', Raised voteError) =>
      let st' :=
        match voteError with
        | unique_violation => mkAppState (tyrants st) (set_add tyrantId (votedTyrants st))
        | _ => st
        end in
      (db', st', Some voteError)
  | (db', Done _) =>
      let updateError := negb (rpc_resolves "increment_shame_count" ["tyrant_id"%string]) in
      let shown :=
        if updateError
        then map (fun t => if (Tyrant.id t =? tyrantId)%string
                           then Tyrant.with_shame_count (Tyrant.shame_count t + 1) t
                           else t) (tyrants st)
        else tyrants st in
      (db', mkAppState shown (set_add tyrantId (votedTyrants st)), None)
  end.

End App.

(** ** The submission form *)

Module SubmissionForm.

(** [type Category = 'Federal' | 'State' | 'Local' | 'Law Enforcement'], and
    [''] while nothing is selected. *)
Inductive Category := Unselected | Federal | State | Local | Law_Enforcement.

Definition category_value (c : Category) : string :=
  match c with
  | Unselected => ""
  | Federal => "Federal"
  | State => "State"
  | Local => "Local"
  | Law_Enforcement => "Law Enforcement"
  end.

Record FormData := mkFormData
  { tyrant_name : string;
    title_position : string;
    category : Category;
    description : string;
    evidence_url : option string;
    reporter_email : string;
    is_anonymous : bool }.

(** [TablesInsert<'submissions'>] restricted to the fields [handleSubmit] fills. *)
Module Insert.
Record row := mk
  { tyrant_name : string;
    title_position : string;
    category : string;
    description : string;
    evidence_url : option string;
    reporter_email : option string;
    is_anonymous : bool;
    status : string }.
End Insert.

(** White space and line terminators among the characters a [string] holds. *)
Definition is_space (c : ascii) : bool :=
  let n := nat_of_ascii c in
  ((9 <=? n) && (n <=? 13) || (n =? 32) || (n =? 160))%nat.

Fixpoint trim_start (s : string) : string :=
  match s with
  | EmptyString => EmptyString
  | String c s' => if is_space c then trim_start s' else s
  end.

Fixpoint trim_end (s : string) : string :=
  match s with
  | EmptyString => EmptyString
  | String c s' =>
      match trim_end s' with
      | EmptyString => if is_space c then EmptyString else String c EmptyString
      | t => String c t
      end
  end.

(** [String.prototype.trim]. *)
Definition trim (s : string) : string := trim_end (trim_start s).

Definition is_empty (s : string) : bool :=
  match s with EmptyString => true | _ => false end.

(** [[^\s@]]. *)
Definition local_char (c : ascii) : bool := negb (is_space c) && negb (c =? "@")%char.

(** Does [s] read [x . y] with [x] already seen non empty and [y] non empty,
    all characters in [[^\s@]]? *)
Fixpoint domain_tail (s : string) : bool :=
  match s with
  | EmptyString => false
  | String c s' =>
      local_char c
      && (((c =? ".")%char && negb (is_empty s')
           && forallb local_char (list_ascii_of_string s'))
          || domain_tail s')
  end.

(** Does [s] read [x @ d] with [x] already seen non empty? *)
Fixpoint after_local (s : string) : bool :=
  match s with
  | EmptyString => false
  | String c s' =>
      if (c =? "@")%char then
        match s' with
        | EmptyString => false
        | String d s'' => local_char d && domain_tail s''
        end
      else local_char c && after_local s'
  end.

(** [/^[^\s@]+@[^\s@]+\.[^\s@]+$/.test(s)]. *)
Definition email_pattern_test (s : string) : bool :=
  match s with
  | EmptyString => false
  | String c s' => local_char c && after_local s'
  end.

Inductive field :=
  f_tyrant_name | f_title_position | f_category | f_description | f_reporter_email.

(** [validateField] on the text fields: the message, or [None] for [undefined]. *)
Definition validateField (name : field) (value : string) : option string :=
  match name with
  | f_tyrant_name =>
      if is_empty value || is_empty (trim value) then Some "Tyrant name is required"%string
      else if (100 <? String.length value)%nat
           then Some "Name must be less than 100 characters"%string
      else None
  | f_title_position =>
      if is_empty value || is_empty (trim value) then Some "Title/Position is required"%string
      else if (150 <? String.length value)%nat
           then Some "Title must be less than 150 characters"%string
      else None
  | f_category =>
      if is_empty value then Some "Please select a category"%string else None
  | f_description =>
      if is_empty value || is_empty (trim value) then Some "Description is required"%string
      else if (String.length value <? 20)%nat
           then Some "Description must be at least 20 characters"%string
      else if (5000 <? String.length value)%nat
           then Some "Description must be less than 5000 characters"%string
      else None
  | f_reporter_email =>
      if negb (is_empty value) && negb (email_pattern_test value)
      then Some "Please enter a valid email address"%string
      else None
  end.

(** [validateForm]: the errors it finds, then whether none is defined. *)
Definition form_errors (formData : FormData) : list (option string) :=
  [ validateField f_tyrant_name (tyrant_name formData);
    validateField f_title_position (title_position formData);
    validateField f_category (category_value (category formData));
    validateField f_description (description formData) ]
  ++ (if negb (is_empty (reporter_email formData))
      then [validateField f_reporter_email (reporter_email formData)]
      else []).

Definition validateForm (formData : FormData) : bool :=
  negb (existsb (fun e => match e with Some _ => true | None => false end)
          (form_errors formData)).

(** [a || null] on a string. *)
Definition or_null (a : string) : option string :=
  if is_empty a then None else Some a.

(** The record [handleSubmit] builds; [evidenceUrl] is what the upload gave. *)
Definition build_submission (formData : FormData) (evidenceUrl : option string) : Insert.row :=
  Insert.mk
    (trim (tyrant_name formData))
    (trim (title_position formData))
    (category_value (category formData))
    (trim (description formData))
    evidenceUrl
    (if is_anonymous formData then None else or_null (trim (reporter_email formData)))
    (is_anonymous formData)
    "pending".

(** [handleChange] on the [reporter_email] input:
    [setFormData(prev => ({ ...prev, [name]: newValue }))]. *)
Definition set_reporter_email (value : string) (prev : FormData) : FormData :=
  mkFormData (tyrant_name prev) (title_position prev) (category prev)
    (description prev) (evidence_url prev) value (is_anonymous prev).

(** What became of the selected file. *)
Inductive upload := NoFile | Uploaded (publicUrl : string) | UploadFailed.

(** [handleSubmit] up to the insert: the record it sends to [submissions], or
    [None] when validation stops it or the upload throws. *)
Definition handleSubmit (formData : FormData) (file : upload) : option Insert.row :=
  if negb (validateForm formData) then None
  else match file with
       | NoFile => Some (build_submission formData None)
       | Uploaded publicUrl => Some (build_submission formData (Some publicUrl))
       | UploadFailed => None
       end.

(** The [category] column of [submissions] is a [tyrant_category]: the insert
    goes through the enum's input function. *)
Definition submissions_category_in (r : Insert.row)
  : Schema.outcome Schema.tyrant_category :=
  match Schema.tyrant_category_in (Insert.category r) with
  | Some c => Schema.Done c
  | None => Schema.Raised Schema.invalid_text_representation
  end.

End SubmissionForm.

(** ** The ledger as a transition system *)

Module Ledger.
Import Schema.

(** Number of live vote rows that reference entry [E]. *)
Definition count_votes (E : uuid) (vs : list Vote.row) : Z :=
  Z.of_nat (List.length (filter (fun v => (Vote.tyrant_id v =? E)%string) vs)).

(** The live vote rows of the pair [(E, F)]. *)
Definition live_votes (E : uuid) (F : string) (s : store) : list Vote.row :=
  filter (fun v => (Vote.tyrant_id v =? E)%string && (Vote.ip_hash v =? F)%string)
         (votes s).

(** The counter of entry [E], when the entry exists. *)
Definition shame_count_of (E : uuid) (s : store) : option Z :=
  option_map Tyrant.shame_count
    (find (fun t => (Tyrant.id t =? E)%string) (tyrants s)).

(** Every counter equals the number of live votes of its entry. *)
Definition in_sync (s : store) : Prop :=
  forall t, In t (tyrants s) ->
    Tyrant.shame_count t = count_votes (Tyrant.id t) (votes s).

(** The statements that change the store and leave [shame_count] to its
    column default and to the triggers. *)
Inductive op :=
| CreateTyrant (now : timestamptz) (new_id : uuid) (name title position : string)
    (category : tyrant_category) (description : string)
    (image_url : option string) (evidence_urls : list string) (is_published : bool)
| PublishTyrant (now : timestamptz) (p_id : uuid) (flag : bool)
| DeleteTyrant (now : timestamptz) (p_id : uuid)
| CastVote (now : timestamptz) (new_id : uuid) (p_tyrant_id : uuid) (p_ip_hash : string)
| RevokeVote (now : timestamptz) (vote_id : uuid).

Definition run (o : op) (s : store) : store :=
  match o with
  | CreateTyrant now new_id name title position category description
      image_url evidence_urls is_published =>
      fst (create_tyrant now new_id name title position category description
             image_url evidence_urls is_published s)
  | PublishTyrant now p_id flag => publish_tyrant now p_id flag s
  | DeleteTyrant now p_id => fst (delete_tyrant now p_id s)
  | CastVote now new_id E F => fst (cast_vote now new_id E F s)
  | RevokeVote now vote_id => fst (revoke_vote now vote_id s)
  end.

Definition empty : store := mkStore [] [].

(** The stores the statements can produce from the empty one. *)
Inductive reachable : store -> Prop :=
| reachable_empty : reachable empty
| reachable_run (o : op) (s : store) : reachable s -> reachable (run o s).

(** What the constraints and triggers maintain. *)
Record invariant (s : store) : Prop := mkInvariant
  { inv_sync : in_sync s;
    inv_fkey : forall v, In v (votes s) ->
                 votes_tyrant_id_fkey (Vote.tyrant_id v) (tyrants s) = true;
    inv_pkey : NoDup (map Vote.id (votes s));
    inv_unique : NoDup (map (fun v => (Vote.tyrant_id v, Vote.ip_hash v)) (votes s));
    inv_check : forall v, In v (votes s) -> votes_ip_hash_check (Vote.ip_hash v) = true;
    inv_int4 : forall t, In t (tyrants s) -> in_int4 (Tyrant.shame_count t) = true }.

(** How one counter row changed. *)
Definition bumped (E : uuid) (f : Z -> Z) (t t' : Tyrant.row) : Prop :=
  Tyrant.id t' = Tyrant.id t
  /\ Tyrant.is_published t' = Tyrant.is_published t
  /\ Tyrant.shame_count t' =
       if (Tyrant.id t =? E)%string then f (Tyrant.shame_count t)
       else Tyrant.shame_count t.

End Ledger.

(** The fingerprint format the interface description asks for: exactly 64
    characters, each a hexadecimal digit. *)
Definition is_hex_digit (c : ascii) : bool :=
  let n := nat_of_ascii c in
  ((48 <=? n) && (n <=? 57) || (65 <=? n) && (n <=? 70) || (97 <=? n) && (n <=? 102))%nat.

Definition spec_fingerprint_well_formed (f : string) : bool :=
  (String.length f =? 64)%nat && forallb is_hex_digit (list_ascii_of_string f).

(** Sample data used by the closed examples. *)
Definition sample_tyrant (id : string) (c : Schema.tyrant_category) (n : Z)
    (published : bool) (created : Z) : Schema.Tyrant.row :=
  Schema.Tyrant.mk id "Jane Roe" "Mayor" "Mayor of Springfield" c
    "Abuse of office." None [] n published created created.

Definition fp (c : ascii) : string := string_of_list_ascii (repeat c 64).

Import Schema.

Section Samples.
Local Open Scope string_scope.

(** One published entry, then two votes on it, as the statements build them. *)
Definition store0 : store :=
  Ledger.run (Ledger.CreateTyrant 100 "t1" "Jane Roe" "Mayor" "Mayor of Springfield"
                state "Abuse of office." None [] true) Ledger.empty.

Definition store1 : store := Ledger.run (Ledger.CastVote 200 "v1" "t1" (fp "a")) store0.

Definition store2 : store := Ledger.run (Ledger.CastVote 300 "v2" "t1" (fp "b")) store1.

Definition vote1 : Vote.row := Vote.mk "v1" "t1" (fp "a") 200.
Definition vote2 : Vote.row := Vote.mk "v2" "t1" (fp "b") 300.

(** A store whose counter is out of step with its ledger: one live vote, counter 0. *)
Definition store_out_of_sync : store :=
  mkStore [sample_tyrant "t1" state 0 true 100] [vote1].

(** A listing with a tie on the counter, an unpublished entry and two categories. *)
Definition store_listing : store :=
  mkStore [ sample_tyrant "a" state 3 true 10;
            sample_tyrant "b" state 7 true 20;
            sample_tyrant "c" state 9 false 30;
            sample_tyrant "d" federal 8 true 40;
            sample_tyrant "e" state 3 true 50 ] [].

(** The same ledger at the times a running store shows: an entry made on
    2026-11-03 at 00:00 UTC, a vote on it one second later, and a reader two
    seconds after that. *)
Definition midnight_2026_11_03 : timestamptz := 9803 * 86400000000.

Definition store_recent : store :=
  Ledger.run (Ledger.CastVote (midnight_2026_11_03 + 1000000) "v1" "t1" (fp "a"))
    (Ledger.run (Ledger.CreateTyrant midnight_2026_11_03 "t1" "Jane Roe" "Mayor"
                   "Mayor of Springfield" state "Abuse of office." None [] true)
       Ledger.empty).

Definition vote_recent : Vote.row :=
  Vote.mk "v1" "t1" (fp "a") (midnight_2026_11_03 + 1000000).

Definition now_recent : timestamptz := midnight_2026_11_03 + 3000000.

Definition sample_form (c : SubmissionForm.Category) (email : string) (anonymous : bool)
  : SubmissionForm.FormData :=
  SubmissionForm.mkFormData "Jane Roe" "Mayor" c
    "Closed the public library without a vote." None email anonymous.

End Samples.

(** ** Further definitions used by the properties of the whole code *)

(** A row seen without its [updated_at] column. *)
Definition forget_updated_at (t : Tyrant.row) : Tyrant.row := Tyrant.with_updated_at 0 t.

(** What the two counter triggers write into one row. *)
Definition incremented (now : timestamptz) (E : uuid) (t : Tyrant.row) : Tyrant.row :=
  if (Tyrant.id t =? E)%string
  then update_updated_at_column now (Tyrant.with_shame_count (Tyrant.shame_count t + 1) t)
  else t.

Definition decremented (now : timestamptz) (E : uuid) (t : Tyrant.row) : Tyrant.row :=
  if (Tyrant.id t =? E)%string
  then update_updated_at_column now
         (Tyrant.with_shame_count (Z.max (Tyrant.shame_count t - 1) 0) t)
  else t.

(** ** The application shell, continued: digest encoding, voted set, cards *)

Module Shell.

(** One hexadecimal digit, lower case. *)
Definition hex_digit (d : nat) : ascii :=
  if (d <? 10)%nat then ascii_of_nat (48 + d) else ascii_of_nat (87 + d).

(** [b.toString(16)] on an element of a [Uint8Array]. *)
Definition to_string_16 (b : Byte.byte) : string :=
  let n := Byte.to_nat b in
  if (n <? 16)%nat then String (hex_digit n) EmptyString
  else String (hex_digit (n / 16)) (String (hex_digit (n mod 16)) EmptyString).

(** [s.padStart(targetLength, c)] with a pad of one character. *)
Definition padStart (targetLength : nat) (c : ascii) (s : string) : string :=
  (string_of_list_ascii (repeat c (targetLength - String.length s)) ++ s)%string.

(** [hashArray.map(b => b.toString(16).padStart(2, '0')).join('')]. *)
Definition hex_of_bytes (hashArray : list Byte.byte) : string :=
  String.concat EmptyString (map (fun b => padStart 2 "0"%char (to_string_16 b)) hashArray).

(** [getIpHash] with the digest left to [sha256], which stands for the text
    encoder followed by [crypto.subtle.digest('SHA-256', ...)]. *)
Definition getIpHash (sha256 : string -> list Byte.byte) (ip : option string)
    (date_now : Z) : string :=
  App.getIpHash (fun message => hex_of_bytes (sha256 message)) ip date_now.

(** Reading hexadecimal text back into bytes. *)
Definition hex_value (c : ascii) : option nat :=
  let n := nat_of_ascii c in
  if ((48 <=? n) && (n <=? 57))%nat then Some (n - 48)%nat
  else if ((97 <=? n) && (n <=? 102))%nat then Some (n - 87)%nat
  else None.

Fixpoint bytes_of_hex (s : string) : option (list Byte.byte) :=
  match s with
  | EmptyString => Some []
  | String hi (String lo rest) =>
      match hex_value hi, hex_value lo, bytes_of_hex rest with
      | Some h, Some l, Some bs =>
          match Byte.of_nat (16 * h + l) with
          | Some b => Some (b :: bs)
          | None => None
          end
      | _, _, _ => None
      end
  | String _ EmptyString => None
  end.

(** [new Set(list)], in insertion order. *)
Definition set_of_list (l : list uuid) : list uuid :=
  fold_left (fun acc x => App.set_add x acc) l [].

(** [votedTyrants.has(id)]. *)
Definition set_has (x : uuid) (l : list uuid) : bool :=
  existsb (fun y => (y =? x)%string) l.

(** [checkVotedTyrants]: the ids of the entries that hold a vote with this
    fingerprint, [select('tyrant_id').eq('ip_hash', ipHash)] made a set. *)
Definition checkVotedTyrants (ipHash : string) (db : store) : list uuid :=
  set_of_list
    (map Vote.tyrant_id
       (filter (fun v => (Vote.ip_hash v =? ipHash)%string) (votes db))).

(** [CATEGORY_LABELS]; [None] is the key ['all']. *)
Definition CATEGORY_LABELS (c : option tyrant_category) : string :=
  match c with
  | None => "All"
  | Some federal => "Federal"
  | Some state => "State"
  | Some local => "Local"
  | Some law_enforcement => "Law Enforcement"
  end.

(** [filteredTyrants]. *)
Definition filteredTyrants (categoryFilter : option tyrant_category)
    (tyrants : list Tyrant.row) : list Tyrant.row :=
  match categoryFilter with
  | None => tyrants
  | Some c => filter (fun t => tyrant_category_eqb (Tyrant.category t) c) tyrants
  end.

(** The state of one [TyrantCard]. *)
Record card := mkCard
  { isVoting : bool;
    localCount : Z }.

(** [TyrantCard]'s [handleVote]: [hasVoted] is [votedTyrants.has(tyrant.id)],
    [onVote] is the shell's [handleVote]. It returns the store, the shell's
    state, the card's state and the error left unhandled, if any. *)
Definition card_handleVote (now : timestamptz) (new_id : uuid) (ipHash : string)
    (tyrant : Tyrant.row) (db : store) (st : App.app_state) (c : card)
  : store * App.app_state * card * option sqlstate :=
  let hasVoted := set_has (Tyrant.id tyrant) (App.votedTyrants st) in
  if hasVoted || isVoting c then (db, st, c, None)
  else
    match App.handleVote now new_id ipHash (Tyrant.id tyrant) db st with
    | (db', st', None) => (db', st', mkCard false (localCount c + 1), None)
    | (db', st', Some e) => (db', st', mkCard false (localCount c), Some e)
    end.

End Shell.

(** ** The submission form as a component: its state and its handlers *)

Module FormState.
Import SubmissionForm.

(** [interface FormErrors]; [None] is [undefined]. *)
Module Errors.
Record t := mk
  { tyrant_name : option string;
    title_position : option string;
    category : option string;
    description : option string;
    evidence_url : option string;
    reporter_email : option string }.
End Errors.

(** The fields of a [File] the form reads. *)
Module File.
Record t := mk
  { name : string;
    type : string;
    size : Z }.
End File.

Definition MAX_FILE_SIZE : Z := 5 * 1024 * 1024.

Definition SUPPORTED_FORMATS : list string :=
  ["image/jpeg"; "image/png"; "image/webp"; "application/pdf"]%string.

(** [validateFile]. *)
Definition validateFile (file : File.t) : option string :=
  if negb (existsb (fun f => (f =? File.type file)%string) SUPPORTED_FORMATS)
  then Some "File must be JPEG, PNG, WebP, or PDF"%string
  else if MAX_FILE_SIZE <? File.size file
  then Some "File size must be less than 5MB"%string
  else None.

Inductive submitStatus := idle | success | error.

(** The state of the component (the preview image, which only the file
    reader writes, is left out). *)
Record state := mkState
  { formData : FormData;
    errors : Errors.t;
    selectedFile : option File.t;
    status : submitStatus;
    errorMessage : string }.

Definition initialFormData : FormData :=
  mkFormData EmptyString EmptyString Unselected EmptyString None EmptyString true.

Definition initial : state :=
  mkState initialFormData (Errors.mk None None None None None None) None idle EmptyString.

(** The text inputs of the form. *)
Inductive text_input := in_tyrant_name | in_title_position | in_description | in_reporter_email.

Definition field_of (i : text_input) : field :=
  match i with
  | in_tyrant_name => f_tyrant_name
  | in_title_position => f_title_position
  | in_description => f_description
  | in_reporter_email => f_reporter_email
  end.

(** What the user does to an input: type in a text input, pick an option of
    the category select, tick or untick the checkbox. *)
Inductive change :=
| Typed (i : text_input) (value : string)
| Selected (c : Category)
| Ticked (checked : bool).

(** [{ ...prev, [name]: newValue }] on the form data. *)
Definition set_value (ch : change) (prev : FormData) : FormData :=
  match ch with
  | Typed in_tyrant_name v =>
      mkFormData v (title_position prev) (category prev) (description prev)
        (evidence_url prev) (reporter_email prev) (is_anonymous prev)
  | Typed in_title_position v =>
      mkFormData (tyrant_name prev) v (category prev) (description prev)
        (evidence_url prev) (reporter_email prev) (is_anonymous prev)
  | Typed in_description v =>
      mkFormData (tyrant_name prev) (title_position prev) (category prev) v
        (evidence_url prev) (reporter_email prev) (is_anonymous prev)
  | Typed in_reporter_email v => set_reporter_email v prev
  | Selected c =>
      mkFormData (tyrant_name prev) (title_position prev) c (description prev)
        (evidence_url prev) (reporter_email prev) (is_anonymous prev)
  | Ticked b =>
      mkFormData (tyrant_name prev) (title_position prev) (category prev)
        (description prev) (evidence_url prev) (reporter_email prev) b
  end.

(** [{ ...prev, [name]: error }] on the errors. *)
Definition set_error (ch : change) (prev : Errors.t) : Errors.t :=
  match ch with
  | Typed in_tyrant_name v =>
      Errors.mk (validateField f_tyrant_name v) (Errors.title_position prev)
        (Errors.category prev) (Errors.description prev) (Errors.evidence_url prev)
        (Errors.reporter_email prev)
  | Typed in_title_position v =>
      Errors.mk (Errors.tyrant_name prev) (validateField f_title_position v)
        (Errors.category prev) (Errors.description prev) (Errors.evidence_url prev)
        (Errors.reporter_email prev)
  | Typed in_description v =>
      Errors.mk (Errors.tyrant_name prev) (Errors.title_position prev)
        (Errors.category prev) (validateField f_description v)
        (Errors.evidence_url prev) (Errors.reporter_email prev)
  | Typed in_reporter_email v =>
      Errors.mk (Errors.tyrant_name prev) (Errors.title_position prev)
        (Errors.category prev) (Errors.description prev) (Errors.evidence_url prev)
        (validateField f_reporter_email v)
  | Selected c =>
      Errors.mk (Errors.tyrant_name prev) (Errors.title_position prev)
        (validateField f_category (category_value c)) (Errors.description prev)
        (Errors.evidence_url prev) (Errors.reporter_email prev)
  | Ticked _ => prev
  end.

Definition with_evidence_error (e : option string) (prev : Errors.t) : Errors.t :=
  Errors.mk (Errors.tyrant_name prev) (Errors.title_position prev) (Errors.category prev)
    (Errors.description prev) e (Errors.reporter_email prev).

(** [handleChange]. *)
Definition handleChange (ch : change) (st : state) : state :=
  mkState (set_value ch (formData st)) (set_error ch (errors st)) (selectedFile st)
    idle (errorMessage st).

(** [handleFileChange]; [file] is [e.target.files?.[0]]. *)
Definition handleFileChange (file : option File.t) (st : state) : state :=
  match file with
  | None => st
  | Some f =>
      match validateFile f with
      | Some e =>
          mkState (formData st) (with_evidence_error (Some e) (errors st))
            (selectedFile st) (status st) (errorMessage st)
      | None =>
          mkState (formData st) (with_evidence_error None (errors st))
            (Some f) (status st) (errorMessage st)
      end
  end.

(** [removeFile]. *)
Definition removeFile (st : state) : state :=
  let prev := formData st in
  mkState
    (mkFormData (tyrant_name prev) (title_position prev) (category prev)
       (description prev) None (reporter_email prev) (is_anonymous prev))
    (errors st) None (status st) (errorMessage st).

(** The [newErrors] of [validateForm]. *)
Definition newErrors (fd : FormData) : Errors.t :=
  Errors.mk
    (validateField f_tyrant_name (tyrant_name fd))
    (validateField f_title_position (title_position fd))
    (validateField f_category (category_value (category fd)))
    (validateField f_description (description fd))
    None
    (if negb (is_empty (reporter_email fd))
     then validateField f_reporter_email (reporter_email fd) else None).

(** [!errors.x]: no message, or an empty one. *)
Definition no_error (o : option string) : bool :=
  match o with None => true | Some message => is_empty message end.

(** [isFormValid], which enables the submit button. *)
Definition isFormValid (fd : FormData) (e : Errors.t) : bool :=
  (0 <? String.length (trim (tyrant_name fd)))%nat
  && (0 <? String.length (trim (title_position fd)))%nat
  && negb (is_empty (category_value (category fd)))
  && (20 <=? String.length (trim (description fd)))%nat
  && no_error (Errors.tyrant_name e)
  && no_error (Errors.title_position e)
  && no_error (Errors.category e)
  && no_error (Errors.description e)
  && no_error (Errors.reporter_email e)
  && no_error (Errors.evidence_url e).

(** [handleSubmit] as a step of the component. [uploaded] is what
    [uploadFile] resolves to ([None] when it throws), [insertError] what the
    insert answers. It returns the next state and the record sent to
    [submissions], if one was. *)
Definition handleSubmit (uploaded : option string) (insertError : option string)
    (st : state) : state * option Insert.row :=
  let fd := formData st in
  if negb (validateForm fd)
  then (mkState fd (newErrors fd) (selectedFile st) (status st) (errorMessage st), None)
  else
    let failed message sent :=
      (mkState fd (newErrors fd) (selectedFile st) error message, sent) in
    let send evidenceUrl :=
      let submission := build_submission fd evidenceUrl in
      match insertError with
      | Some message => failed message (Some submission)
      | None =>
          (mkState initialFormData (newErrors fd) None success EmptyString,
           Some submission)
      end in
    match selectedFile st, uploaded with
    | None, _ => send None
    | Some _, Some publicUrl => send (Some publicUrl)
    | Some _, None => failed "Failed to upload file"%string None
    end.

(** What the user and the outside world can do to the component. *)
Inductive event :=
| Change (ch : change)
| FileChange (file : option File.t)
| RemoveFile
| Submit (uploaded : option string) (insertError : option string).

Definition step (ev : event) (st : state) : state :=
  match ev with
  | Change ch => handleChange ch st
  | FileChange file => handleFileChange file st
  | RemoveFile => removeFile st
  | Submit uploaded insertError => fst (handleSubmit uploaded insertError st)
  end.

Inductive reachable : state -> Prop :=
| reachable_initial : reachable initial
| reachable_step ev st : reachable st -> reachable (step ev st).

(** The error shown for an input is the one of its present value, or none
    while the input still holds its initial value. *)
Definition error_in_step (shown : option string) (f : field) (value : string) : Prop :=
  shown = validateField f value \/ (shown = None /\ value = EmptyString).

Record invariant (st : state) : Prop := mkInvariant
  { inv_file : forall f, selectedFile st = Some f -> validateFile f = None;
    inv_tyrant_name :
      error_in_step (Errors.tyrant_name (errors st)) f_tyrant_name
        (tyrant_name (formData st));
    inv_title_position :
      error_in_step (Errors.title_position (errors st)) f_title_position
        (title_position (formData st));
    inv_category :
      error_in_step (Errors.category (errors st)) f_category
        (category_value (category (formData st)));
    inv_description :
      error_in_step (Errors.description (errors st)) f_description
        (description (formData st));
    inv_reporter_email :
      error_in_step (Errors.reporter_email (errors st)) f_reporter_email
        (reporter_email (formData st)) }.

End FormState.

(** Texts made of white space only, and texts free of white space and of [@]. *)
Definition all_space (s : string) : Prop :=
  forallb SubmissionForm.is_space (list_ascii_of_string s) = true.

Definition all_local (s : string) : Prop :=
  forallb SubmissionForm.local_char (list_ascii_of_string s) = true.

(** [sent] is [typed] without the white space around it. *)
Definition trimmed_of (typed sent : string) : Prop :=
  exists l r,
    typed = (l ++ sent ++ r)%string /\ all_space l /\ all_space r
    /\ (forall c t, sent = String c t -> SubmissionForm.is_space c = false)
    /\ (forall t c, sent = (t ++ String c EmptyString)%string ->
                    SubmissionForm.is_space c = false).

(** The events that can reach the component while its submit button is
    disabled and that do not bring a supported file. *)
Definition keeps_file_error (ev : FormState.event) : Prop :=
  match ev with
  | FormState.Change _ => True
  | FormState.FileChange None => True
  | FormState.FileChange (Some f) => FormState.validateFile f <> None
  | FormState.RemoveFile => True
  | FormState.Submit _ _ => False
  end.

(** A form filled in input by input, and one that was offered a text file. *)
Definition sample_form_state : FormState.state :=
  FormState.step (FormState.Change (FormState.Typed FormState.in_description
                    "Closed the public library without a vote."))
    (FormState.step (FormState.Change (FormState.Selected SubmissionForm.State))
       (FormState.step (FormState.Change (FormState.Typed FormState.in_title_position "Mayor"))
          (FormState.step (FormState.Change (FormState.Typed FormState.in_tyrant_name
                             "Jane Roe"))
             FormState.initial))).

Definition sample_text_file : FormState.File.t :=
  FormState.File.mk "notes.txt" "text/plain" 120.

Definition sample_pdf_file : FormState.File.t :=
  FormState.File.mk "minutes.pdf" "application/pdf" 48000.

(** ** The administrator login: validation and the attempt limiter *)

Module AdminLogin.

Definition MAX_LOGIN_ATTEMPTS : Z := 5.
Definition RATE_LIMIT_WINDOW : Z := 15 * 60 * 1000.

(** [interface LoginAttempt]. *)
Record LoginAttempt := mkAttempt
  { count : Z;
    firstAttempt : Z }.

(** What [localStorage] holds under [RATE_LIMIT_KEY]: nothing (or the empty
    string), the JSON of a [LoginAttempt], or text [JSON.parse] throws on. *)
Inductive stored := Absent | Attempts (a : LoginAttempt) | Unparsable.

(** [getLoginAttempts]; [now] is [Date.now()]. *)
Definition getLoginAttempts (now : Z) (item : stored) : LoginAttempt :=
  match item with
  | Absent => mkAttempt 0 now
  | Attempts attempts =>
      if RATE_LIMIT_WINDOW <? now - firstAttempt attempts
      then mkAttempt 0 now
      else attempts
  | Unparsable => mkAttempt 0 now
  end.

(** [recordLoginAttempt]. *)
Definition recordLoginAttempt (now : Z) (item : stored) : stored :=
  let attempts := getLoginAttempts now item in
  Attempts (mkAttempt (count attempts + 1)
              (if firstAttempt attempts =? 0 then now else firstAttempt attempts)).

(** [clearLoginAttempts]. *)
Definition clearLoginAttempts (item : stored) : stored := Absent.

(** [isRateLimited]. *)
Definition isRateLimited (now : Z) (item : stored) : bool :=
  MAX_LOGIN_ATTEMPTS <=? count (getLoginAttempts now item).

(** [Math.ceil(x / 1000 / 60)] on an integer number of milliseconds. *)
Definition ceil_minutes (x : Z) : Z := - ((- x) / 60000).

(** [getRemainingLockoutTime]. *)
Definition getRemainingLockoutTime (now : Z) (item : stored) : Z :=
  let attempts := getLoginAttempts now item in
  if count attempts <? MAX_LOGIN_ATTEMPTS then 0
  else
    let elapsed := now - firstAttempt attempts in
    Z.max 0 (ceil_minutes (RATE_LIMIT_WINDOW - elapsed)).

(** What the authentication provider and the [admin_users] lookup answer
    to [login]. *)
Inductive sign_in :=
| SignInError
| SignedIn (isAdminUser : bool)
| SignedInNoUser
| Threw.

Record result := mkResult
  { success : bool;
    error : option string }.

Definition failure (message : string) : result := mkResult false (Some message).

(** [login]. [now] is the time of the lock check, [later] the time at which
    the provider's answer is handled. *)
Definition login (signIn : string -> string -> sign_in) (now later : Z)
    (email password : string) (item : stored) : stored * result :=
  if isRateLimited now item then
    let remaining := getRemainingLockoutTime now item in
    (item,
     failure ("Too many login attempts. Please try again in "
              ++ App.js_number_to_string remaining ++ " minute"
              ++ (if (remaining =? 1)%Z then "" else "s") ++ ".")%string)
  else
    match signIn email password with
    | SignInError =>
        (recordLoginAttempt later item, failure "Invalid email or password")
    | SignedIn false =>
        (recordLoginAttempt later item,
         failure "Access denied. Admin privileges required.")
    | SignedIn true => (clearLoginAttempts item, mkResult true None)
    | SignedInNoUser =>
        (recordLoginAttempt later item, failure "Login failed. Please try again.")
    | Threw =>
        (recordLoginAttempt later item,
         failure "An unexpected error occurred. Please try again.")
    end.

(** [validateEmail] and [validatePassword]. *)
Definition validateEmail (value : string) : option string :=
  if SubmissionForm.is_empty (SubmissionForm.trim value)
  then Some "Email is required"%string
  else if negb (SubmissionForm.email_pattern_test value)
  then Some "Please enter a valid email address"%string
  else None.

Definition validatePassword (value : string) : option string :=
  if SubmissionForm.is_empty value then Some "Password is required"%string
  else if (String.length value <? 6)%nat
  then Some "Password must be at least 6 characters"%string
  else None.

(** [AdminLogin]'s [handleSubmit]: the storage afterwards and what [login]
    answered, or [None] when validation stopped the submission. *)
Definition handleSubmit (signIn : string -> string -> sign_in) (now later : Z)
    (email password : string) (item : stored) : stored * option result :=
  match validateEmail email, validatePassword password with
  | None, None =>
      let '(item', r) := login signIn now later (SubmissionForm.trim email) password item in
      (item', Some r)
  | _, _ => (item, None)
  end.

(** The storage a sequence of logins can leave, starting from none; within
    one login the clock does not run backwards. *)
Inductive reachable : stored -> Prop :=
| reachable_absent : reachable Absent
| reachable_login signIn now later email password item :
    reachable item -> now <= later ->
    reachable (fst (login signIn now later email password item)).

(** [recordLoginAttempt] at each of the times, in turn. *)
Definition record_all (times : list Z) (item : stored) : stored :=
  fold_left (fun it t => recordLoginAttempt t it) times item.

End AdminLogin.

(** * Properties *)

(** ** Generic facts *)

Lemma in_int4_iff z : in_int4 z = true <-> int4_min <= z <= int4_max.
Proof. unfold in_int4. rewrite andb_true_iff, !Z.leb_le. tauto. Qed.

Lemma Forall2_in_r {A B} (R : A -> B -> Prop) l l' :
  Forall2 R l l' -> forall y, In y l' -> exists x, In x l /\ R x y.
Proof.
  induction 1 as [|x y l l' Hxy _ IH]; intros z Hz; [destruct Hz|].
  destruct Hz as [<-|Hz].
  - exists x. split; [now left | assumption].
  - destruct (IH z Hz) as (x' & Hin & Hr). exists x'. split; [now right | assumption].
Qed.

Lemma Forall2_in_l {A B} (R : A -> B -> Prop) l l' :
  Forall2 R l l' -> forall x, In x l -> exists y, In y l' /\ R x y.
Proof.
  induction 1 as [|x y l l' Hxy _ IH]; intros z Hz; [destruct Hz|].
  destruct Hz as [<-|Hz].
  - exists y. split; [now left | assumption].
  - destruct (IH z Hz) as (y' & Hin & Hr). exists y'. split; [now right | assumption].
Qed.

(** ** The UPDATE statement and the two triggers *)

Lemma update_tyrants_rel (P : Tyrant.row -> Tyrant.row -> Prop) set where_ now :
  (forall t u, where_ t = true -> set t = Some u -> P t (update_updated_at_column now u)) ->
  (forall t, where_ t = false -> P t t) ->
  forall ts ts', update_tyrants set where_ now ts = Some ts' -> Forall2 P ts ts'.
Proof.
  intros Hhit Hmiss. induction ts as [|t ts IH]; simpl; intros ts' H.
  - injection H as <-. constructor.
  - destruct (where_ t) eqn:Hw.
    + destruct (set t) as [u|] eqn:Hs; [|discriminate].
      destruct (update_tyrants set where_ now ts) as [r|]; [|discriminate].
      injection H as <-. constructor; auto.
    + destruct (update_tyrants set where_ now ts) as [r|]; [|discriminate].
      injection H as <-. constructor; auto.
Qed.

Lemma update_tyrants_total set where_ now ts :
  (forall t, In t ts -> where_ t = true -> set t <> None) ->
  exists ts', update_tyrants set where_ now ts = Some ts'.
Proof.
  induction ts as [|t ts IH]; simpl; intros H; [now eexists|].
  destruct IH as (r & ->); [intros; apply H; auto|].
  destruct (where_ t) eqn:Hw; [|now eexists].
  destruct (set t) as [u|] eqn:Hs; [now eexists|].
  exfalso. apply (H t); auto.
Qed.

Lemma increment_shame_count_bumped now NEW ts ts' :
  increment_shame_count now NEW ts = Some ts' ->
  Forall2 (fun t t' => Ledger.bumped (Vote.tyrant_id NEW) (fun c => c + 1) t t'
                       /\ in_int4 (Tyrant.shame_count t') = true
                          \/ t' = t /\ (Tyrant.id t =? Vote.tyrant_id NEW)%string = false)
          ts ts'.
Proof.
  apply update_tyrants_rel.
  - intros t u Hw Hs. left. unfold set_increment in Hs.
    destruct (in_int4 (Tyrant.shame_count t + 1)) eqn:Hr; [|discriminate].
    injection Hs as <-. unfold Ledger.bumped. simpl. rewrite Hw. auto.
  - intros t Hw. right. auto.
Qed.

Lemma decrement_shame_count_bumped now OLD ts ts' :
  decrement_shame_count now OLD ts = Some ts' ->
  Forall2 (fun t t' => Ledger.bumped (Vote.tyrant_id OLD) (fun c => Z.max (c - 1) 0) t t'
                       /\ in_int4 (Tyrant.shame_count t - 1) = true
                          \/ t' = t /\ (Tyrant.id t =? Vote.tyrant_id OLD)%string = false)
          ts ts'.
Proof.
  apply update_tyrants_rel.
  - intros t u Hw Hs. left. unfold set_decrement in Hs.
    destruct (in_int4 (Tyrant.shame_count t - 1)) eqn:Hr; [|discriminate].
    injection Hs as <-. unfold Ledger.bumped. simpl. rewrite Hw. auto.
  - intros t Hw. right. auto.
Qed.

(** ** Counting live votes *)

Lemma count_votes_app E vs v :
  Ledger.count_votes E (vs ++ [v]) =
  Ledger.count_votes E vs + (if (Vote.tyrant_id v =? E)%string then 1 else 0).
Proof.
  unfold Ledger.count_votes. rewrite filter_app, length_app. simpl.
  destruct (Vote.tyrant_id v =? E)%string; simpl; lia.
Qed.

Lemma count_votes_split (p : Vote.row -> bool) E vs :
  Ledger.count_votes E vs =
  Ledger.count_votes E (filter p vs)
  + Ledger.count_votes E (filter (fun v => negb (p v)) vs).
Proof.
  unfold Ledger.count_votes. induction vs as [|v vs IH]; [reflexivity|].
  simpl. destruct (p v); simpl; destruct (Vote.tyrant_id v =? E)%string;
    simpl List.length; lia.
Qed.

Lemma count_votes_nonneg E vs : 0 <= Ledger.count_votes E vs.
Proof. unfold Ledger.count_votes. lia. Qed.

Lemma count_votes_none E vs :
  (forall v, In v vs -> Vote.tyrant_id v <> E) -> Ledger.count_votes E vs = 0.
Proof.
  unfold Ledger.count_votes. induction vs as [|v vs IH]; intros H; [reflexivity|].
  simpl. destruct (Vote.tyrant_id v =? E)%string eqn:Heq.
  - apply String.eqb_eq in Heq. exfalso. apply (H v); [now left | assumption].
  - apply IH. intros w Hw. apply H. now right.
Qed.

Lemma count_votes_member E vs v :
  In v vs -> Vote.tyrant_id v = E -> 1 <= Ledger.count_votes E vs.
Proof.
  intros Hin Hid. unfold Ledger.count_votes.
  assert (Hf : In v (filter (fun v => (Vote.tyrant_id v =? E)%string) vs)).
  { apply filter_In. split; [assumption|]. now apply String.eqb_eq. }
  destruct (filter _ vs); [destruct Hf | simpl; lia].
Qed.

(** ** Keys *)

Lemma filter_none {A} (p : A -> bool) l :
  (forall x, In x l -> p x = false) -> filter p l = [].
Proof.
  induction l as [|x l IH]; intros H; [reflexivity|]. simpl.
  rewrite (H x) by now left. apply IH. intros y Hy. apply H. now right.
Qed.

Lemma filter_pkey vs v :
  NoDup (map Vote.id vs) -> In v vs ->
  filter (fun w => (Vote.id w =? Vote.id v)%string) vs = [v].
Proof.
  induction vs as [|w vs IH]; intros Hnd Hin; [destruct Hin|].
  simpl in Hnd. apply NoDup_cons_iff in Hnd. destruct Hnd as [Hnotin Hnd].
  simpl. destruct Hin as [->|Hin].
  - rewrite String.eqb_refl. f_equal. apply filter_none.
    intros x Hx. apply String.eqb_neq. intros Heq. apply Hnotin.
    rewrite <- Heq. now apply in_map.
  - destruct (Vote.id w =? Vote.id v)%string eqn:Heq.
    + apply String.eqb_eq in Heq. exfalso. apply Hnotin. rewrite Heq. now apply in_map.
    + now apply IH.
Qed.

Lemma NoDup_map_filter {A B} (f : A -> B) (p : A -> bool) l :
  NoDup (map f l) -> NoDup (map f (filter p l)).
Proof.
  induction l as [|x l IH]; simpl; intros H; [constructor|].
  apply NoDup_cons_iff in H. destruct H as [Hx Hl].
  destruct (p x); simpl; [|now apply IH].
  constructor; [|now apply IH].
  intros Hin. apply Hx. apply in_map_iff in Hin. destruct Hin as (y & Hy & Hin).
  apply in_map_iff. exists y. split; [assumption|]. apply filter_In in Hin. tauto.
Qed.

Lemma NoDup_map_snoc {A B} (f : A -> B) l x :
  NoDup (map f l) -> (forall y, In y l -> f y <> f x) -> NoDup (map f (l ++ [x])).
Proof.
  intros Hnd Hfresh. rewrite map_app. simpl.
  apply NoDup_app; [assumption | constructor; [intros [] | constructor] |].
  intros b Hb [<-|[]]. apply in_map_iff in Hb. destruct Hb as (y & Hy & Hin).
  now apply (Hfresh y).
Qed.

Lemma fkey_Forall2 E ts ts' :
  Forall2 (fun t t' => Tyrant.id t' = Tyrant.id t) ts ts' ->
  votes_tyrant_id_fkey E ts' = votes_tyrant_id_fkey E ts.
Proof.
  unfold votes_tyrant_id_fkey. induction 1 as [|t t' ts ts' Hid _ IH]; [reflexivity|].
  simpl. now rewrite Hid, IH.
Qed.

Lemma find_tyrant_Forall2 E (R : Tyrant.row -> Tyrant.row -> Prop) ts ts' :
  Forall2 R ts ts' -> (forall t t', R t t' -> Tyrant.id t' = Tyrant.id t) ->
  match find (fun t => (Tyrant.id t =? E)%string) ts,
        find (fun t => (Tyrant.id t =? E)%string) ts' with
  | Some t, Some t' => R t t' /\ Tyrant.id t = E /\ In t ts
  | None, None => True
  | _, _ => False
  end.
Proof.
  intros H Hid. induction H as [|t t' ts ts' Hr _ IH]; simpl; [exact I|].
  rewrite (Hid _ _ Hr). destruct (Tyrant.id t =? E)%string eqn:Heq.
  - apply String.eqb_eq in Heq. auto.
  - destruct (find _ ts), (find _ ts'); try exact IH. destruct IH as (? & ? & ?). auto.
Qed.

(** ** The statements keep the invariant *)

Lemma existsb_false {A} (p : A -> bool) l :
  existsb p l = false -> forall x, In x l -> p x = false.
Proof.
  intros H x Hx. destruct (p x) eqn:Hp; [|reflexivity].
  rewrite <- H. symmetry. apply existsb_exists. now exists x.
Qed.

Lemma cast_vote_raised now new_id E F s s' e :
  cast_vote now new_id E F s = (s', Raised e) -> s' = s.
Proof.
  unfold cast_vote.
  destruct (negb (votes_ip_hash_check F)); [now inversion 1|].
  destruct (votes_pkey_conflict new_id (votes s)); [now inversion 1|].
  destruct (idx_votes_tyrant_ip_unique_conflict E F (votes s)); [now inversion 1|].
  destruct (negb (votes_tyrant_id_fkey E (tyrants s))); [now inversion 1|].
  destruct (increment_shame_count _ _ _); now inversion 1.
Qed.

Lemma cast_vote_done now new_id E F s s' v :
  cast_vote now new_id E F s = (s', Done v) ->
  v = Vote.mk new_id E F now
  /\ votes_ip_hash_check F = true
  /\ votes_pkey_conflict new_id (votes s) = false
  /\ idx_votes_tyrant_ip_unique_conflict E F (votes s) = false
  /\ votes_tyrant_id_fkey E (tyrants s) = true
  /\ exists ts', increment_shame_count now v (tyrants s) = Some ts'
                 /\ s' = mkStore ts' (votes s ++ [v]).
Proof.
  unfold cast_vote.
  destruct (votes_ip_hash_check F); simpl; [|discriminate].
  destruct (votes_pkey_conflict new_id (votes s)); [discriminate|].
  destruct (idx_votes_tyrant_ip_unique_conflict E F (votes s)); [discriminate|].
  destruct (votes_tyrant_id_fkey E (tyrants s)); simpl; [|discriminate].
  destruct (increment_shame_count _ _ _) as [ts'|] eqn:Hinc; [|discriminate].
  intros H. injection H as <- <-. repeat split; eauto.
Qed.

Lemma bumped_id E f t t' : Ledger.bumped E f t t' -> Tyrant.id t' = Tyrant.id t.
Proof. now intros [H _]. Qed.

Lemma increment_keeps_ids now NEW ts ts' :
  increment_shame_count now NEW ts = Some ts' ->
  Forall2 (fun t t' => Tyrant.id t' = Tyrant.id t) ts ts'.
Proof.
  intros H. apply increment_shame_count_bumped in H.
  eapply Forall2_impl; [|exact H]. simpl.
  intros t t' [[Hb _]|[-> _]]; [now apply bumped_id in Hb | reflexivity].
Qed.

Lemma decrement_keeps_ids now OLD ts ts' :
  decrement_shame_count now OLD ts = Some ts' ->
  Forall2 (fun t t' => Tyrant.id t' = Tyrant.id t) ts ts'.
Proof.
  intros H. apply decrement_shame_count_bumped in H.
  eapply Forall2_impl; [|exact H]. simpl.
  intros t t' [[Hb _]|[-> _]]; [now apply bumped_id in Hb | reflexivity].
Qed.

Lemma cast_vote_invariant now new_id E F s :
  Ledger.invariant s -> Ledger.invariant (fst (cast_vote now new_id E F s)).
Proof.
  intros Hinv. destruct (cast_vote now new_id E F s) as [s' [v|e]] eqn:Hcv; simpl.
  2:{ apply cast_vote_raised in Hcv. now subst. }
  apply cast_vote_done in Hcv.
  destruct Hcv as (Hv & Hchk & Hpk & Huq & Hfk & ts' & Hinc & ->).
  assert (Htid : Vote.tyrant_id v = E) by now subst v.
  pose proof (increment_shame_count_bumped _ _ _ _ Hinc) as Hb. rewrite Htid in Hb.
  pose proof (increment_keeps_ids _ _ _ _ Hinc) as Hids.
  destruct Hinv as [Hsync Hfkey Hpkey Huniq Hcheck Hint].
  constructor; simpl.
  - intros t' Hin'. simpl in *.
    destruct (Forall2_in_r _ _ _ Hb t' Hin') as (t & Hin & Ht).
    rewrite count_votes_app, Htid.
    destruct Ht as [[(Hid & _ & Hsc) _]|[-> Hne]].
    + rewrite Hsc, Hid, (Hsync t Hin), (String.eqb_sym E).
      destruct (Tyrant.id t =? E)%string; lia.
    + rewrite (Hsync t Hin), (String.eqb_sym E), Hne. lia.
  - intros w Hw. rewrite (fkey_Forall2 _ _ _ Hids).
    apply in_app_or in Hw. destruct Hw as [Hw|[<-|[]]]; [now apply Hfkey|].
    now rewrite Htid.
  - apply NoDup_map_snoc; [assumption|]. intros y Hy.
    apply (existsb_false _ _ Hpk) in Hy. apply String.eqb_neq in Hy. now subst v.
  - apply NoDup_map_snoc; [assumption|]. intros y Hy Heq.
    apply (existsb_false _ _ Huq) in Hy. subst v. simpl in Heq.
    injection Heq as H1 H2. rewrite H1, H2, !String.eqb_refl in Hy. discriminate.
  - intros w Hw. apply in_app_or in Hw. destruct Hw as [Hw|[<-|[]]]; [now apply Hcheck|].
    now subst v.
  - intros t' Hin'. destruct (Forall2_in_r _ _ _ Hb t' Hin') as (t & Hin & Ht).
    destruct Ht as [[_ Hr]|[-> _]]; [assumption | now apply Hint].
Qed.

Lemma create_tyrant_invariant now new_id name title position category description
    image_url evidence_urls is_published s :
  Ledger.invariant s ->
  Ledger.invariant (fst (create_tyrant now new_id name title position category
                           description image_url evidence_urls is_published s)).
Proof.
  intros Hinv. unfold create_tyrant.
  destruct (negb _); [assumption|].
  destruct (existsb _ (tyrants s)) eqn:Hfresh; [assumption|]. simpl.
  destruct Hinv as [Hsync Hfkey Hpkey Huniq Hcheck Hint].
  constructor; simpl; try assumption.
  - intros t Hin. simpl in *.
    apply in_app_or in Hin. destruct Hin as [Hin|[<-|[]]]; [now apply Hsync|].
    simpl. symmetry. apply count_votes_none. intros v Hv Heq.
    specialize (Hfkey v Hv). unfold votes_tyrant_id_fkey in Hfkey.
    rewrite Heq, Hfresh in Hfkey. discriminate.
  - intros v Hv. unfold votes_tyrant_id_fkey. rewrite existsb_app.
    apply orb_true_iff. left. now apply Hfkey.
  - intros t Hin. apply in_app_or in Hin. destruct Hin as [Hin|[<-|[]]]; [now apply Hint|].
    reflexivity.
Qed.

Lemma filter_all {A} (p : A -> bool) l :
  (forall x, In x l -> p x = true) -> filter p l = l.
Proof.
  induction l as [|x l IH]; intros H; [reflexivity|]. simpl.
  rewrite (H x) by now left. f_equal. apply IH. intros y Hy. apply H. now right.
Qed.

Lemma revoke_vote_absent now vote_id s :
  (forall v, In v (votes s) -> Vote.id v <> vote_id) ->
  revoke_vote now vote_id s = (s, Done []).
Proof.
  intros H. unfold revoke_vote.
  rewrite filter_none by (intros v Hv; apply String.eqb_neq; auto).
  rewrite filter_all by (intros v Hv; apply negb_true_iff, String.eqb_neq; auto).
  simpl. now destruct s.
Qed.

Lemma revoke_vote_of_row now s v ts' :
  NoDup (map Vote.id (votes s)) -> In v (votes s) ->
  decrement_shame_count now v (tyrants s) = Some ts' ->
  revoke_vote now (Vote.id v) s =
  (mkStore ts' (filter (fun w => negb (Vote.id w =? Vote.id v)%string) (votes s)),
   Done [v]).
Proof.
  intros Hnd Hin Hdec. unfold revoke_vote.
  rewrite (filter_pkey _ _ Hnd Hin). simpl. now rewrite Hdec.
Qed.

Lemma count_votes_kept E vs v :
  NoDup (map Vote.id vs) -> In v vs ->
  Ledger.count_votes E (filter (fun w => negb (Vote.id w =? Vote.id v)%string) vs) =
  Ledger.count_votes E vs - (if (Vote.tyrant_id v =? E)%string then 1 else 0).
Proof.
  intros Hnd Hin.
  rewrite (count_votes_split (fun w => (Vote.id w =? Vote.id v)%string) E vs).
  rewrite (filter_pkey _ _ Hnd Hin).
  assert (H1 : Ledger.count_votes E [v] = if (Vote.tyrant_id v =? E)%string then 1 else 0).
  { unfold Ledger.count_votes. simpl. now destruct (Vote.tyrant_id v =? E)%string. }
  lia.
Qed.

Lemma decrement_total_in_sync now s v :
  Ledger.invariant s -> In v (votes s) ->
  exists ts', decrement_shame_count now v (tyrants s) = Some ts'.
Proof.
  intros Hinv Hin. apply update_tyrants_total. intros t Ht Hw.
  apply String.eqb_eq in Hw. unfold set_decrement.
  pose proof (Ledger.inv_sync _ Hinv t Ht) as Hs.
  pose proof (Ledger.inv_int4 _ Hinv t Ht) as Hr. apply in_int4_iff in Hr.
  pose proof (count_votes_member (Tyrant.id t) _ v Hin (eq_sym Hw)) as Hc.
  replace (in_int4 (Tyrant.shame_count t - 1)) with true; [discriminate|].
  symmetry. apply in_int4_iff. unfold int4_min, int4_max in *. lia.
Qed.

Lemma revoke_vote_invariant now vote_id s :
  Ledger.invariant s -> Ledger.invariant (fst (revoke_vote now vote_id s)).
Proof.
  intros Hinv.
  destruct (existsb (fun v => (Vote.id v =? vote_id)%string) (votes s)) eqn:Hex.
  2:{ rewrite revoke_vote_absent; [assumption|].
      intros v Hv. apply String.eqb_neq. exact (existsb_false _ _ Hex v Hv). }
  apply existsb_exists in Hex. destruct Hex as (v & Hin & Heq).
  apply String.eqb_eq in Heq. subst vote_id.
  destruct (decrement_total_in_sync now s v Hinv Hin) as (ts' & Hdec).
  pose proof (decrement_shame_count_bumped _ _ _ _ Hdec) as Hb.
  pose proof (decrement_keeps_ids _ _ _ _ Hdec) as Hids.
  destruct Hinv as [Hsync Hfkey Hpkey Huniq Hcheck Hint].
  rewrite (revoke_vote_of_row now s v ts' Hpkey Hin Hdec). simpl.
  constructor; simpl.
  - intros t' Hin'. simpl in *.
    destruct (Forall2_in_r _ _ _ Hb t' Hin') as (t & Ht & Hrel).
    rewrite (count_votes_kept _ _ _ Hpkey Hin).
    destruct Hrel as [[(Hid & _ & Hsc) _]|[-> Hne]].
    + rewrite Hsc, Hid, (Hsync t Ht), (String.eqb_sym (Vote.tyrant_id v)).
      destruct (Tyrant.id t =? Vote.tyrant_id v)%string eqn:Hq; [|lia].
      apply String.eqb_eq in Hq.
      pose proof (count_votes_member (Tyrant.id t) _ v Hin (eq_sym Hq)). lia.
    + rewrite (Hsync t Ht), (String.eqb_sym (Vote.tyrant_id v)), Hne. lia.
  - intros w Hw. rewrite (fkey_Forall2 _ _ _ Hids). apply Hfkey.
    apply filter_In in Hw. tauto.
  - now apply NoDup_map_filter.
  - now apply NoDup_map_filter.
  - intros w Hw. apply Hcheck. apply filter_In in Hw. tauto.
  - intros t' Hin'. destruct (Forall2_in_r _ _ _ Hb t' Hin') as (t & Ht & Hrel).
    destruct Hrel as [[(_ & _ & Hsc) Hr]|[-> _]]; [|now apply Hint].
    specialize (Hint t Ht). apply in_int4_iff in Hint, Hr. apply in_int4_iff.
    rewrite Hsc. unfold int4_min, int4_max in *.
    destruct (Tyrant.id t =? Vote.tyrant_id v)%string; lia.
Qed.

Lemma publish_tyrant_invariant now p_id flag s :
  Ledger.invariant s -> Ledger.invariant (publish_tyrant now p_id flag s).
Proof.
  intros [Hsync Hfkey Hpkey Huniq Hcheck Hint].
  set (f := fun t => if (Tyrant.id t =? p_id)%string
                     then update_updated_at_column now (Tyrant.with_is_published flag t)
                     else t).
  assert (Hf : forall t, Tyrant.id (f t) = Tyrant.id t
                         /\ Tyrant.shame_count (f t) = Tyrant.shame_count t).
  { intros t. unfold f. now destruct (Tyrant.id t =? p_id)%string. }
  constructor; simpl; try assumption; fold f.
  - intros t' Hin'. simpl in *. fold f in Hin'. apply in_map_iff in Hin'.
    destruct Hin' as (t & <- & Hin). destruct (Hf t) as [-> ->]. now apply Hsync.
  - intros v Hv. rewrite <- (Hfkey v Hv). apply fkey_Forall2.
    clear - Hf. induction (tyrants s) as [|t ts IH]; simpl;
      [constructor | constructor; [apply Hf | exact IH]].
  - intros t' Hin'. apply in_map_iff in Hin'.
    destruct Hin' as (t & <- & Hin). destruct (Hf t) as [_ ->]. now apply Hint.
Qed.

Lemma on_vote_delete_no_entry now E deleted ts :
  (forall v, In v deleted -> Vote.tyrant_id v = E) ->
  (forall t, In t ts -> Tyrant.id t <> E) ->
  on_vote_delete now deleted ts = Some ts.
Proof.
  intros Hdel Hts. induction deleted as [|v deleted IH]; simpl; [reflexivity|].
  assert (Hv : decrement_shame_count now v ts = Some ts).
  { unfold decrement_shame_count. rewrite (Hdel v) by now left.
    clear - Hts. induction ts as [|t ts IH]; simpl; [reflexivity|].
    replace (Tyrant.id t =? E)%string with false
      by (symmetry; apply String.eqb_neq, Hts; now left).
    rewrite IH; [reflexivity|]. intros u Hu. apply Hts. now right. }
  rewrite Hv. apply IH. intros w Hw. apply Hdel. now right.
Qed.

Lemma delete_tyrant_store now p_id s :
  fst (delete_tyrant now p_id s) = s
  \/ fst (delete_tyrant now p_id s) =
       mkStore (filter (fun t => negb (Tyrant.id t =? p_id)%string) (tyrants s))
               (filter (fun v => negb (Vote.tyrant_id v =? p_id)%string) (votes s)).
Proof.
  unfold delete_tyrant. destruct (filter _ (tyrants s)) as [|t l]; [now left|].
  rewrite (on_vote_delete_no_entry now p_id).
  - now right.
  - intros v Hv. apply filter_In in Hv. now apply String.eqb_eq.
  - intros u Hu. apply filter_In in Hu. destruct Hu as [_ Hu].
    now apply negb_true_iff, String.eqb_neq in Hu.
Qed.

Lemma delete_tyrant_invariant now p_id s :
  Ledger.invariant s -> Ledger.invariant (fst (delete_tyrant now p_id s)).
Proof.
  intros Hinv. destruct (delete_tyrant_store now p_id s) as [->| ->]; [assumption|].
  destruct Hinv as [Hsync Hfkey Hpkey Huniq Hcheck Hint].
  constructor; simpl.
  - intros t Ht. simpl in *. apply filter_In in Ht. destruct Ht as [Ht Hne].
    apply negb_true_iff, String.eqb_neq in Hne. rewrite (Hsync t Ht).
    rewrite (count_votes_split (fun v => negb (Vote.tyrant_id v =? p_id)%string)
               (Tyrant.id t) (votes s)).
    rewrite (count_votes_none (Tyrant.id t) (filter (fun v => negb (negb _)) (votes s))); [lia|].
    intros v Hv. apply filter_In in Hv. destruct Hv as [_ Hv].
    rewrite negb_involutive in Hv. apply String.eqb_eq in Hv. congruence.
  - intros v Hv. apply filter_In in Hv. destruct Hv as [Hv Hne].
    apply negb_true_iff, String.eqb_neq in Hne.
    specialize (Hfkey v Hv). unfold votes_tyrant_id_fkey in *.
    apply existsb_exists in Hfkey. destruct Hfkey as (t & Ht & Heq).
    apply existsb_exists. exists t. split; [|exact Heq].
    apply filter_In. split; [exact Ht|]. apply String.eqb_eq in Heq.
    apply negb_true_iff, String.eqb_neq. congruence.
  - now apply NoDup_map_filter.
  - now apply NoDup_map_filter.
  - intros v Hv. apply Hcheck. apply filter_In in Hv. tauto.
  - intros t Ht. apply Hint. apply filter_In in Ht. tauto.
Qed.

Lemma reachable_invariant s : Ledger.reachable s -> Ledger.invariant s.
Proof.
  induction 1 as [|o s _ IH].
  - constructor; simpl; try constructor; intros ? [].
  - destruct o; simpl.
    + now apply create_tyrant_invariant.
    + now apply publish_tyrant_invariant.
    + now apply delete_tyrant_invariant.
    + now apply cast_vote_invariant.
    + now apply revoke_vote_invariant.
Qed.

(** ** Counters across one statement *)

Lemma fkey_find E ts :
  votes_tyrant_id_fkey E ts = true ->
  exists t, find (fun t => (Tyrant.id t =? E)%string) ts = Some t.
Proof.
  unfold votes_tyrant_id_fkey. intros H.
  destruct (find _ ts) as [t|] eqn:Hf; [now exists t|].
  apply existsb_exists in H. destruct H as (t & Hin & Hp).
  now rewrite (find_none _ _ Hf t Hin) in Hp.
Qed.

Lemma cast_vote_counter now new_id E F s s' v :
  cast_vote now new_id E F s = (s', Done v) ->
  (exists c, Ledger.shame_count_of E s = Some c
             /\ Ledger.shame_count_of E s' = Some (c + 1))
  /\ (forall E', E' <> E -> Ledger.shame_count_of E' s' = Ledger.shame_count_of E' s).
Proof.
  intros Hcv. apply cast_vote_done in Hcv.
  destruct Hcv as (Hv & _ & _ & _ & Hfk & ts' & Hinc & ->).
  assert (Htid : Vote.tyrant_id v = E) by now subst v.
  pose proof (increment_shame_count_bumped _ _ _ _ Hinc) as Hb. rewrite Htid in Hb.
  assert (Hid : forall t t' : Tyrant.row,
             Ledger.bumped E (fun c => c + 1) t t' /\ in_int4 (Tyrant.shame_count t') = true
             \/ t' = t /\ (Tyrant.id t =? E)%string = false ->
             Tyrant.id t' = Tyrant.id t).
  { intros t t' [[Hbt _]|[-> _]]; [now apply bumped_id in Hbt | reflexivity]. }
  unfold Ledger.shame_count_of. simpl. split.
  - pose proof (find_tyrant_Forall2 E _ _ _ Hb Hid) as Hfind.
    destruct (fkey_find _ _ Hfk) as (t & Ht). rewrite Ht in *.
    destruct (find _ ts') as [t'|]; [|destruct Hfind].
    destruct Hfind as (Hrel & Heq & _). exists (Tyrant.shame_count t). split; [reflexivity|].
    simpl. f_equal. destruct Hrel as [[(_ & _ & Hsc) _]|[_ Hne]].
    + rewrite Hsc, Heq, String.eqb_refl. reflexivity.
    + rewrite Heq, String.eqb_refl in Hne. discriminate.
  - intros E' Hne. pose proof (find_tyrant_Forall2 E' _ _ _ Hb Hid) as Hfind.
    destruct (find _ (tyrants s)) as [t|], (find _ ts') as [t'|]; try now destruct Hfind.
    destruct Hfind as (Hrel & Heq & _). simpl. f_equal.
    destruct Hrel as [[(_ & _ & Hsc) _]|[-> _]]; [|reflexivity].
    rewrite Hsc. replace (Tyrant.id t =? E)%string with false; [reflexivity|].
    symmetry. apply String.eqb_neq. congruence.
Qed.

Lemma revoke_vote_counter now s v :
  Ledger.invariant s -> In v (votes s) ->
  exists s', revoke_vote now (Vote.id v) s = (s', Done [v])
    /\ ~ In v (votes s')
    /\ (exists c, Ledger.shame_count_of (Vote.tyrant_id v) s = Some c
                  /\ Ledger.shame_count_of (Vote.tyrant_id v) s' = Some (c - 1))
    /\ (forall E', E' <> Vote.tyrant_id v ->
          Ledger.shame_count_of E' s' = Ledger.shame_count_of E' s).
Proof.
  intros Hinv Hin.
  destruct (decrement_total_in_sync now s v Hinv Hin) as (ts' & Hdec).
  pose proof (decrement_shame_count_bumped _ _ _ _ Hdec) as Hb.
  eexists. split; [apply (revoke_vote_of_row now s v ts' (Ledger.inv_pkey _ Hinv) Hin Hdec)|].
  set (E := Vote.tyrant_id v) in *.
  assert (Hid : forall t t' : Tyrant.row,
             Ledger.bumped E (fun c => Z.max (c - 1) 0) t t'
             /\ in_int4 (Tyrant.shame_count t - 1) = true
             \/ t' = t /\ (Tyrant.id t =? E)%string = false ->
             Tyrant.id t' = Tyrant.id t).
  { intros t t' [[Hbt _]|[-> _]]; [now apply bumped_id in Hbt | reflexivity]. }
  unfold Ledger.shame_count_of. simpl. split; [|split].
  - intros Hv. apply filter_In in Hv. rewrite String.eqb_refl in Hv. now destruct Hv.
  - pose proof (find_tyrant_Forall2 E _ _ _ Hb Hid) as Hfind.
    destruct (fkey_find _ _ (Ledger.inv_fkey _ Hinv v Hin)) as (t & Ht).
    fold E in Ht. rewrite Ht in *.
    destruct (find _ ts') as [t'|]; [|destruct Hfind].
    destruct Hfind as (Hrel & Heq & Htin). exists (Tyrant.shame_count t).
    split; [reflexivity|]. simpl. f_equal.
    destruct Hrel as [[(_ & _ & Hsc) _]|[_ Hne]].
    + rewrite Hsc, Heq, String.eqb_refl.
      pose proof (Ledger.inv_sync _ Hinv t Htin) as Hs.
      pose proof (count_votes_member (Tyrant.id t) _ v Hin (eq_sym Heq)). lia.
    + rewrite Heq, String.eqb_refl in Hne. discriminate.
  - intros E' Hne. pose proof (find_tyrant_Forall2 E' _ _ _ Hb Hid) as Hfind.
    destruct (find _ (tyrants s)) as [t|], (find _ ts') as [t'|]; try now destruct Hfind.
    destruct Hfind as (Hrel & Heq & _). simpl. f_equal.
    destruct Hrel as [[(_ & _ & Hsc) _]|[-> _]]; [|reflexivity].
    rewrite Hsc. replace (Tyrant.id t =? E)%string with false; [reflexivity|].
    symmetry. apply String.eqb_neq. congruence.
Qed.

Lemma handleVote_store now new_id ipHash tyrantId db st :
  fst (fst (App.handleVote now new_id ipHash tyrantId db st)) =
  fst (cast_vote now new_id tyrantId ipHash db).
Proof.
  unfold App.handleVote. now destruct (cast_vote _ _ _ _ _) as [db' [v|e]].
Qed.

Lemma handleVote_done now new_id ipHash tyrantId db st db' st' :
  App.handleVote now new_id ipHash tyrantId db st = (db', st', None) ->
  exists v, cast_vote now new_id tyrantId ipHash db = (db', Done v).
Proof.
  unfold App.handleVote. destruct (cast_vote _ _ _ _ _) as [db1 [v|e]]; intros H.
  - injection H as <- _. now exists v.
  - discriminate.
Qed.

(** ** The vote ledger *)

Lemma store1_reachable : Ledger.reachable store1.
Proof.
  unfold store1, store0. repeat apply Ledger.reachable_run. apply Ledger.reachable_empty.
Qed.

Lemma store2_reachable : Ledger.reachable store2.
Proof. unfold store2. apply Ledger.reachable_run, store1_reachable. Qed.

(** C1. In every store the statements can reach, the [shame_count] of every
    entry equals the number of live vote rows that reference it; a vote insert
    that succeeds (with its [on_vote_insert] trigger) leaves the store in sync
    and raises that entry's counter, and its number of live votes, by exactly
    1, touching no other counter; one that raises leaves the store as it was;
    deleting a live vote (with its [on_vote_delete] trigger) succeeds, leaves
    the store in sync and lowers the owning entry's counter by exactly 1,
    touching no other counter; and a vote cast through [handleVote] raises the
    store's counter by exactly 1 as well (its later [rpc] call does not reach
    the trigger function). *)
Theorem C1_shame_count_equals_live_votes (s : store) :
  Ledger.reachable s ->
  Ledger.in_sync s
  /\ (forall now new_id E F s' v,
        cast_vote now new_id E F s = (s', Done v) ->
        Ledger.in_sync s'
        /\ Ledger.count_votes E (votes s') = Ledger.count_votes E (votes s) + 1
        /\ (exists c, Ledger.shame_count_of E s = Some c
                      /\ Ledger.shame_count_of E s' = Some (c + 1))
        /\ (forall E', E' <> E ->
              Ledger.shame_count_of E' s' = Ledger.shame_count_of E' s))
  /\ (forall now new_id E F s' e,
        cast_vote now new_id E F s = (s', Raised e) -> s' = s)
  /\ (forall now v,
        In v (votes s) ->
        exists s', revoke_vote now (Vote.id v) s = (s', Done [v])
          /\ Ledger.in_sync s'
          /\ ~ In v (votes s')
          /\ (exists c, Ledger.shame_count_of (Vote.tyrant_id v) s = Some c
                        /\ Ledger.shame_count_of (Vote.tyrant_id v) s' = Some (c - 1))
          /\ (forall E', E' <> Vote.tyrant_id v ->
                Ledger.shame_count_of E' s' = Ledger.shame_count_of E' s))
  /\ (forall now vote_id, Ledger.in_sync (fst (revoke_vote now vote_id s)))
  /\ (forall now new_id ipHash tyrantId st s' st',
        App.handleVote now new_id ipHash tyrantId s st = (s', st', None) ->
        Ledger.in_sync s'
        /\ exists c, Ledger.shame_count_of tyrantId s = Some c
                     /\ Ledger.shame_count_of tyrantId s' = Some (c + 1)).
Proof.
  intros Hreach. pose proof (reachable_invariant s Hreach) as Hinv.
  split; [exact (Ledger.inv_sync _ Hinv)|].
  split; [|split; [|split; [|split]]].
  - intros now new_id E F s' v Hcv.
    pose proof (cast_vote_invariant now new_id E F s Hinv) as Hinv'.
    rewrite Hcv in Hinv'. simpl in Hinv'.
    split; [exact (Ledger.inv_sync _ Hinv')|].
    split; [|exact (cast_vote_counter _ _ _ _ _ _ _ Hcv)].
    apply cast_vote_done in Hcv. destruct Hcv as (-> & _ & _ & _ & _ & ts' & _ & ->).
    simpl. rewrite count_votes_app. simpl. now rewrite String.eqb_refl.
  - intros now new_id E F s' e. apply cast_vote_raised.
  - intros now v Hin.
    destruct (revoke_vote_counter now s v Hinv Hin) as (s' & Hrv & Hgone & Hc & Hothers).
    exists s'. split; [exact Hrv|]. split; [|auto].
    pose proof (revoke_vote_invariant now (Vote.id v) s Hinv) as Hinv'.
    rewrite Hrv in Hinv'. exact (Ledger.inv_sync _ Hinv').
  - intros now vote_id. exact (Ledger.inv_sync _ (revoke_vote_invariant now vote_id s Hinv)).
  - intros now new_id ipHash tyrantId st s' st' Hhv.
    destruct (handleVote_done _ _ _ _ _ _ _ _ Hhv) as (v & Hcv).
    pose proof (cast_vote_invariant now new_id tyrantId ipHash s Hinv) as Hinv'.
    rewrite Hcv in Hinv'. simpl in Hinv'.
    split; [exact (Ledger.inv_sync _ Hinv')|].
    exact (proj1 (cast_vote_counter _ _ _ _ _ _ _ Hcv)).
Qed.

Lemma C1_witness :
  Ledger.in_sync store1
  /\ Ledger.in_sync store2
  /\ Ledger.count_votes "t1"%string (votes store2)
     = Ledger.count_votes "t1"%string (votes store1) + 1
  /\ exists c, Ledger.shame_count_of "t1"%string store1 = Some c
               /\ Ledger.shame_count_of "t1"%string store2 = Some (c + 1).
Proof.
  destruct (C1_shame_count_equals_live_votes store1 store1_reachable)
    as (Hsync & Hcast & _).
  destruct (Hcast 300 "v2"%string "t1"%string (fp "b") store2 vote2)
    as (Hsync' & Hcount & Hc & _); [reflexivity|].
  repeat split; assumption.
Defined.

Lemma NoDup_key_filter (vs : list Vote.row) E F :
  NoDup (map (fun v => (Vote.tyrant_id v, Vote.ip_hash v)) vs) ->
  (List.length (filter (fun v => (Vote.tyrant_id v =? E)%string
                                 && (Vote.ip_hash v =? F)%string) vs) <= 1)%nat.
Proof.
  induction vs as [|v vs IH]; simpl; intros Hnd; [lia|].
  apply NoDup_cons_iff in Hnd. destruct Hnd as [Hv Hnd].
  destruct ((Vote.tyrant_id v =? E)%string && (Vote.ip_hash v =? F)%string) eqn:Hk;
    [|now apply IH].
  apply andb_true_iff in Hk. destruct Hk as [H1 H2].
  apply String.eqb_eq in H1, H2. rewrite filter_none; [simpl; lia|].
  intros w Hw. apply not_true_is_false. intros Hk.
  apply andb_true_iff in Hk. destruct Hk as [H3 H4].
  apply String.eqb_eq in H3, H4. apply Hv. apply in_map_iff.
  exists w. split; [congruence | assumption].
Qed.

Lemma cast_vote_duplicate now new_id E F s :
  (forall v, In v (votes s) -> votes_ip_hash_check (Vote.ip_hash v) = true) ->
  (exists v, In v (votes s) /\ Vote.tyrant_id v = E /\ Vote.ip_hash v = F) ->
  cast_vote now new_id E F s = (s, Raised unique_violation).
Proof.
  intros Hcheck (v & Hin & <- & <-). unfold cast_vote.
  rewrite (Hcheck v Hin). simpl.
  destruct (votes_pkey_conflict new_id (votes s)); [reflexivity|].
  replace (idx_votes_tyrant_ip_unique_conflict _ _ _) with true; [reflexivity|].
  symmetry. apply existsb_exists. exists v. now rewrite !String.eqb_refl.
Qed.

(** C2. In every store the statements can reach, at most one live vote row
    exists for a pair (entry, fingerprint); while one is live, an insert of
    the same pair is refused with [unique_violation], which is the
    [DuplicateVote] outcome, and leaves the store as it was. *)
Theorem C2_at_most_one_live_vote_per_pair (s : store) :
  Ledger.reachable s ->
  (forall E F, (List.length (Ledger.live_votes E F s) <= 1)%nat)
  /\ (forall now new_id E F,
        Ledger.live_votes E F s <> [] ->
        cast_vote now new_id E F s = (s, Raised unique_violation)
        /\ vote_error_of unique_violation = DuplicateVote).
Proof.
  intros Hreach. pose proof (reachable_invariant s Hreach) as Hinv. split.
  - intros E F. apply NoDup_key_filter. exact (Ledger.inv_unique _ Hinv).
  - intros now new_id E F Hlive. split; [|reflexivity].
    apply cast_vote_duplicate; [exact (Ledger.inv_check _ Hinv)|].
    unfold Ledger.live_votes in Hlive.
    destruct (filter _ (votes s)) as [|v l] eqn:Hf; [congruence|].
    assert (Hv : In v (filter (fun v => (Vote.tyrant_id v =? E)%string
                                        && (Vote.ip_hash v =? F)%string) (votes s)))
      by (rewrite Hf; now left).
    apply filter_In in Hv. destruct Hv as [Hin Hk].
    apply andb_true_iff in Hk. destruct Hk as [H1 H2].
    apply String.eqb_eq in H1, H2. now exists v.
Qed.

Lemma C2_witness :
  (List.length (Ledger.live_votes "t1"%string (fp "a") store2) <= 1)%nat
  /\ cast_vote 400 "v3"%string "t1"%string (fp "a") store2
     = (store2, Raised unique_violation).
Proof.
  destruct (C2_at_most_one_live_vote_per_pair store2 store2_reachable) as [H1 H2].
  split; [apply H1|]. apply (H2 400 "v3"%string "t1"%string (fp "a")).
  vm_compute. discriminate.
Defined.

(** C3. When a live vote row for (E, F) already exists (in a store whose
    vote rows satisfy the table's CHECK constraint), [cast_vote] on (E, F) is
    refused with [unique_violation], the [DuplicateVote] outcome, and the
    store is left as it was: same vote rows, same counters; [handleVote]
    likewise throws that error and leaves the store as it was. *)
Theorem C3_duplicate_vote_has_no_effect (s : store) now new_id E F :
  (forall v, In v (votes s) -> votes_ip_hash_check (Vote.ip_hash v) = true) ->
  (exists v, In v (votes s) /\ Vote.tyrant_id v = E /\ Vote.ip_hash v = F) ->
  cast_vote now new_id E F s = (s, Raised unique_violation)
  /\ vote_error_of unique_violation = DuplicateVote
  /\ votes (fst (cast_vote now new_id E F s)) = votes s
  /\ (forall E', Ledger.shame_count_of E' (fst (cast_vote now new_id E F s))
                 = Ledger.shame_count_of E' s)
  /\ (forall st, exists st',
        App.handleVote now new_id F E s st = (s, st', Some unique_violation)).
Proof.
  intros Hcheck Hlive. pose proof (cast_vote_duplicate now new_id E F s Hcheck Hlive) as H.
  rewrite H. simpl. repeat split; auto.
  intros st. unfold App.handleVote. rewrite H. eexists. reflexivity.
Qed.

Lemma C3_witness :
  cast_vote 400 "v3"%string "t1"%string (fp "a") store1
  = (store1, Raised unique_violation).
Proof.
  refine (proj1 (C3_duplicate_vote_has_no_effect store1 400 "v3"%string "t1"%string (fp "a") _ _)).
  - intros v [<-|[]]. reflexivity.
  - exists vote1. repeat split. now left.
Defined.

(** C4. Deleting a live vote row (in a store whose vote ids are unique, the
    owning entry's counter being an INTEGER above the type's minimum) removes
    exactly that row and sets the owning entry's [shame_count] to
    [max (shame_count - 1) 0], other entries keeping theirs: the counter is
    never negative afterwards, a counter that was 0 (out of step with the
    ledger) stays 0, and deleting the same id again changes nothing. *)
Theorem C4_revoke_vote_decrements_with_floor (s : store) now v :
  NoDup (map Vote.id (votes s)) ->
  In v (votes s) ->
  (forall t, In t (tyrants s) -> Tyrant.id t = Vote.tyrant_id v ->
     int4_min < Tyrant.shame_count t <= int4_max) ->
  exists s',
    revoke_vote now (Vote.id v) s = (s', Done [v])
    /\ (forall w, In w (votes s') <-> In w (votes s) /\ Vote.id w <> Vote.id v)
    /\ Forall2 (fun t t' =>
                  Tyrant.id t' = Tyrant.id t
                  /\ Tyrant.shame_count t' =
                       if (Tyrant.id t =? Vote.tyrant_id v)%string
                       then Z.max (Tyrant.shame_count t - 1) 0
                       else Tyrant.shame_count t)
               (tyrants s) (tyrants s')
    /\ (forall t', In t' (tyrants s') -> Tyrant.id t' = Vote.tyrant_id v ->
          0 <= Tyrant.shame_count t')
    /\ (forall c, Ledger.shame_count_of (Vote.tyrant_id v) s = Some c ->
          Ledger.shame_count_of (Vote.tyrant_id v) s' = Some (Z.max (c - 1) 0))
    /\ (Ledger.shame_count_of (Vote.tyrant_id v) s = Some 0 ->
          Ledger.shame_count_of (Vote.tyrant_id v) s' = Some 0)
    /\ (forall now', revoke_vote now' (Vote.id v) s' = (s', Done [])).
Proof.
  intros Hpk Hin Hrange.
  destruct (update_tyrants_total set_decrement
              (fun t => (Tyrant.id t =? Vote.tyrant_id v)%string) now (tyrants s))
    as (ts' & Hdec).
  { intros t Ht Hw. apply String.eqb_eq in Hw. specialize (Hrange t Ht Hw).
    unfold set_decrement.
    replace (in_int4 (Tyrant.shame_count t - 1)) with true; [discriminate|].
    symmetry. apply in_int4_iff. unfold int4_min, int4_max in *. lia. }
  fold (decrement_shame_count now v (tyrants s)) in Hdec.
  pose proof (decrement_shame_count_bumped _ _ _ _ Hdec) as Hb.
  set (R := fun t t' : Tyrant.row =>
              Tyrant.id t' = Tyrant.id t
              /\ Tyrant.shame_count t' =
                   if (Tyrant.id t =? Vote.tyrant_id v)%string
                   then Z.max (Tyrant.shame_count t - 1) 0
                   else Tyrant.shame_count t).
  assert (HR : Forall2 R (tyrants s) ts').
  { eapply Forall2_impl; [|exact Hb]. simpl. intros t t' [[(Hid & _ & Hsc) _]|[-> Hne]].
    - split; assumption.
    - split; [reflexivity|]. now rewrite Hne. }
  assert (Hcount : forall c, Ledger.shame_count_of (Vote.tyrant_id v) s = Some c ->
            Ledger.shame_count_of (Vote.tyrant_id v)
              (mkStore ts' (filter (fun w => negb (Vote.id w =? Vote.id v)%string) (votes s)))
            = Some (Z.max (c - 1) 0)).
  { intros c. unfold Ledger.shame_count_of. simpl.
    pose proof (find_tyrant_Forall2 (Vote.tyrant_id v) R _ _ HR
                  (fun t t' H => proj1 H)) as Hfind.
    destruct (find _ (tyrants s)) as [t|]; [|discriminate].
    destruct (find _ ts') as [t'|]; [|destruct Hfind].
    destruct Hfind as ((_ & Hsc) & Heq & _). simpl. intros Hc. injection Hc as <-.
    rewrite Hsc, Heq, String.eqb_refl. reflexivity. }
  eexists. split; [exact (revoke_vote_of_row now s v ts' Hpk Hin Hdec)|]. simpl.
  split; [|split; [exact HR|split; [|split; [exact Hcount|split]]]].
  - intros w. rewrite filter_In, negb_true_iff, String.eqb_neq. tauto.
  - intros t' Hin' Hid'. destruct (Forall2_in_r _ _ _ HR t' Hin') as (t & _ & Hid & Hsc).
    rewrite Hsc, <- Hid, Hid', String.eqb_refl. lia.
  - intros H0. now rewrite (Hcount 0 H0).
  - intros now'. apply revoke_vote_absent. simpl. intros w Hw.
    apply filter_In in Hw. destruct Hw as [_ Hw].
    now apply negb_true_iff, String.eqb_neq in Hw.
Qed.

Lemma C4_witness :
  exists s', revoke_vote 500 "v1"%string store_out_of_sync = (s', Done [vote1])
             /\ Ledger.shame_count_of "t1"%string s' = Some 0.
Proof.
  destruct (C4_revoke_vote_decrements_with_floor store_out_of_sync 500 vote1)
    as (s' & Hrv & _ & _ & _ & _ & H0 & _).
  - repeat constructor. intros [].
  - now left.
  - intros t [<-|[]] _. vm_compute. split; [reflexivity | discriminate].
  - exists s'. split; [exact Hrv|]. apply H0. reflexivity.
Defined.

Lemma cast_vote_check_violation (s : store) now new_id E F :
  String.length F <> 64%nat ->
  cast_vote now new_id E F s = (s, Raised check_violation).
Proof.
  intros Hlen. unfold cast_vote, votes_ip_hash_check.
  now replace (String.length F =? 64)%nat with false by (symmetry; now apply Nat.eqb_neq).
Qed.

Lemma handleVote_check_violation (s : store) now new_id E F st :
  String.length F <> 64%nat ->
  App.handleVote now new_id F E s st = (s, st, Some check_violation).
Proof.
  intros Hlen. unfold App.handleVote. now rewrite cast_vote_check_violation.
Qed.

(** C5, as the code has it. A fingerprint whose length is not exactly 64
    characters makes [cast_vote] raise [check_violation], the
    [ValidationError] outcome, whatever the entry id, and leaves the store as
    it was: no vote row, no counter change; [handleVote] throws that error
    and leaves the store as it was. Only the length is checked. *)
Theorem C5_fingerprint_length_is_checked (s : store) now new_id E F :
  String.length F <> 64%nat ->
  cast_vote now new_id E F s = (s, Raised check_violation)
  /\ vote_error_of check_violation = ValidationError
  /\ (forall st, App.handleVote now new_id F E s st = (s, st, Some check_violation)).
Proof.
  intros Hlen. split; [now apply cast_vote_check_violation|]. split; [reflexivity|].
  intros st. now apply handleVote_check_violation.
Qed.

Lemma C5_witness :
  cast_vote 200 "v1"%string "t1"%string "abc"%string store0
  = (store0, Raised check_violation).
Proof.
  refine (proj1 (C5_fingerprint_length_is_checked store0 200 "v1"%string "t1"%string
                   "abc"%string _)).
  simpl. lia.
Defined.

(** C5, as stated, fails: 64 letters [z] are not hexadecimal digits, yet the
    vote is recorded and the counter goes from 0 to 1. *)
Lemma C5_counterexample :
  spec_fingerprint_well_formed (fp "z") = false
  /\ Ledger.shame_count_of "t1"%string store0 = Some 0
  /\ exists s' v,
       cast_vote 200 "v1"%string "t1"%string (fp "z") store0 = (s', Done v)
       /\ votes s' = [v]
       /\ Vote.ip_hash v = fp "z"
       /\ Ledger.shame_count_of "t1"%string s' = Some 1.
Proof.
  split; [reflexivity|]. split; [reflexivity|].
  eexists. eexists. split; [vm_compute; reflexivity|]. repeat split.
Qed.

(** ** ORDER BY, LIMIT and OFFSET *)

Section OrderBy.
Context {A : Type} (before : A -> A -> bool).
Hypothesis before_total : forall a b, before a b = true \/ before b a = true.
Hypothesis before_trans :
  forall a b c, before a b = true -> before b c = true -> before a c = true.

Lemma insert_by_perm x l : Permutation (insert_by before x l) (x :: l).
Proof.
  induction l as [|y l IH]; simpl; [reflexivity|].
  destruct (before x y); [reflexivity|].
  rewrite IH. apply perm_swap.
Qed.

Lemma order_by_perm l : Permutation (order_by before l) l.
Proof.
  induction l as [|x l IH]; simpl; [reflexivity|].
  rewrite insert_by_perm. now constructor.
Qed.

Lemma insert_by_sorted x l :
  StronglySorted (fun a b => before a b = true) l ->
  StronglySorted (fun a b => before a b = true) (insert_by before x l).
Proof.
  induction 1 as [|y l Hs IH Hy]; simpl; [repeat constructor|].
  destruct (before x y) eqn:Hxy.
  - constructor; [now constructor|]. constructor; [exact Hxy|].
    eapply Forall_impl; [|exact Hy]. intros z Hz. now apply (before_trans x y z).
  - constructor; [exact IH|].
    assert (Hyx : before y x = true)
      by (destruct (before_total x y) as [H|H]; [congruence | exact H]).
    rewrite Forall_forall in *. intros z Hz.
    apply (Permutation_in _ (insert_by_perm x l)) in Hz.
    destruct Hz as [<-|Hz]; [exact Hyx | now apply Hy].
Qed.

Lemma order_by_sorted l :
  StronglySorted (fun a b => before a b = true) (order_by before l).
Proof.
  induction l as [|x l IH]; simpl; [constructor | now apply insert_by_sorted].
Qed.

End OrderBy.

Lemma in_skipn {A} n (l : list A) x : In x (skipn n l) -> In x l.
Proof.
  revert l. induction n as [|n IH]; intros l H; [exact H|].
  destruct l as [|y l]; [exact H|]. right. now apply IH.
Qed.

Lemma in_firstn {A} n (l : list A) x : In x (firstn n l) -> In x l.
Proof.
  revert l. induction n as [|n IH]; intros l H; [destruct H|].
  destruct l as [|y l]; [destruct H|].
  destruct H as [H|H]; [now left | right; now apply IH].
Qed.

Lemma StronglySorted_skipn {A} (R : A -> A -> Prop) n l :
  StronglySorted R l -> StronglySorted R (skipn n l).
Proof.
  revert l. induction n as [|n IH]; intros l H; [exact H|].
  destruct H; simpl; [constructor | now apply IH].
Qed.

Lemma StronglySorted_firstn {A} (R : A -> A -> Prop) n l :
  StronglySorted R l -> StronglySorted R (firstn n l).
Proof.
  revert l. induction n as [|n IH]; intros l H; [constructor|].
  destruct H as [|x l Hs Hx]; simpl; constructor; [now apply IH|].
  rewrite Forall_forall in *. intros y Hy. apply Hx. now apply in_firstn in Hy.
Qed.

Lemma shame_then_recent_spec a b :
  shame_then_recent a b = true <->
  Tyrant.shame_count b < Tyrant.shame_count a
  \/ Tyrant.shame_count a = Tyrant.shame_count b
     /\ Tyrant.created_at b <= Tyrant.created_at a.
Proof.
  unfold shame_then_recent.
  rewrite orb_true_iff, andb_true_iff, Z.ltb_lt, Z.eqb_eq, Z.leb_le. tauto.
Qed.

Lemma shame_then_recent_total a b :
  shame_then_recent a b = true \/ shame_then_recent b a = true.
Proof. rewrite !shame_then_recent_spec. lia. Qed.

Lemma shame_then_recent_trans a b c :
  shame_then_recent a b = true -> shame_then_recent b c = true ->
  shame_then_recent a c = true.
Proof. rewrite !shame_then_recent_spec. lia. Qed.

Lemma tyrant_category_eqb_eq a b : tyrant_category_eqb a b = true <-> a = b.
Proof. destruct a, b; simpl; split; congruence. Qed.

Lemma published_where_spec p_category t :
  published_where p_category t = true <->
  Tyrant.is_published t = true
  /\ forall c, p_category = Some c -> Tyrant.category t = c.
Proof.
  unfold published_where. rewrite andb_true_iff, Bool.eqb_true_iff.
  destruct p_category as [c|].
  - rewrite tyrant_category_eqb_eq. split.
    + intros [H1 H2]. split; [exact H1|]. intros c' Hc. now injection Hc as <-.
    + intros [H1 H2]. split; [exact H1|]. now apply H2.
  - split; intros [H1 _]; split; auto. discriminate.
Qed.

(** What the query in the body of [get_published_tyrants] computes for a
    limit and an offset that are not negative: the window
    [offset, offset + limit) of the published entries of the category (all
    published entries when none is given), each once, arranged by
    [shame_count] descending, then [created_at] descending. *)
Lemma published_query_spec (s : store) (p_category : option tyrant_category)
    (p_limit p_offset : Z) :
  0 <= p_limit -> 0 <= p_offset ->
  exists all,
    published_query p_category p_limit p_offset s
    = Done (map select_published
              (firstn (Z.to_nat p_limit) (skipn (Z.to_nat p_offset) all)))
    /\ Permutation all (filter (published_where p_category) (tyrants s))
    /\ (forall t, In t all <->
          In t (tyrants s) /\ Tyrant.is_published t = true
          /\ forall c, p_category = Some c -> Tyrant.category t = c)
    /\ StronglySorted (fun a b => shame_then_recent a b = true) all.
Proof.
  intros Hl Ho.
  exists (order_by shame_then_recent (filter (published_where p_category) (tyrants s))).
  split; [|split; [apply order_by_perm|split]].
  - unfold published_query.
    replace (p_limit <? 0) with false by (symmetry; apply Z.ltb_ge; lia).
    replace (p_offset <? 0) with false by (symmetry; apply Z.ltb_ge; lia).
    reflexivity.
  - intros t. rewrite <- published_where_spec, <- filter_In. split.
    + apply Permutation_in, order_by_perm.
    + apply Permutation_in. symmetry. apply order_by_perm.
  - apply order_by_sorted; [exact shame_then_recent_total | exact shame_then_recent_trans].
Qed.

Lemma fetchTyrants_sorted s :
  StronglySorted (fun a b => Tyrant.shame_count b <= Tyrant.shame_count a)
    (App.fetchTyrants s).
Proof.
  unfold App.fetchTyrants.
  eapply StronglySorted_ind with (P := fun l => StronglySorted _ l);
    [constructor | | apply (order_by_sorted
        (fun a b => Tyrant.shame_count b <=? Tyrant.shame_count a))].
  - intros a l _ IH Ha. constructor; [exact IH|].
    eapply Forall_impl; [|exact Ha]. intros b Hb. now apply Z.leb_le.
  - intros a b. rewrite !Z.leb_le. lia.
  - intros a b c. rewrite !Z.leb_le. lia.
Qed.

Lemma fetchTyrants_In s t :
  In t (App.fetchTyrants s) <-> In t (tyrants s) /\ Tyrant.is_published t = true.
Proof.
  unfold App.fetchTyrants. rewrite <- (Bool.eqb_true_iff (Tyrant.is_published t) true).
  rewrite <- (filter_In (fun t => Bool.eqb (Tyrant.is_published t) true)). split.
  - apply Permutation_in, order_by_perm.
  - apply Permutation_in. symmetry. apply order_by_perm.
Qed.

(** C6, on the code. The statement that is to create [get_published_tyrants]
    names a column of its [RETURNS TABLE] [position]; that word is a keyword
    which cannot name such a column unless it is quoted, and it is the only
    name of the statement the parser refuses. The statement is therefore not
    accepted, the schema has no function of that name, and every call raises
    [undefined_function], whatever the category, the limit, the offset and
    the table: on a table that holds published entries of category [state]
    the call for that category returns none of them, where the interface
    description has them listed. The sibling listing, which the shell reads
    from the table itself, does hold every published entry and no other, by
    [shame_count] descending. *)
Theorem C6_get_published_tyrants_is_not_created :
  filter (fun n => negb (param_name n)) (returns_table create_get_published_tyrants)
  = ["position"%string]
  /\ forallb param_name (proargnames create_get_published_tyrants) = true
  /\ parses create_get_published_tyrants = false
  /\ function_exists "get_published_tyrants" = false
  /\ (forall p_category p_limit p_offset s,
        get_published_tyrants p_category p_limit p_offset s = Raised undefined_function)
  /\ (exists t,
        In t (tyrants store_listing)
        /\ Tyrant.is_published t = true /\ Tyrant.category t = state
        /\ forall rows,
             get_published_tyrants (Some state) 50 0 store_listing <> Done rows)
  /\ (forall s t,
        In t (App.fetchTyrants s) <-> In t (tyrants s) /\ Tyrant.is_published t = true)
  /\ (forall s,
        StronglySorted (fun a b => Tyrant.shame_count b <= Tyrant.shame_count a)
          (App.fetchTyrants s)).
Proof.
  assert (Hcall : forall p_category p_limit p_offset s,
             get_published_tyrants p_category p_limit p_offset s
             = Raised undefined_function) by reflexivity.
  split; [reflexivity|]. split; [reflexivity|]. split; [reflexivity|].
  split; [reflexivity|]. split; [exact Hcall|]. split; [|split].
  - exists (sample_tyrant "b" state 7 true 20). split; [simpl; tauto|].
    split; [reflexivity|]. split; [reflexivity|].
    intros rows. rewrite Hcall. discriminate.
  - exact fetchTyrants_In.
  - exact fetchTyrants_sorted.
Qed.

(** ** The enum at the boundary *)

Lemma tyrant_category_in_out c : tyrant_category_in (tyrant_category_out c) = Some c.
Proof. now destruct c. Qed.

Lemma tyrant_category_in_some str c :
  tyrant_category_in str = Some c -> str = tyrant_category_out c.
Proof.
  unfold tyrant_category_in.
  destruct (str =? "federal")%string eqn:H1;
    [apply String.eqb_eq in H1; intros H; now injection H as <-|].
  destruct (str =? "state")%string eqn:H2;
    [apply String.eqb_eq in H2; intros H; now injection H as <-|].
  destruct (str =? "local")%string eqn:H3;
    [apply String.eqb_eq in H3; intros H; now injection H as <-|].
  destruct (str =? "law_enforcement")%string eqn:H4;
    [apply String.eqb_eq in H4; intros H; now injection H as <-|].
  discriminate.
Qed.

(** C7, on the code. The store's side holds: the enum prints one of the four
    labels, and its input function accepts a string exactly when it is one of
    them. The form's side does not: whatever is selected, the [category]
    [handleSubmit] puts in the record is none of the four labels ("Federal"
    for a valid form that selects Federal), and the enum refuses it. *)
Theorem C7_form_category_is_not_an_enum_label :
  (forall c, In (tyrant_category_out c) tyrant_category_labels)
  /\ (forall str, In str tyrant_category_labels <-> exists c, tyrant_category_in str = Some c)
  /\ (forall formData evidenceUrl,
        ~ In (SubmissionForm.Insert.category
                (SubmissionForm.build_submission formData evidenceUrl))
             tyrant_category_labels
        /\ SubmissionForm.submissions_category_in
             (SubmissionForm.build_submission formData evidenceUrl)
           = Raised invalid_text_representation)
  /\ (exists r,
        SubmissionForm.handleSubmit
          (sample_form SubmissionForm.Federal EmptyString true) SubmissionForm.NoFile
        = Some r
        /\ SubmissionForm.Insert.category r = "Federal"%string
        /\ tyrant_category_in (SubmissionForm.Insert.category r) = None).
Proof.
  split; [|split; [|split]].
  - intros []; simpl; auto.
  - intros str. split.
    + intros [<-|[<-|[<-|[<-|[]]]]]; eexists; reflexivity.
    + intros (c & Hc). apply tyrant_category_in_some in Hc. subst str.
      destruct c; simpl; auto.
  - intros formData evidenceUrl. unfold SubmissionForm.submissions_category_in. simpl.
    destruct (SubmissionForm.category formData); simpl;
      (split; [intros [H|[H|[H|[H|[]]]]]; discriminate | reflexivity]).
  - eexists. split; [vm_compute; reflexivity|]. split; reflexivity.
Qed.

(** ** The time window of has_voted *)

Lemma is_valid_timestamp_iff t :
  is_valid_timestamp t = true <-> timestamp_min <= t < timestamp_end.
Proof. unfold is_valid_timestamp. rewrite andb_true_iff, Z.leb_le, Z.ltb_lt. tauto. Qed.

Lemma has_voted_in_range now E F w s :
  is_valid_timestamp (now - hours w) = true ->
  has_voted now E F w s
  = Done (existsb (fun v => (Vote.tyrant_id v =? E)%string
                            && (Vote.ip_hash v =? F)%string
                            && (now - hours w <? Vote.created_at v))
                  (votes s)).
Proof. intros H. unfold has_voted. now rewrite H. Qed.

Lemma has_voted_true_iff now E F w s :
  has_voted now E F w s = Done true <->
  is_valid_timestamp (now - hours w) = true
  /\ exists v, In v (votes s)
               /\ Vote.tyrant_id v = E
               /\ Vote.ip_hash v = F
               /\ now - hours w < Vote.created_at v.
Proof.
  unfold has_voted. destruct (is_valid_timestamp (now - hours w)).
  - split.
    + intros H. injection H as H. split; [reflexivity|].
      apply existsb_exists in H. destruct H as (v & Hin & Hv).
      apply andb_true_iff in Hv. destruct Hv as [Hv H3].
      apply andb_true_iff in Hv. destruct Hv as [H1 H2].
      apply String.eqb_eq in H1, H2. apply Z.ltb_lt in H3. now exists v.
    + intros (_ & v & Hin & <- & <- & H3). f_equal. apply existsb_exists.
      exists v. split; [exact Hin|].
      rewrite !String.eqb_refl. simpl. now apply Z.ltb_lt.
  - split; [discriminate|]. intros [H _]. discriminate.
Qed.

(** Any time from 2000-01-01 on, every window from 0 up to 58,837,080 hours
    starts at an instant a timestamp can hold. *)
Lemma window_in_range now w :
  0 <= now -> is_valid_timestamp now = true -> 0 <= w <= 58837080 ->
  is_valid_timestamp (now - hours w) = true.
Proof.
  rewrite !is_valid_timestamp_iff. unfold timestamp_min, timestamp_end, hours. lia.
Qed.

(** C8. For a window of [w] hours that starts at an instant a timestamp can
    hold ([now] minus [w] hours is no earlier than 4714-11-24 BC), [has_voted]
    answers, and it answers true exactly when a vote row of the entry and
    fingerprint exists whose [created_at] is later than [now] minus [w]
    hours. It is a function of the store alone and answers a boolean: it
    writes nothing, and it does not consult the unique index. *)
Theorem C8_has_voted_is_windowed_existence now (E : uuid) (F : string) (w : Z) (s : store) :
  in_int4 w = true ->
  is_valid_timestamp (now - hours w) = true ->
  (exists b,
      has_voted now E F w s = Done b
      /\ (b = true <->
            exists v, In v (votes s)
                      /\ Vote.tyrant_id v = E
                      /\ Vote.ip_hash v = F
                      /\ now - hours w < Vote.created_at v))
  /\ hours w = w * (60 * 60 * 1000000).
Proof.
  intros _ Hvalid. split; [|reflexivity].
  destruct (has_voted now E F w s) as [b|e] eqn:Hhv.
  - exists b. split; [reflexivity|]. split.
    + intros ->. apply has_voted_true_iff in Hhv. tauto.
    + intros Hex. assert (Ht : has_voted now E F w s = Done true)
        by (apply has_voted_true_iff; now split).
      congruence.
  - rewrite (has_voted_in_range _ _ _ _ _ Hvalid) in Hhv. discriminate.
Qed.

Lemma C8_witness :
  has_voted now_recent "t1"%string (fp "a") 24 store_recent = Done true.
Proof.
  destruct (C8_has_voted_is_windowed_existence now_recent "t1"%string (fp "a") 24
              store_recent eq_refl eq_refl) as [(b & Hb & Hiff) _].
  rewrite Hb. f_equal. apply Hiff. exists vote_recent.
  split; [left; reflexivity|]. split; [reflexivity|]. split; [reflexivity|].
  vm_compute. reflexivity.
Defined.

(** Without the bound on the window the statement fails, on the largest
    window an [INTEGER] holds: the vote of the pair is there, cast two
    seconds before and so well within the window, and [has_voted] raises
    instead of answering true. *)
Lemma C8_counterexample :
  in_int4 2147483647 = true
  /\ is_valid_timestamp now_recent = true
  /\ (exists v, In v (votes store_recent)
                /\ Vote.tyrant_id v = "t1"%string
                /\ Vote.ip_hash v = fp "a"
                /\ now_recent - hours 2147483647 < Vote.created_at v)
  /\ has_voted now_recent "t1"%string (fp "a") 2147483647 store_recent
     = Raised datetime_field_overflow
  /\ has_voted now_recent "t1"%string (fp "a") 2147483647 store_recent <> Done true.
Proof.
  split; [reflexivity|]. split; [reflexivity|]. split; [|split].
  - exists vote_recent. split; [left; reflexivity|]. split; [reflexivity|].
    split; [reflexivity|]. vm_compute. reflexivity.
  - vm_compute. reflexivity.
  - vm_compute. discriminate.
Qed.

(** The largest window that is answered two seconds after the sample vote,
    and the first that is not. *)
Lemma has_voted_window_limit :
  has_voted now_recent "t1"%string (fp "a") 59072352 store_recent = Done true
  /\ has_voted now_recent "t1"%string (fp "a") 59072353 store_recent
     = Raised datetime_field_overflow.
Proof. split; vm_compute; reflexivity. Qed.

(** A vote older than the window: [has_voted] says no, the insert is refused
    all the same. *)
Lemma has_voted_expired_vote_still_blocks :
  has_voted (200 + hours 24) "t1"%string (fp "a") 24 store1 = Done false
  /\ cast_vote (200 + hours 24) "v2"%string "t1"%string (fp "a") store1
     = (store1, Raised unique_violation).
Proof. split; reflexivity. Qed.

(** ** The fallback fingerprint *)

Lemma string_length_append (a b : string) :
  String.length (a ++ b)%string = (String.length a + String.length b)%nat.
Proof. induction a as [|c a IH]; simpl; [reflexivity | now rewrite IH]. Qed.

Lemma decimal_digits_length fuel : forall n k,
  0 <= n < 10 ^ Z.of_nat (S k) ->
  (String.length (App.decimal_digits fuel n) <= S k)%nat.
Proof.
  induction fuel as [|fuel IH]; intros n k Hn; simpl; [lia|].
  destruct (n <? 10) eqn:Hlt; [simpl; lia|].
  apply Z.ltb_ge in Hlt. rewrite string_length_append. simpl.
  destruct k as [|k]; [simpl in Hn; lia|].
  assert (Hdiv : 0 <= n / 10 < 10 ^ Z.of_nat (S k)).
  { split; [apply Z.div_pos; lia|].
    apply Z.div_lt_upper_bound; [lia|].
    rewrite (Nat2Z.inj_succ (S k)), Z.pow_succ_r in Hn by lia. lia. }
  specialize (IH (n / 10) k Hdiv). lia.
Qed.

Lemma decimal_value_snoc acc a c :
  App.decimal_value acc (a ++ String c EmptyString)%string
  = 10 * App.decimal_value acc a + App.digit_value c.
Proof.
  revert acc. induction a as [|d a IH]; intros acc; simpl; [reflexivity | apply IH].
Qed.

Lemma digit_value_char d : 0 <= d < 10 -> App.digit_value (App.digit_char d) = d.
Proof.
  intros Hd. unfold App.digit_value, App.digit_char.
  rewrite nat_ascii_embedding by lia. lia.
Qed.

(** The digits printed are those of the number: the fuel never runs short. *)
Lemma decimal_digits_value fuel : forall n,
  0 <= n -> Z.log2 n < Z.of_nat fuel ->
  App.decimal_value 0 (App.decimal_digits fuel n) = n.
Proof.
  induction fuel as [|fuel IH]; intros n Hn Hfuel.
  - pose proof (Z.log2_nonneg n). lia.
  - simpl App.decimal_digits. destruct (n <? 10) eqn:Hlt.
    + apply Z.ltb_lt in Hlt. simpl. rewrite digit_value_char; lia.
    + apply Z.ltb_ge in Hlt. rewrite decimal_value_snoc.
      assert (Hq : 1 <= n / 10) by (apply Z.div_le_lower_bound; lia).
      assert (Hlog : Z.log2 (n / 10) < Z.of_nat fuel).
      { pose proof (Z.log2_double (n / 10) ltac:(lia)) as Hd.
        assert (Hle : 2 * (n / 10) <= n).
        { pose proof (Z.mul_div_le n 10 ltac:(lia)). lia. }
        pose proof (Z.log2_le_mono _ _ Hle). lia. }
      rewrite (IH (n / 10) ltac:(lia) Hlog).
      rewrite digit_value_char by (apply Z.mod_pos_bound; lia).
      pose proof (Z.div_mod n 10 ltac:(lia)). lia.
Qed.

Lemma js_number_to_string_value n :
  (0 <= n -> App.decimal_value 0 (App.js_number_to_string n) = n)
  /\ (n < 0 -> exists digits,
               App.js_number_to_string n = String "-"%char digits
               /\ App.decimal_value 0 digits = - n).
Proof.
  unfold App.js_number_to_string. split; intros Hn.
  - replace (n <? 0) with false by (symmetry; apply Z.ltb_ge; lia).
    apply decimal_digits_value; lia.
  - replace (n <? 0) with true by (symmetry; apply Z.ltb_lt; lia).
    eexists. split; [reflexivity|]. apply decimal_digits_value; lia.
Qed.

Lemma js_number_to_string_length n :
  App.time_value n -> (String.length (App.js_number_to_string n) <= 17)%nat.
Proof.
  unfold App.time_value, App.js_number_to_string. intros Hn.
  destruct (n <? 0) eqn:Hneg.
  - apply Z.ltb_lt in Hneg. cbn [String.length].
    pose proof (decimal_digits_length (S (Z.to_nat (Z.log2 (- n)))) (- n) 15) as H.
    change (10 ^ Z.of_nat 16) with 10000000000000000 in H.
    specialize (H ltac:(lia)). lia.
  - apply Z.ltb_ge in Hneg.
    pose proof (decimal_digits_length (S (Z.to_nat (Z.log2 n))) n 15) as H.
    change (10 ^ Z.of_nat 16) with 10000000000000000 in H.
    specialize (H ltac:(lia)). lia.
Qed.

(** C9. When the lookup fails, [getIpHash] answers "anonymous-" followed by
    the decimal time value; for every time value [Date.now()] can answer that
    string is shorter than 64 characters, so it fails [votes_ip_hash_check]:
    every insert built from it raises [check_violation] and leaves the store
    as it was, and [handleVote] throws without recording a vote. *)
Theorem C9_fallback_fingerprint_is_rejected (sha256_hex : string -> string) (date_now : Z) :
  App.time_value date_now ->
  let ipHash := App.getIpHash sha256_hex None date_now in
  ipHash = ("anonymous-" ++ App.js_number_to_string date_now)%string
  /\ String.length ipHash <> 64%nat
  /\ votes_ip_hash_check ipHash = false
  /\ (forall s now new_id E,
        cast_vote now new_id E ipHash s = (s, Raised check_violation))
  /\ (forall s now new_id E st,
        App.handleVote now new_id ipHash E s st = (s, st, Some check_violation)).
Proof.
  intros Ht ipHash.
  assert (Hlen : String.length ipHash <> 64%nat).
  { subst ipHash. unfold App.getIpHash, App.getIpHash_fallback.
    rewrite string_length_append. pose proof (js_number_to_string_length _ Ht).
    simpl. lia. }
  split; [reflexivity|]. split; [exact Hlen|]. split; [now apply Nat.eqb_neq|].
  split.
  - intros s now new_id E. now apply cast_vote_check_violation.
  - intros s now new_id E st. now apply handleVote_check_violation.
Qed.

Lemma C9_witness :
  App.getIpHash (fun _ => EmptyString) None 1762135200000 = "anonymous-1762135200000"%string
  /\ votes_ip_hash_check (App.getIpHash (fun _ => EmptyString) None 1762135200000) = false
  /\ cast_vote 200 "v1"%string "t1"%string
       (App.getIpHash (fun _ => EmptyString) None 1762135200000) store0
     = (store0, Raised check_violation).
Proof.
  destruct (C9_fallback_fingerprint_is_rejected (fun _ => EmptyString) 1762135200000)
    as (H1 & _ & H3 & H4 & _).
  - unfold App.time_value. lia.
  - split; [reflexivity|]. split; [exact H3|]. apply H4.
Defined.

(** ** The submission form *)

Lemma build_submission_anonymous formData evidenceUrl :
  SubmissionForm.is_anonymous formData = true ->
  SubmissionForm.Insert.reporter_email
    (SubmissionForm.build_submission formData evidenceUrl) = None.
Proof. intros H. unfold SubmissionForm.build_submission. simpl. now rewrite H. Qed.

Lemma handleSubmit_builds formData file r :
  SubmissionForm.handleSubmit formData file = Some r ->
  exists evidenceUrl, r = SubmissionForm.build_submission formData evidenceUrl.
Proof.
  unfold SubmissionForm.handleSubmit.
  destruct (negb (SubmissionForm.validateForm formData)); [discriminate|].
  destruct file; intros H; try discriminate; injection H as <-; eexists; reflexivity.
Qed.

(** C10. With [is_anonymous] set, the record [handleSubmit] builds has a null
    [reporter_email], and two forms that differ only in the email typed build
    the same record; whenever [handleSubmit] sends a record for each of them,
    the two records are equal and carry no email. *)
Theorem C10_anonymous_submission_hides_email
    (formData : SubmissionForm.FormData) (email1 email2 : string)
    (evidenceUrl : option string) (file : SubmissionForm.upload) :
  SubmissionForm.is_anonymous formData = true ->
  SubmissionForm.Insert.reporter_email
    (SubmissionForm.build_submission formData evidenceUrl) = None
  /\ SubmissionForm.build_submission
       (SubmissionForm.set_reporter_email email1 formData) evidenceUrl
     = SubmissionForm.build_submission
         (SubmissionForm.set_reporter_email email2 formData) evidenceUrl
  /\ (forall r1 r2,
        SubmissionForm.handleSubmit
          (SubmissionForm.set_reporter_email email1 formData) file = Some r1 ->
        SubmissionForm.handleSubmit
          (SubmissionForm.set_reporter_email email2 formData) file = Some r2 ->
        r1 = r2 /\ SubmissionForm.Insert.reporter_email r1 = None).
Proof.
  intros Hanon.
  assert (Hsame : forall ev,
            SubmissionForm.build_submission
              (SubmissionForm.set_reporter_email email1 formData) ev
            = SubmissionForm.build_submission
                (SubmissionForm.set_reporter_email email2 formData) ev).
  { intros ev. unfold SubmissionForm.build_submission. simpl. now rewrite Hanon. }
  split; [now apply build_submission_anonymous|]. split; [apply Hsame|].
  intros r1 r2 H1 H2. unfold SubmissionForm.handleSubmit in H1, H2.
  destruct (negb (SubmissionForm.validateForm _)) in H1; [discriminate|].
  destruct (negb (SubmissionForm.validateForm _)) in H2; [discriminate|].
  destruct file; try discriminate; injection H1 as <-; injection H2 as <-;
    (split; [apply Hsame | now apply build_submission_anonymous]).
Qed.

Lemma C10_witness :
  SubmissionForm.build_submission
    (SubmissionForm.set_reporter_email "reporter@example.org"
       (sample_form SubmissionForm.State EmptyString true)) None
  = SubmissionForm.build_submission
      (SubmissionForm.set_reporter_email EmptyString
         (sample_form SubmissionForm.State EmptyString true)) None.
Proof.
  refine (proj1 (proj2 (C10_anonymous_submission_hides_email
                          (sample_form SubmissionForm.State EmptyString true)
                          "reporter@example.org" EmptyString None
                          SubmissionForm.NoFile _))).
  reflexivity.
Defined.

(** The typed email still passes through [validateForm]: text that is not an
    address stops an anonymous submission before any record is built. *)
Lemma anonymous_submission_validates_email :
  SubmissionForm.handleSubmit
    (sample_form SubmissionForm.State "not an address" true) SubmissionForm.NoFile = None
  /\ exists r,
       SubmissionForm.handleSubmit
         (sample_form SubmissionForm.State "reporter@example.org" true)
         SubmissionForm.NoFile = Some r
       /\ SubmissionForm.Insert.reporter_email r = None.
Proof. split; [reflexivity|]. eexists. split; reflexivity. Qed.

(** The scenario of the interface description: two votes, a repeated one, a
    revocation. *)
Lemma scenario_two_votes_one_revoked :
  Ledger.shame_count_of "t1"%string store0 = Some 0
  /\ Ledger.shame_count_of "t1"%string store1 = Some 1
  /\ cast_vote 250 "v9"%string "t1"%string (fp "a") store1 = (store1, Raised unique_violation)
  /\ Ledger.shame_count_of "t1"%string store2 = Some 2
  /\ Ledger.shame_count_of "t1"%string (fst (revoke_vote 400 "v1"%string store2)) = Some 1
  /\ votes (fst (revoke_vote 400 "v1"%string store2)) = [vote2].
Proof. repeat split. Qed.

(** * Further properties of the code *)

(** ** The triggers, row by row *)

Lemma Forall2_eq_map {A B} (g : A -> B) l l' :
  Forall2 (fun x y => y = g x) l l' -> l' = map g l.
Proof. induction 1 as [|x y l l' Hxy _ IH]; simpl; [reflexivity | now rewrite Hxy, IH]. Qed.

Lemma increment_shame_count_exact now NEW ts ts' :
  increment_shame_count now NEW ts = Some ts' ->
  ts' = map (incremented now (Vote.tyrant_id NEW)) ts.
Proof.
  intros H. apply Forall2_eq_map. revert ts' H. apply update_tyrants_rel.
  - intros t u Hw Hs. unfold incremented. rewrite Hw. unfold set_increment in Hs.
    destruct (in_int4 _); [|discriminate]. now injection Hs as <-.
  - intros t Hw. unfold incremented. now rewrite Hw.
Qed.

Lemma decrement_shame_count_exact now OLD ts ts' :
  decrement_shame_count now OLD ts = Some ts' ->
  ts' = map (decremented now (Vote.tyrant_id OLD)) ts.
Proof.
  intros H. apply Forall2_eq_map. revert ts' H. apply update_tyrants_rel.
  - intros t u Hw Hs. unfold decremented. rewrite Hw. unfold set_decrement in Hs.
    destruct (in_int4 _); [|discriminate]. now injection Hs as <-.
  - intros t Hw. unfold decremented. now rewrite Hw.
Qed.

Lemma cast_vote_done_exact now new_id E F s s' v :
  cast_vote now new_id E F s = (s', Done v) ->
  v = Vote.mk new_id E F now
  /\ s' = mkStore (map (incremented now E) (tyrants s)) (votes s ++ [v]).
Proof.
  intros H. apply cast_vote_done in H.
  destruct H as (Hv & _ & _ & _ & _ & ts' & Hinc & ->). split; [exact Hv|].
  apply increment_shame_count_exact in Hinc. subst v. simpl in Hinc. now subst ts'.
Qed.

Lemma shame_count_of_map (h : Tyrant.row -> Tyrant.row) E ts vs vs' :
  (forall t, In t ts -> Tyrant.id (h t) = Tyrant.id t
                        /\ Tyrant.shame_count (h t) = Tyrant.shame_count t) ->
  Ledger.shame_count_of E (mkStore (map h ts) vs') = Ledger.shame_count_of E (mkStore ts vs).
Proof.
  unfold Ledger.shame_count_of. simpl. induction ts as [|t ts IH]; intros H; [reflexivity|].
  simpl. destruct (H t (or_introl eq_refl)) as [Hid Hsc]. rewrite Hid.
  destruct (Tyrant.id t =? E)%string; [simpl; now rewrite Hsc|].
  apply IH. intros u Hu. apply H. now right.
Qed.

Lemma revoke_vote_live now s v :
  Ledger.invariant s -> In v (votes s) ->
  revoke_vote now (Vote.id v) s =
  (mkStore (map (decremented now (Vote.tyrant_id v)) (tyrants s))
           (filter (fun w => negb (Vote.id w =? Vote.id v)%string) (votes s)),
   Done [v]).
Proof.
  intros Hinv Hin. destruct (decrement_total_in_sync now s v Hinv Hin) as (ts' & Hdec).
  rewrite (revoke_vote_of_row now s v ts' (Ledger.inv_pkey _ Hinv) Hin Hdec).
  now rewrite (decrement_shame_count_exact _ _ _ _ Hdec).
Qed.

(** ** Casting and revoking compose *)

(** X1. A vote cast and then revoked leaves the ledger where it started: the
    same vote rows, and every entry as it was but for [updated_at]. *)
Theorem cast_then_revoke_restores (s : store) now new_id E F s' v now' :
  Ledger.reachable s ->
  cast_vote now new_id E F s = (s', Done v) ->
  exists s'',
    revoke_vote now' (Vote.id v) s' = (s'', Done [v])
    /\ votes s'' = votes s
    /\ map forget_updated_at (tyrants s'') = map forget_updated_at (tyrants s)
    /\ (forall E', Ledger.shame_count_of E' s'' = Ledger.shame_count_of E' s).
Proof.
  intros Hreach Hcv. pose proof (reachable_invariant s Hreach) as Hinv.
  pose proof (cast_vote_invariant now new_id E F s Hinv) as Hinv'.
  rewrite Hcv in Hinv'. simpl in Hinv'.
  pose proof (cast_vote_done _ _ _ _ _ _ _ Hcv) as (_ & _ & Hfresh & _).
  destruct (cast_vote_done_exact _ _ _ _ _ _ _ Hcv) as (Hv & Hs').
  assert (Hinv1 : In v (votes s')) by (rewrite Hs'; simpl; apply in_or_app; right; now left).
  rewrite (revoke_vote_live now' s' v Hinv' Hinv1). eexists. split; [reflexivity|].
  assert (Htid : Vote.tyrant_id v = E) by now subst v.
  assert (Hvid : Vote.id v = new_id) by now subst v.
  rewrite Hs', Htid, Hvid. simpl.
  assert (Hrow : forall t, In t (tyrants s) ->
            forget_updated_at (decremented now' E (incremented now E t)) = forget_updated_at t
            /\ Tyrant.id (decremented now' E (incremented now E t)) = Tyrant.id t
            /\ Tyrant.shame_count (decremented now' E (incremented now E t))
               = Tyrant.shame_count t).
  { intros t Ht. pose proof (Ledger.inv_sync _ Hinv t Ht) as Hsync.
    pose proof (count_votes_nonneg (Tyrant.id t) (votes s)) as Hpos.
    unfold incremented, decremented.
    destruct (Tyrant.id t =? E)%string eqn:Hid; [|now rewrite Hid].
    simpl. rewrite Hid. destruct t; simpl in *.
    unfold forget_updated_at, update_updated_at_column, Tyrant.with_updated_at,
      Tyrant.with_shame_count. simpl.
    replace (Z.max (shame_count + 1 - 1) 0) with shame_count by lia. auto. }
  split; [|split].
  - rewrite filter_app. simpl. rewrite Hvid, String.eqb_refl. simpl. rewrite app_nil_r.
    apply filter_all. intros w Hw. apply negb_true_iff. exact (existsb_false _ _ Hfresh w Hw).
  - rewrite !map_map. apply map_ext_in. intros t Ht. now apply Hrow.
  - intros E'. rewrite map_map.
    rewrite (shame_count_of_map _ E' (tyrants s) (votes s)).
    + now destruct s.
    + intros t Ht. destruct (Hrow t Ht) as (_ & H1 & H2). now split.
Qed.

Lemma cast_then_revoke_restores_witness :
  exists s'',
    revoke_vote 400 "v2"%string store2 = (s'', Done [vote2])
    /\ votes s'' = votes store1.
Proof.
  destruct (cast_then_revoke_restores store1 300 "v2"%string "t1"%string (fp "b")
              store2 vote2 400 store1_reachable eq_refl) as (s'' & H1 & H2 & _).
  exists s''. split; assumption.
Defined.

Lemma live_votes_none E F s :
  Ledger.live_votes E F s = [] <->
  idx_votes_tyrant_ip_unique_conflict E F (votes s) = false.
Proof.
  unfold Ledger.live_votes, idx_votes_tyrant_ip_unique_conflict. split.
  - intros Hnil. apply not_true_is_false. intros Hex. apply existsb_exists in Hex.
    destruct Hex as (v & Hin & Hp).
    assert (Hv : In v (filter (fun v => (Vote.tyrant_id v =? E)%string
                                        && (Vote.ip_hash v =? F)%string) (votes s)))
      by (apply filter_In; now split).
    rewrite Hnil in Hv. destruct Hv.
  - intros Hex. apply filter_none. exact (existsb_false _ _ Hex).
Qed.

Lemma votes_pkey_fresh new_id vs :
  votes_pkey_conflict new_id vs = false <-> forall w, In w vs -> Vote.id w <> new_id.
Proof.
  unfold votes_pkey_conflict. split.
  - intros H w Hw. apply String.eqb_neq. exact (existsb_false _ _ H w Hw).
  - intros H. apply not_true_is_false. intros Hex. apply existsb_exists in Hex.
    destruct Hex as (w & Hw & Heq). apply String.eqb_eq in Heq. now apply (H w).
Qed.

Lemma shame_count_of_rows E s c :
  Ledger.in_sync s -> Ledger.shame_count_of E s = Some c ->
  votes_tyrant_id_fkey E (tyrants s) = true
  /\ forall t, In t (tyrants s) -> Tyrant.id t = E -> Tyrant.shame_count t = c.
Proof.
  unfold Ledger.shame_count_of. intros Hsync Hc.
  destruct (find _ (tyrants s)) as [t0|] eqn:Hf; [|discriminate].
  injection Hc as <-. apply find_some in Hf. destruct Hf as [Hin0 Hid0].
  apply String.eqb_eq in Hid0. split.
  - apply existsb_exists. exists t0. split; [exact Hin0 | now apply String.eqb_eq].
  - intros t Ht Hid. rewrite (Hsync t Ht), (Hsync t0 Hin0). congruence.
Qed.

Lemma cast_vote_succeeds now new_id E F s c :
  Ledger.in_sync s ->
  String.length F = 64%nat ->
  (forall w, In w (votes s) -> Vote.id w <> new_id) ->
  Ledger.live_votes E F s = [] ->
  Ledger.shame_count_of E s = Some c -> c < int4_max ->
  exists s', cast_vote now new_id E F s = (s', Done (Vote.mk new_id E F now)).
Proof.
  intros Hsync Hlen Hfresh Hlive Hc Hmax.
  destruct (shame_count_of_rows E s c Hsync Hc) as [Hfk Hrows].
  unfold cast_vote, votes_ip_hash_check.
  rewrite Hlen, (proj2 (votes_pkey_fresh _ _) Hfresh), (proj1 (live_votes_none _ _ _) Hlive), Hfk.
  simpl.
  destruct (update_tyrants_total set_increment
              (fun t => (Tyrant.id t =? E)%string) now (tyrants s)) as (ts' & Hinc).
  { intros t Ht Hw. apply String.eqb_eq in Hw. unfold set_increment.
    rewrite (Hrows t Ht Hw).
    pose proof (Hsync t Ht) as Hs. rewrite (Hrows t Ht Hw) in Hs.
    pose proof (count_votes_nonneg (Tyrant.id t) (votes s)).
    replace (in_int4 (c + 1)) with true; [discriminate|].
    symmetry. apply in_int4_iff. unfold int4_min, int4_max in *. lia. }
  unfold increment_shame_count. simpl. rewrite Hinc. now eexists.
Qed.

Lemma cast_vote_as_owner now new_id E F s :
  cast_vote_as owner now new_id E F s = cast_vote now new_id E F s.
Proof. reflexivity. Qed.

Lemma cast_vote_as_client r now new_id E F s :
  r <> owner ->
  cast_vote_as r now new_id E F s =
  match cast_vote now new_id E F s with
  | (_, Raised numeric_value_out_of_range) | (_, Done _) =>
      (s, Raised insufficient_privilege)
  | refused => refused
  end.
Proof.
  intros Hr. unfold cast_vote_as, cast_vote.
  assert (Hi : granted r INSERT rel_votes = true) by (now destruct r).
  assert (Hu : granted r UPDATE rel_tyrants = false)
    by (destruct r; [reflexivity | reflexivity | now elim Hr]).
  rewrite Hi, Hu. simpl.
  destruct (votes_ip_hash_check F); simpl; [|reflexivity].
  destruct (votes_pkey_conflict new_id (votes s)); [reflexivity|].
  destruct (idx_votes_tyrant_ip_unique_conflict E F (votes s)); [reflexivity|].
  destruct (votes_tyrant_id_fkey E (tyrants s)); simpl; [|reflexivity].
  destruct (increment_shame_count now _ (tyrants s)); reflexivity.
Qed.

(** X2. Who can cast a vote. Issued by the owner of the tables, a vote insert
    succeeds, in a store the statements can reach, exactly when the
    fingerprint has 64 characters, the new id is not taken, no live vote
    exists for the pair yet, and the entry exists with a counter below the
    largest INTEGER. Issued by a role of the web client ([anon] or
    [authenticated]) it never succeeds: the store is left as it was, and a
    row that passes the CHECK, the unique indexes and the foreign key is
    refused with [insufficient_privilege], because the counter trigger
    updates [tyrants] with the privileges of the inserting role, which is
    granted SELECT on that table and nothing more. *)
Theorem cast_vote_by_role (s : store) now new_id E F :
  Ledger.reachable s ->
  ((exists s' v, cast_vote_as owner now new_id E F s = (s', Done v))
   <->
   String.length F = 64%nat
   /\ (forall w, In w (votes s) -> Vote.id w <> new_id)
   /\ Ledger.live_votes E F s = []
   /\ (exists c, Ledger.shame_count_of E s = Some c /\ c < int4_max))
  /\ (forall r, r <> owner ->
        (exists e, cast_vote_as r now new_id E F s = (s, Raised e))
        /\ (String.length F = 64%nat ->
            (forall w, In w (votes s) -> Vote.id w <> new_id) ->
            Ledger.live_votes E F s = [] ->
            votes_tyrant_id_fkey E (tyrants s) = true ->
            cast_vote_as r now new_id E F s = (s, Raised insufficient_privilege))).
Proof.
  intros Hreach. pose proof (reachable_invariant s Hreach) as Hinv.
  rewrite cast_vote_as_owner. split; [split|].
  - intros (s' & v & Hcv).
    pose proof (cast_vote_invariant now new_id E F s Hinv) as Hinv'.
    rewrite Hcv in Hinv'. simpl in Hinv'.
    destruct (cast_vote_counter _ _ _ _ _ _ _ Hcv) as [(c & Hc & Hc') _].
    apply cast_vote_done in Hcv.
    destruct Hcv as (_ & Hchk & Hpk & Huq & _ & ts' & _ & ->).
    split; [now apply Nat.eqb_eq|]. split; [now apply votes_pkey_fresh|].
    split; [now apply live_votes_none|]. exists c. split; [exact Hc|].
    unfold Ledger.shame_count_of in Hc'. simpl in Hc'.
    destruct (find _ ts') as [t'|] eqn:Hf; [|discriminate]. injection Hc' as Hsc.
    apply find_some in Hf. destruct Hf as [Hin' _].
    pose proof (Ledger.inv_int4 _ Hinv' t' Hin') as Hr. apply in_int4_iff in Hr.
    unfold int4_max in *. lia.
  - intros (Hlen & Hfresh & Hlive & c & Hc & Hmax).
    destruct (cast_vote_succeeds now new_id E F s c (Ledger.inv_sync _ Hinv)
                Hlen Hfresh Hlive Hc Hmax) as (s' & H).
    now exists s', (Vote.mk new_id E F now).
  - intros r Hr. rewrite (cast_vote_as_client r now new_id E F s Hr). split.
    + destruct (cast_vote now new_id E F s) as [s' [v|e]] eqn:Hcv.
      * now exists insufficient_privilege.
      * apply cast_vote_raised in Hcv. subst s'.
        destruct e; eexists; reflexivity.
    + intros Hlen Hfresh Hlive Hfk. unfold cast_vote, votes_ip_hash_check.
      rewrite Hlen, (proj2 (votes_pkey_fresh _ _) Hfresh),
        (proj1 (live_votes_none _ _ _) Hlive), Hfk. simpl.
      destruct (increment_shame_count now _ (tyrants s)); reflexivity.
Qed.

Lemma cast_vote_by_role_witness :
  (exists s' v, cast_vote_as owner 300 "v2"%string "t1"%string (fp "b") store1 = (s', Done v))
  /\ cast_vote_as anon 300 "v2"%string "t1"%string (fp "b") store1
     = (store1, Raised insufficient_privilege).
Proof.
  destruct (cast_vote_by_role store1 300 "v2"%string "t1"%string (fp "b") store1_reachable)
    as [Howner Hclient].
  assert (Hfresh : forall w, In w (votes store1) -> Vote.id w <> "v2"%string)
    by (intros w [<-|[]]; discriminate).
  split.
  - apply Howner. split; [reflexivity|]. split; [exact Hfresh|]. split; [reflexivity|].
    exists 1. split; reflexivity.
  - apply (proj2 (Hclient anon ltac:(discriminate))); try reflexivity. exact Hfresh.
Defined.

(** X3. In a store the statements can reach, a vote for an entry that does not
    exist (well-formed fingerprint, fresh id) is refused with
    [foreign_key_violation], the [NotFound] outcome, and changes nothing. *)
Theorem cast_vote_unknown_entry (s : store) now new_id E F :
  Ledger.reachable s ->
  votes_tyrant_id_fkey E (tyrants s) = false ->
  String.length F = 64%nat ->
  (forall w, In w (votes s) -> Vote.id w <> new_id) ->
  cast_vote now new_id E F s = (s, Raised foreign_key_violation)
  /\ vote_error_of foreign_key_violation = NotFound.
Proof.
  intros Hreach Hfk Hlen Hfresh. pose proof (reachable_invariant s Hreach) as Hinv.
  split; [|reflexivity]. unfold cast_vote, votes_ip_hash_check.
  rewrite Hlen, (proj2 (votes_pkey_fresh _ _) Hfresh), Hfk. simpl.
  replace (idx_votes_tyrant_ip_unique_conflict E F (votes s)) with false; [reflexivity|].
  symmetry. apply not_true_is_false. intros Hex. apply existsb_exists in Hex.
  destruct Hex as (v & Hv & Hp). apply andb_true_iff in Hp. destruct Hp as [Hp _].
  apply String.eqb_eq in Hp. pose proof (Ledger.inv_fkey _ Hinv v Hv) as Hf.
  rewrite Hp, Hfk in Hf. discriminate.
Qed.

Lemma cast_vote_unknown_entry_witness :
  cast_vote 300 "v2"%string "nobody"%string (fp "b") store1
  = (store1, Raised foreign_key_violation).
Proof.
  refine (proj1 (cast_vote_unknown_entry store1 300 "v2"%string "nobody"%string (fp "b")
                   store1_reachable _ _ _)).
  - reflexivity.
  - reflexivity.
  - intros w [<-|[]]. discriminate.
Defined.

Lemma NoDup_map_inj_in {A B} (f : A -> B) l x y :
  NoDup (map f l) -> In x l -> In y l -> f x = f y -> x = y.
Proof.
  induction l as [|z l IH]; simpl; intros Hnd Hx Hy Hf; [destruct Hx|].
  apply NoDup_cons_iff in Hnd. destruct Hnd as [Hz Hnd].
  destruct Hx as [->|Hx], Hy as [->|Hy]; auto.
  - exfalso. apply Hz. rewrite Hf. now apply in_map.
  - exfalso. apply Hz. rewrite <- Hf. now apply in_map.
Qed.

(** X4. Uniqueness binds live rows only: once a vote is revoked, the same pair
    can be cast again under a fresh id, and every counter is then what it
    was before the revocation. *)
Theorem revoke_then_cast_again (s : store) now v now' new_id :
  Ledger.reachable s ->
  In v (votes s) ->
  (forall w, In w (votes s) -> Vote.id w <> new_id) ->
  exists s1 s2 v',
    revoke_vote now (Vote.id v) s = (s1, Done [v])
    /\ cast_vote now' new_id (Vote.tyrant_id v) (Vote.ip_hash v) s1 = (s2, Done v')
    /\ Ledger.live_votes (Vote.tyrant_id v) (Vote.ip_hash v) s2 = [v']
    /\ (forall E', Ledger.shame_count_of E' s2 = Ledger.shame_count_of E' s).
Proof.
  intros Hreach Hin Hfresh. pose proof (reachable_invariant s Hreach) as Hinv.
  destruct (revoke_vote_counter now s v Hinv Hin)
    as (s1 & Hrv & Hgone & (c & Hc & Hc1) & Hothers).
  pose proof (revoke_vote_invariant now (Vote.id v) s Hinv) as Hinv1.
  rewrite Hrv in Hinv1. simpl in Hinv1.
  pose proof (revoke_vote_live now s v Hinv Hin) as Hs1. rewrite Hrv in Hs1.
  injection Hs1 as Hs1.
  assert (Hsub : forall w, In w (votes s1) -> In w (votes s) /\ Vote.id w <> Vote.id v).
  { intros w Hw. rewrite Hs1 in Hw. simpl in Hw. apply filter_In in Hw.
    destruct Hw as [Hw Hne]. apply negb_true_iff, String.eqb_neq in Hne. now split. }
  assert (Hlive : Ledger.live_votes (Vote.tyrant_id v) (Vote.ip_hash v) s1 = []).
  { apply filter_none. intros w Hw. apply not_true_is_false. intros Hk.
    apply andb_true_iff in Hk. destruct Hk as [H1 H2]. apply String.eqb_eq in H1, H2.
    destruct (Hsub w Hw) as [Hws Hne]. apply Hne. f_equal.
    apply (NoDup_map_inj_in _ _ w v (Ledger.inv_unique _ Hinv) Hws Hin). simpl. congruence. }
  assert (Hcmax : c - 1 < int4_max).
  { destruct (shame_count_of_rows _ _ _ (Ledger.inv_sync _ Hinv) Hc) as [Hfk Hrows].
    destruct (fkey_find _ _ Hfk) as (t & Hf). apply find_some in Hf.
    destruct Hf as [Ht Hid]. apply String.eqb_eq in Hid.
    pose proof (Ledger.inv_int4 _ Hinv t Ht) as Hr. apply in_int4_iff in Hr.
    rewrite (Hrows t Ht Hid) in Hr. lia. }
  assert (Hlen : String.length (Vote.ip_hash v) = 64%nat)
    by (apply Nat.eqb_eq; exact (Ledger.inv_check _ Hinv v Hin)).
  destruct (cast_vote_succeeds now' new_id (Vote.tyrant_id v) (Vote.ip_hash v) s1 (c - 1)
              (Ledger.inv_sync _ Hinv1) Hlen
              (fun w Hw => Hfresh w (proj1 (Hsub w Hw))) Hlive Hc1 Hcmax) as (s2 & Hcv).
  exists s1, s2, (Vote.mk new_id (Vote.tyrant_id v) (Vote.ip_hash v) now').
  split; [exact Hrv|]. split; [exact Hcv|]. split.
  - destruct (cast_vote_done_exact _ _ _ _ _ _ _ Hcv) as (_ & ->).
    unfold Ledger.live_votes in *. simpl. rewrite filter_app, Hlive. simpl.
    now rewrite !String.eqb_refl.
  - intros E'. destruct (cast_vote_counter _ _ _ _ _ _ _ Hcv) as [(c' & Hc' & Hc2) Hothers2].
    destruct (String.eqb_spec E' (Vote.tyrant_id v)) as [->|Hne].
    + rewrite Hc2, Hc. rewrite Hc1 in Hc'. injection Hc' as <-. f_equal. lia.
    + rewrite (Hothers2 E' Hne). now apply Hothers.
Qed.

Lemma revoke_then_cast_again_witness :
  exists s1 s2 v',
    revoke_vote 400 "v1"%string store2 = (s1, Done [vote1])
    /\ cast_vote 500 "v3"%string "t1"%string (fp "a") s1 = (s2, Done v')
    /\ Ledger.shame_count_of "t1"%string s2 = Some 2.
Proof.
  destruct (revoke_then_cast_again store2 400 vote1 500 "v3"%string store2_reachable)
    as (s1 & s2 & v' & H1 & H2 & _ & H4).
  - left. reflexivity.
  - intros w [<-|[<-|[]]]; discriminate.
  - exists s1, s2, v'. split; [exact H1|]. split; [exact H2|]. now rewrite H4.
Defined.

(** ** The soft signal and the hard constraint *)

(** X5. Whenever [has_voted] answers true (in a store whose vote rows satisfy
    the CHECK constraint), an insert of the same pair is refused as a
    duplicate at any time and under any id; and a longer window (of as many
    hours as an INTEGER holds) never answers false: it answers true when it
    starts at an instant a timestamp can hold, and the call raises when it
    does not. *)
Theorem has_voted_sound_and_monotone (s : store) now E F w :
  (forall v, In v (votes s) -> votes_ip_hash_check (Vote.ip_hash v) = true) ->
  has_voted now E F w s = Done true ->
  (forall now' new_id, cast_vote now' new_id E F s = (s, Raised unique_violation))
  /\ (forall w', in_int4 w' = true -> w <= w' ->
        has_voted now E F w' s
        = if is_valid_timestamp (now - hours w')
          then Done true else Raised datetime_field_overflow).
Proof.
  intros Hcheck Hhv. apply has_voted_true_iff in Hhv.
  destruct Hhv as (_ & v & Hin & H1 & H2 & H3). split.
  - intros now' new_id. apply cast_vote_duplicate; [exact Hcheck|]. now exists v.
  - intros w' _ Hw. destruct (is_valid_timestamp (now - hours w')) eqn:Hvalid.
    + apply has_voted_true_iff. split; [exact Hvalid|]. exists v.
      repeat (split; [assumption|]). unfold hours in *. lia.
    + unfold has_voted. now rewrite Hvalid.
Qed.

Lemma has_voted_sound_and_monotone_witness :
  cast_vote 900 "v7"%string "t1"%string (fp "a") store_recent
  = (store_recent, Raised unique_violation)
  /\ has_voted now_recent "t1"%string (fp "a") 48 store_recent = Done true
  /\ has_voted now_recent "t1"%string (fp "a") 2147483647 store_recent
     = Raised datetime_field_overflow.
Proof.
  destruct (has_voted_sound_and_monotone store_recent now_recent "t1"%string (fp "a") 24)
    as [H1 H2].
  - intros v [<-|[]]. reflexivity.
  - vm_compute. reflexivity.
  - split; [apply H1|].
    split; [exact (H2 48 eq_refl ltac:(lia)) | exact (H2 2147483647 eq_refl ltac:(lia))].
Defined.

(** ** Entries: deletion, publication, and what a vote touches *)

Lemma find_filter_other E E0 ts :
  E <> E0 ->
  find (fun t => (Tyrant.id t =? E)%string)
       (filter (fun t => negb (Tyrant.id t =? E0)%string) ts)
  = find (fun t => (Tyrant.id t =? E)%string) ts.
Proof.
  intros Hne. induction ts as [|t ts IH]; [reflexivity|]. simpl.
  destruct (Tyrant.id t =? E0)%string eqn:H0; simpl.
  - apply String.eqb_eq in H0.
    replace (Tyrant.id t =? E)%string with false; [exact IH|].
    symmetry. apply String.eqb_neq. congruence.
  - now rewrite IH.
Qed.

(** X8. Deleting an entry takes its votes with it and nothing else: the entry's
    rows and exactly the votes that reference it disappear, every other
    entry keeps its counter and its votes, and no vote is left without an
    entry on the deleted id. Deleting an id that is not there changes
    nothing. *)
Theorem delete_tyrant_cascades (s : store) now E :
  (votes_tyrant_id_fkey E (tyrants s) = false -> delete_tyrant now E s = (s, Done []))
  /\ (votes_tyrant_id_fkey E (tyrants s) = true ->
      exists s' deleted,
        delete_tyrant now E s = (s', Done deleted)
        /\ (forall t, In t deleted <-> In t (tyrants s) /\ Tyrant.id t = E)
        /\ (forall t, In t (tyrants s') <-> In t (tyrants s) /\ Tyrant.id t <> E)
        /\ (forall v, In v (votes s') <-> In v (votes s) /\ Vote.tyrant_id v <> E)
        /\ Ledger.shame_count_of E s' = None
        /\ (forall E', E' <> E ->
              Ledger.shame_count_of E' s' = Ledger.shame_count_of E' s
              /\ Ledger.count_votes E' (votes s') = Ledger.count_votes E' (votes s))).
Proof.
  split; intros Hfk.
  - unfold delete_tyrant. rewrite filter_none; [reflexivity|].
    exact (existsb_false _ _ Hfk).
  - unfold delete_tyrant.
    destruct (filter (fun t => (Tyrant.id t =? E)%string) (tyrants s)) as [|t0 l] eqn:Hdel.
    { apply existsb_exists in Hfk. destruct Hfk as (t & Ht & Hid).
      assert (Hin : In t (filter (fun t => (Tyrant.id t =? E)%string) (tyrants s)))
        by (apply filter_In; now split).
      rewrite Hdel in Hin. destruct Hin. }
    rewrite (on_vote_delete_no_entry now E).
    2:{ intros v Hv. apply filter_In in Hv. now apply String.eqb_eq. }
    2:{ intros u Hu. apply filter_In in Hu. destruct Hu as [_ Hu].
        now apply negb_true_iff, String.eqb_neq in Hu. }
    eexists. eexists. split; [reflexivity|]. rewrite <- Hdel. cbn [tyrants votes].
    split; [|split; [|split; [|split]]].
    + intros t. rewrite filter_In, String.eqb_eq. tauto.
    + intros t. rewrite filter_In, negb_true_iff, String.eqb_neq. tauto.
    + intros v. rewrite filter_In, negb_true_iff, String.eqb_neq. tauto.
    + unfold Ledger.shame_count_of. simpl.
      destruct (find _ (filter _ (tyrants s))) as [t|] eqn:Hf; [|reflexivity].
      apply find_some in Hf. destruct Hf as [Hin Hid]. apply filter_In in Hin.
      destruct Hin as [_ Hne]. rewrite Hid in Hne. discriminate.
    + intros E' Hne. split.
      * unfold Ledger.shame_count_of. simpl. now rewrite find_filter_other.
      * rewrite (count_votes_split (fun v => negb (Vote.tyrant_id v =? E)%string)
                   E' (votes s)).
        rewrite (count_votes_none E' (filter (fun v => negb (negb _)) (votes s))); [lia|].
        intros v Hv. apply filter_In in Hv. destruct Hv as [_ Hv].
        rewrite negb_involutive in Hv. apply String.eqb_eq in Hv. congruence.
Qed.

Lemma set_increment_same (f : Tyrant.row -> Tyrant.row) t :
  Tyrant.shame_count (f t) = Tyrant.shame_count t ->
  (set_increment (f t) = None <-> set_increment t = None).
Proof.
  intros Hsc. unfold set_increment. rewrite Hsc.
  destruct (in_int4 _); split; intros H; congruence.
Qed.

Lemma increment_raises_alike (f : Tyrant.row -> Tyrant.row) now NEW ts :
  (forall t, Tyrant.id (f t) = Tyrant.id t
             /\ Tyrant.shame_count (f t) = Tyrant.shame_count t) ->
  (increment_shame_count now NEW (map f ts) = None
   <-> increment_shame_count now NEW ts = None).
Proof.
  intros Hf. unfold increment_shame_count. induction ts as [|t ts IH]; simpl; [tauto|].
  destruct (Hf t) as [Hid Hsc]. rewrite Hid.
  destruct (Tyrant.id t =? Vote.tyrant_id NEW)%string.
  - pose proof (set_increment_same f t Hsc) as Hs.
    destruct (set_increment (f t)), (set_increment t);
      destruct (update_tyrants _ _ _ (map f ts)), (update_tyrants _ _ _ ts);
      intuition congruence.
  - destruct (update_tyrants _ _ _ (map f ts)), (update_tyrants _ _ _ ts);
      intuition congruence.
Qed.

(** X9. The vote insert has no publication gate: whether the entry is published
    or hidden, the insert has the same outcome, recording the same row or
    raising the same error. *)
Theorem cast_vote_ignores_publication (s : store) now0 E0 flag now new_id E F :
  snd (cast_vote now new_id E F (publish_tyrant now0 E0 flag s))
  = snd (cast_vote now new_id E F s).
Proof.
  set (f := fun t => if (Tyrant.id t =? E0)%string
                     then update_updated_at_column now0 (Tyrant.with_is_published flag t)
                     else t).
  assert (Hf : forall t, Tyrant.id (f t) = Tyrant.id t
                         /\ Tyrant.shame_count (f t) = Tyrant.shame_count t).
  { intros t. unfold f. now destruct (Tyrant.id t =? E0)%string. }
  unfold cast_vote, publish_tyrant. simpl. fold f.
  destruct (negb (votes_ip_hash_check F)); [reflexivity|].
  destruct (votes_pkey_conflict new_id (votes s)); [reflexivity|].
  destruct (idx_votes_tyrant_ip_unique_conflict E F (votes s)); [reflexivity|].
  assert (Hfk : votes_tyrant_id_fkey E (map f (tyrants s)) = votes_tyrant_id_fkey E (tyrants s)).
  { apply fkey_Forall2. induction (tyrants s) as [|t ts IH]; simpl;
      [constructor | constructor; [apply Hf | exact IH]]. }
  rewrite Hfk. destruct (negb (votes_tyrant_id_fkey E (tyrants s))); [reflexivity|].
  pose proof (increment_raises_alike f now (Vote.mk new_id E F now) (tyrants s) Hf) as Hinc.
  destruct (increment_shame_count _ _ (map f (tyrants s))),
           (increment_shame_count _ _ (tyrants s)); simpl; try reflexivity.
  - destruct Hinc as [_ Hinc]. specialize (Hinc eq_refl). discriminate.
  - destruct Hinc as [Hinc _]. specialize (Hinc eq_refl). discriminate.
Qed.

(** X10. A recorded vote changes, in the entries, only counters and update
    times: the entry voted for gets its counter raised by one and its
    [updated_at] set to the time of the statement, every other column of it
    is kept, and every other entry is untouched. *)
Theorem cast_vote_touches_counter_and_updated_at (s : store) now new_id E F s' v :
  cast_vote now new_id E F s = (s', Done v) ->
  Forall2 (fun t t' =>
             (Tyrant.id t <> E -> t' = t)
             /\ (Tyrant.id t = E ->
                 Tyrant.updated_at t' = now
                 /\ Tyrant.shame_count t' = Tyrant.shame_count t + 1
                 /\ Tyrant.with_shame_count 0 (forget_updated_at t')
                    = Tyrant.with_shame_count 0 (forget_updated_at t)))
          (tyrants s) (tyrants s').
Proof.
  intros Hcv. destruct (cast_vote_done_exact _ _ _ _ _ _ _ Hcv) as (_ & ->). simpl.
  clear Hcv. induction (tyrants s) as [|t ts IH]; simpl; [constructor|].
  constructor; [|exact IH].
  unfold incremented. destruct (Tyrant.id t =? E)%string eqn:Hid.
  - apply String.eqb_eq in Hid. split; [congruence|]. intros _. now destruct t.
  - apply String.eqb_neq in Hid. split; [reflexivity | congruence].
Qed.

Lemma cast_vote_touches_counter_and_updated_at_witness :
  Forall2 (fun t t' => Tyrant.id t = "t1"%string -> Tyrant.updated_at t' = 300)
          (tyrants store1) (tyrants store2).
Proof.
  eapply Forall2_impl;
    [|exact (cast_vote_touches_counter_and_updated_at store1 300 "v2"%string "t1"%string
               (fp "b") store2 vote2 eq_refl)].
  simpl. intros t t' [_ H] Hid. now apply H.
Defined.

(** ** The fingerprint of a successful lookup *)

Lemma encode_byte_shape (b : Byte.byte) :
  exists hi lo,
    Shell.padStart 2 "0"%char (Shell.to_string_16 b) = String hi (String lo EmptyString)
    /\ is_hex_digit hi = true /\ is_hex_digit lo = true
    /\ (exists h l, Shell.hex_value hi = Some h /\ Shell.hex_value lo = Some l
                    /\ Byte.of_nat (16 * h + l) = Some b).
Proof.
  destruct b; eexists; eexists; (split; [vm_compute; reflexivity|]);
    (split; [reflexivity|]); (split; [reflexivity|]);
    eexists; eexists; (split; [vm_compute; reflexivity|]);
    (split; [vm_compute; reflexivity|]); reflexivity.
Qed.

Lemma concat_empty_cons (x : string) (l : list string) :
  String.concat EmptyString (x :: l) = (x ++ String.concat EmptyString l)%string.
Proof.
  destruct l as [|y l]; simpl; [|reflexivity].
  induction x as [|c x IH]; simpl; [reflexivity | now rewrite <- IH].
Qed.

Lemma hex_of_bytes_cons b bs :
  Shell.hex_of_bytes (b :: bs)
  = (Shell.padStart 2 "0"%char (Shell.to_string_16 b) ++ Shell.hex_of_bytes bs)%string.
Proof. unfold Shell.hex_of_bytes. simpl map. apply concat_empty_cons. Qed.

Lemma hex_of_bytes_shape bs :
  String.length (Shell.hex_of_bytes bs) = (2 * List.length bs)%nat
  /\ forallb is_hex_digit (list_ascii_of_string (Shell.hex_of_bytes bs)) = true
  /\ Shell.bytes_of_hex (Shell.hex_of_bytes bs) = Some bs.
Proof.
  induction bs as [|b bs (IH1 & IH2 & IH3)]; [repeat split|].
  rewrite hex_of_bytes_cons.
  destruct (encode_byte_shape b) as (hi & lo & -> & Hhi & Hlo & h & l & Hh & Hl & Hb).
  simpl. rewrite IH1, IH2, IH3, Hhi, Hlo, Hh, Hl.
  change (Byte.of_nat (h + (h + (h + (h + (h + (h + (h + (h + (h + (h + (h + (h + (h +
            (h + (h + (h + 0))))))))))))))) + l))
    with (Byte.of_nat (16 * h + l)).
  rewrite Hb. repeat split. lia.
Qed.

(** X11. When the address lookup succeeds and the digest has its 32 bytes, the
    fingerprint [getIpHash] returns is 64 lower-case hexadecimal characters:
    it meets the format of the interface description and passes
    [votes_ip_hash_check], so a vote cast with it is never refused for its
    fingerprint. *)
Theorem getIpHash_digest_is_well_formed (sha256 : string -> list Byte.byte)
    (ip : string) (date_now : Z) :
  List.length (sha256 (ip ++ "-tyrantcam-vote")%string) = 32%nat ->
  let ipHash := Shell.getIpHash sha256 (Some ip) date_now in
  String.length ipHash = 64%nat
  /\ spec_fingerprint_well_formed ipHash = true
  /\ votes_ip_hash_check ipHash = true
  /\ (forall s now new_id E,
        snd (cast_vote now new_id E ipHash s) <> Raised check_violation).
Proof.
  intros Hlen ipHash. subst ipHash. unfold Shell.getIpHash, App.getIpHash.
  destruct (hex_of_bytes_shape (sha256 (ip ++ "-tyrantcam-vote")%string)) as (H1 & H2 & _).
  rewrite Hlen in H1. simpl in H1.
  assert (Hchk : votes_ip_hash_check
                   (Shell.hex_of_bytes (sha256 (ip ++ "-tyrantcam-vote")%string)) = true)
    by (unfold votes_ip_hash_check; now rewrite H1).
  split; [exact H1|]. split; [unfold spec_fingerprint_well_formed; now rewrite H1, H2|].
  split; [exact Hchk|]. intros s now new_id E. unfold cast_vote. rewrite Hchk. simpl.
  destruct (votes_pkey_conflict _ _); [discriminate|].
  destruct (idx_votes_tyrant_ip_unique_conflict _ _ _); [discriminate|].
  destruct (negb _); [discriminate|].
  destruct (increment_shame_count _ _ _); discriminate.
Qed.

Lemma getIpHash_digest_is_well_formed_witness :
  String.length (Shell.getIpHash (fun _ => repeat Byte.xab 32) (Some "203.0.113.7"%string) 0)
  = 64%nat.
Proof.
  refine (proj1 (getIpHash_digest_is_well_formed (fun _ => repeat Byte.xab 32)
                   "203.0.113.7"%string 0 _)).
  reflexivity.
Defined.

(** X12. The hexadecimal encoding of the digest loses nothing: it can be read
    back byte for byte, so two different digests never give the same
    fingerprint. *)
Theorem hex_of_bytes_round_trip (bs bs' : list Byte.byte) :
  Shell.bytes_of_hex (Shell.hex_of_bytes bs) = Some bs
  /\ (Shell.hex_of_bytes bs = Shell.hex_of_bytes bs' -> bs = bs').
Proof.
  split; [apply hex_of_bytes_shape|]. intros Heq.
  pose proof (proj2 (proj2 (hex_of_bytes_shape bs))) as H1.
  pose proof (proj2 (proj2 (hex_of_bytes_shape bs'))) as H2.
  rewrite Heq in H1. congruence.
Qed.

(** ** The set of entries already voted for *)

Lemma set_has_In x l : Shell.set_has x l = true <-> In x l.
Proof.
  unfold Shell.set_has. rewrite existsb_exists. split.
  - intros (y & Hy & Heq). apply String.eqb_eq in Heq. now subst.
  - intros H. exists x. split; [exact H | apply String.eqb_refl].
Qed.

Lemma set_add_In x y l : In y (App.set_add x l) <-> In y l \/ y = x.
Proof.
  unfold App.set_add. fold (Shell.set_has x l). destruct (Shell.set_has x l) eqn:Hex.
  - apply (set_has_In x l) in Hex. split; [now left|]. intros [H| ->]; assumption.
  - rewrite in_app_iff. simpl. intuition congruence.
Qed.

Lemma set_add_NoDup x l : NoDup l -> NoDup (App.set_add x l).
Proof.
  intros Hnd. unfold App.set_add. fold (Shell.set_has x l).
  destruct (Shell.set_has x l) eqn:Hex; [exact Hnd|].
  apply NoDup_app; [exact Hnd | repeat constructor; intros [] |].
  intros y Hy [<-|[]].
  assert (Hh : Shell.set_has x l = true) by now apply set_has_In.
  congruence.
Qed.

Lemma set_of_list_acc l : forall acc,
  (forall y, In y (fold_left (fun a x => App.set_add x a) l acc) <-> In y acc \/ In y l)
  /\ (NoDup acc -> NoDup (fold_left (fun a x => App.set_add x a) l acc)).
Proof.
  induction l as [|x l IH]; intros acc; simpl.
  - split; [intros y; tauto | auto].
  - destruct (IH (App.set_add x acc)) as [H1 H2]. split.
    + intros y. rewrite H1, set_add_In. intuition congruence.
    + intros Hnd. now apply H2, set_add_NoDup.
Qed.

(** X13. What a fresh page load shows as already voted is exactly what the
    unique index would refuse: an entry is in the set [checkVotedTyrants]
    builds for a fingerprint precisely when a live vote of that entry and
    fingerprint is indexed; the set holds no entry twice. *)
Theorem checkVotedTyrants_matches_unique_index (ipHash : string) (db : store) (E : uuid) :
  Shell.set_has E (Shell.checkVotedTyrants ipHash db)
  = idx_votes_tyrant_ip_unique_conflict E ipHash (votes db)
  /\ NoDup (Shell.checkVotedTyrants ipHash db).
Proof.
  unfold Shell.checkVotedTyrants, Shell.set_of_list.
  destruct (set_of_list_acc
              (map Vote.tyrant_id
                 (filter (fun v => (Vote.ip_hash v =? ipHash)%string) (votes db))) [])
    as [Hin Hnd].
  split; [|apply Hnd; constructor].
  apply eq_true_iff_eq. rewrite set_has_In, Hin.
  unfold idx_votes_tyrant_ip_unique_conflict. rewrite existsb_exists, in_map_iff. split.
  - intros [[]|(v & Hid & Hv)]. apply filter_In in Hv. destruct Hv as [Hv Hh].
    exists v. split; [exact Hv|]. rewrite Hh, Hid, String.eqb_refl. reflexivity.
  - intros (v & Hv & Hp). apply andb_true_iff in Hp. destruct Hp as [H1 H2].
    right. exists v. split; [now apply String.eqb_eq|]. apply filter_In. now split.
Qed.

(** X14. When the address lookup fails, the page shows no entry as already
    voted: no stored vote can carry the fallback fingerprint. *)
Theorem checkVotedTyrants_fallback_is_empty (sha256_hex : string -> string)
    (date_now : Z) (db : store) :
  App.time_value date_now ->
  (forall v, In v (votes db) -> votes_ip_hash_check (Vote.ip_hash v) = true) ->
  Shell.checkVotedTyrants (App.getIpHash sha256_hex None date_now) db = [].
Proof.
  intros Ht Hcheck. unfold Shell.checkVotedTyrants. rewrite filter_none; [reflexivity|].
  intros v Hv. apply String.eqb_neq. intros Heq.
  specialize (Hcheck v Hv). rewrite Heq in Hcheck. unfold votes_ip_hash_check in Hcheck.
  apply Nat.eqb_eq in Hcheck. unfold App.getIpHash, App.getIpHash_fallback in Hcheck.
  rewrite string_length_append in Hcheck.
  pose proof (js_number_to_string_length _ Ht). simpl in Hcheck. lia.
Qed.

Lemma checkVotedTyrants_fallback_is_empty_witness :
  Shell.checkVotedTyrants (App.getIpHash (fun _ => EmptyString) None 1762135200000) store2
  = [].
Proof.
  apply checkVotedTyrants_fallback_is_empty.
  - unfold App.time_value. lia.
  - intros v [<-|[<-|[]]]; reflexivity.
Defined.

(** X15. [handleVote] only ever adds to the voted set: every id in it stays; the
    entry voted for is in it afterwards exactly when it was there before,
    or the vote was recorded, or it was refused as a duplicate; a set
    without repetition stays so; and when the call throws, the entries the
    shell shows are left as they were. *)
Theorem handleVote_voted_set now new_id ipHash tyrantId (db : store) (st : App.app_state) :
  let '(db', st', err) := App.handleVote now new_id ipHash tyrantId db st in
  (forall x, In x (App.votedTyrants st) -> In x (App.votedTyrants st'))
  /\ (In tyrantId (App.votedTyrants st') <->
        In tyrantId (App.votedTyrants st) \/ err = None \/ err = Some unique_violation)
  /\ (forall x, x <> tyrantId -> In x (App.votedTyrants st') -> In x (App.votedTyrants st))
  /\ (NoDup (App.votedTyrants st) -> NoDup (App.votedTyrants st'))
  /\ (err <> None -> App.tyrants st' = App.tyrants st /\ db' = db).
Proof.
  unfold App.handleVote. destruct (cast_vote now new_id tyrantId ipHash db) as [db' [v|e]] eqn:Hcv.
  - simpl. split; [intros x Hx; apply set_add_In; now left|].
    split; [rewrite set_add_In; intuition congruence|].
    split; [intros x Hne Hx; apply set_add_In in Hx; intuition congruence|].
    split; [apply set_add_NoDup | congruence].
  - apply cast_vote_raised in Hcv. subst db'.
    destruct e; simpl;
      try (split; [auto|]; split; [intuition congruence|]; split; [auto|];
           split; [auto | auto]).
    split; [intros x Hx; apply set_add_In; now left|].
    split; [rewrite set_add_In; intuition congruence|].
    split; [intros x Hne Hx; apply set_add_In in Hx; intuition congruence|].
    split; [apply set_add_NoDup | auto].
Qed.

(** ** What the cards show *)




(** X17. A card's own counter moves exactly when the ledger does: whatever
    happens on a click, the change of [localCount] equals the change in the
    number of live votes of the entry. A click on a card already voted, or
    still voting, does nothing at all; any other click leaves the card no
    longer voting. *)
Theorem card_count_follows_ledger now new_id ipHash (tyrant : Tyrant.row)
    (db : store) (st : App.app_state) (c : Shell.card) :
  let '(db', st', c', err) := Shell.card_handleVote now new_id ipHash tyrant db st c in
  Shell.localCount c' - Shell.localCount c
  = Ledger.count_votes (Tyrant.id tyrant) (votes db')
    - Ledger.count_votes (Tyrant.id tyrant) (votes db)
  /\ (In (Tyrant.id tyrant) (App.votedTyrants st) \/ Shell.isVoting c = true ->
      db' = db /\ st' = st /\ c' = c /\ err = None)
  /\ (~ In (Tyrant.id tyrant) (App.votedTyrants st) -> Shell.isVoting c = false ->
      Shell.isVoting c' = false
      /\ (err = None <-> exists v, votes db' = votes db ++ [v])).
Proof.
  unfold Shell.card_handleVote.
  destruct (Shell.set_has (Tyrant.id tyrant) (App.votedTyrants st)) eqn:Hhas.
  { simpl. split; [lia|]. split; [auto|]. intros Hn. apply set_has_In in Hhas. tauto. }
  assert (Hnot : ~ In (Tyrant.id tyrant) (App.votedTyrants st)).
  { intros Hin. apply set_has_In in Hin. congruence. }
  destruct (Shell.isVoting c) eqn:Hv.
  { simpl. split; [lia|]. split; [auto|]. intros _ Hf. discriminate. }
  simpl. unfold App.handleVote.
  destruct (cast_vote now new_id (Tyrant.id tyrant) ipHash db) as [db' [v|e]] eqn:Hcv.
  - apply cast_vote_done_exact in Hcv. destruct Hcv as (Hvv & ->). simpl.
    split; [rewrite count_votes_app; subst v; simpl; rewrite String.eqb_refl; lia|].
    split; [intros [H|H]; [tauto | discriminate]|].
    intros _ _. split; [reflexivity|]. split; [now exists v | reflexivity].
  - apply cast_vote_raised in Hcv. subst db'. simpl.
    split; [lia|]. split; [intros [H|H]; [tauto | discriminate]|].
    intros _ _. split; [reflexivity|]. split; [discriminate|].
    intros (v & Hv'). exfalso.
    assert (Hl : List.length (votes db) = List.length (votes db ++ [v])) by now rewrite <- Hv'.
    rewrite length_app in Hl. simpl in Hl. lia.
Qed.

(** ** The shell's listing *)

Lemma filter_filter_and {A} (f g : A -> bool) l :
  filter f (filter g l) = filter (fun x => g x && f x) l.
Proof.
  induction l as [|x l IH]; [reflexivity|]. simpl.
  destruct (g x); simpl; [destruct (f x)|]; now rewrite IH.
Qed.

Lemma Permutation_filter_same {A} (f : A -> bool) l l' :
  Permutation l l' -> Permutation (filter f l) (filter f l').
Proof.
  induction 1 as [|x l l' _ IH|x y l|l l' l'' _ IH1 _ IH2]; simpl.
  - constructor.
  - destruct (f x); [now constructor | exact IH].
  - destruct (f x), (f y); try reflexivity. apply perm_swap.
  - now transitivity (filter f l').
Qed.

Lemma StronglySorted_filter {A} (R : A -> A -> Prop) (f : A -> bool) l :
  StronglySorted R l -> StronglySorted R (filter f l).
Proof.
  induction 1 as [|x l _ IH Hx]; simpl; [constructor|].
  destruct (f x); [|exact IH]. constructor; [exact IH|].
  rewrite Forall_forall in *. intros y Hy. apply Hx. apply filter_In in Hy. tauto.
Qed.

Lemma shell_listing_perm s categoryFilter :
  Permutation (Shell.filteredTyrants categoryFilter (App.fetchTyrants s))
              (filter (published_where categoryFilter) (tyrants s)).
Proof.
  unfold Shell.filteredTyrants, App.fetchTyrants. destruct categoryFilter as [c|].
  - rewrite (Permutation_filter_same _ _ _ (order_by_perm _ _)).
    rewrite filter_filter_and. reflexivity.
  - rewrite order_by_perm. unfold published_where.
    erewrite filter_ext; [reflexivity|]. intros t. simpl. now rewrite andb_true_r.
Qed.

(** X18. The entries the shell lists under a category filter are exactly the
    published entries of that category (every published entry when the
    filter is "all"), and they come by counter descending. *)
Theorem shell_listing_matches_store (s : store) (categoryFilter : option tyrant_category) :
  let shown := Shell.filteredTyrants categoryFilter (App.fetchTyrants s) in
  (forall t, In t shown <->
     In t (tyrants s) /\ Tyrant.is_published t = true
     /\ forall c, categoryFilter = Some c -> Tyrant.category t = c)
  /\ StronglySorted (fun a b => Tyrant.shame_count b <= Tyrant.shame_count a) shown.
Proof.
  intros shown. pose proof (shell_listing_perm s categoryFilter) as Hperm. fold shown in Hperm.
  split.
  - intros t. rewrite <- published_where_spec, <- filter_In. split.
    + apply Permutation_in. exact Hperm.
    + apply Permutation_in. symmetry. exact Hperm.
  - subst shown. unfold Shell.filteredTyrants. destruct categoryFilter as [c|].
    + apply StronglySorted_filter, fetchTyrants_sorted.
    + apply fetchTyrants_sorted.
Qed.

(** ** Trimming and the address pattern *)

Lemma list_ascii_of_string_append a b :
  list_ascii_of_string (a ++ b)%string = list_ascii_of_string a ++ list_ascii_of_string b.
Proof. induction a as [|c a IH]; simpl; [reflexivity | now rewrite IH]. Qed.

Lemma string_append_empty_r s : (s ++ EmptyString)%string = s.
Proof. induction s as [|c s IH]; simpl; [reflexivity | now rewrite IH]. Qed.

Lemma string_append_assoc a b c : ((a ++ b) ++ c)%string = (a ++ (b ++ c))%string.
Proof. induction a as [|x a IH]; simpl; [reflexivity | now rewrite IH]. Qed.

Lemma is_empty_length s : SubmissionForm.is_empty s = true <-> String.length s = 0%nat.
Proof. destruct s; simpl; split; intros H; congruence. Qed.

Lemma is_empty_eq s : SubmissionForm.is_empty s = true <-> s = EmptyString.
Proof. destruct s; simpl; split; intros H; congruence. Qed.

Lemma trim_start_spec s :
  exists l, s = (l ++ SubmissionForm.trim_start s)%string /\ all_space l
            /\ (forall c t, SubmissionForm.trim_start s = String c t ->
                            SubmissionForm.is_space c = false).
Proof.
  induction s as [|c s (l & Hs & Hl & Hfirst)].
  - exists EmptyString. repeat split. discriminate.
  - simpl. destruct (SubmissionForm.is_space c) eqn:Hc.
    + exists (String c l). split; [simpl; now rewrite <- Hs|].
      split; [unfold all_space; simpl; now rewrite Hc | exact Hfirst].
    + exists EmptyString. split; [reflexivity|]. split; [reflexivity|].
      intros c' t H. now injection H as <- _.
Qed.

Lemma trim_end_spec s :
  exists r, s = (SubmissionForm.trim_end s ++ r)%string /\ all_space r
            /\ (forall t c, SubmissionForm.trim_end s = (t ++ String c EmptyString)%string ->
                            SubmissionForm.is_space c = false).
Proof.
  induction s as [|c s (r & Hs & Hr & Hlast)].
  - exists EmptyString. repeat split. intros [|] c H; discriminate.
  - simpl. destruct (SubmissionForm.trim_end s) as [|d t'] eqn:Ht.
    + destruct (SubmissionForm.is_space c) eqn:Hc.
      * exists (String c r). split; [simpl in Hs; now rewrite <- Hs|].
        split; [unfold all_space; simpl; now rewrite Hc|].
        intros [|] c' H; discriminate.
      * exists r. split; [simpl in *; now rewrite <- Hs|]. split; [exact Hr|].
        intros [|x t] c' H; simpl in H.
        -- now injection H as <-.
        -- injection H as _ H. destruct t; discriminate.
    + exists r. split; [simpl in *; now rewrite <- Hs|]. split; [exact Hr|].
      intros [|x t] c' H; simpl in H; [discriminate|].
      injection H as _ H. now apply (Hlast t c').
Qed.

Lemma trim_end_first s c t :
  SubmissionForm.trim_end s = String c t -> exists t', s = String c t'.
Proof.
  destruct s as [|d s]; simpl; [discriminate|].
  destruct (SubmissionForm.trim_end s); [destruct (SubmissionForm.is_space d)|];
    intros H; try discriminate; injection H as <- _; now eexists.
Qed.

Lemma trim_no_space s :
  forallb (fun c => negb (SubmissionForm.is_space c)) (list_ascii_of_string s) = true ->
  SubmissionForm.trim s = s.
Proof.
  intros H. unfold SubmissionForm.trim.
  assert (Hstart : SubmissionForm.trim_start s = s).
  { destruct s as [|c s]; [reflexivity|]. simpl in *.
    apply andb_true_iff in H. destruct H as [Hc _].
    apply negb_true_iff in Hc. now rewrite Hc. }
  rewrite Hstart. clear Hstart. induction s as [|c s IH]; [reflexivity|].
  simpl in *. apply andb_true_iff in H. destruct H as [Hc Hs].
  apply negb_true_iff in Hc. rewrite (IH Hs). destruct s; [now rewrite Hc | reflexivity].
Qed.

Lemma trim_surrounded s :
  exists l r, s = (l ++ SubmissionForm.trim s ++ r)%string /\ all_space l /\ all_space r
    /\ (forall c t, SubmissionForm.trim s = String c t -> SubmissionForm.is_space c = false)
    /\ (forall t c, SubmissionForm.trim s = (t ++ String c EmptyString)%string ->
                    SubmissionForm.is_space c = false).
Proof.
  unfold SubmissionForm.trim.
  destruct (trim_start_spec s) as (l & Hs & Hl & Hfirst).
  destruct (trim_end_spec (SubmissionForm.trim_start s)) as (r & Hs' & Hr & Hlast).
  exists l, r. split; [now rewrite <- Hs'|]. split; [exact Hl|]. split; [exact Hr|].
  split; [|exact Hlast].
  intros c t H. destruct (trim_end_first _ _ _ H) as (t' & Ht'). now apply (Hfirst c t').
Qed.

Lemma trim_length_le s : (String.length (SubmissionForm.trim s) <= String.length s)%nat.
Proof.
  destruct (trim_surrounded s) as (l & r & Hs & _).
  rewrite Hs at 2. rewrite !string_length_append. lia.
Qed.

Lemma local_char_spec c :
  SubmissionForm.local_char c = true <->
  SubmissionForm.is_space c = false /\ c <> "@"%char.
Proof.
  unfold SubmissionForm.local_char.
  rewrite andb_true_iff, !negb_true_iff, Ascii.eqb_neq. tauto.
Qed.

Lemma domain_tail_spec s :
  SubmissionForm.domain_tail s = true <->
  exists b c, s = (b ++ String "."%char c)%string /\ all_local b /\ all_local c
              /\ c <> EmptyString.
Proof.
  induction s as [|x s IH]; simpl.
  - split; [discriminate|]. intros ([|y b] & c & H & _); discriminate.
  - rewrite andb_true_iff, orb_true_iff, !andb_true_iff, IH, Ascii.eqb_eq, negb_true_iff.
    split.
    + intros [Hx [[[-> Hne] Hall]|(b & c & -> & Hb & Hc & Hcne)]].
      * exists EmptyString, s. repeat split; [exact Hall|].
        intros ->. discriminate.
      * exists (String x b), c. split; [reflexivity|].
        split; [unfold all_local; simpl; now rewrite Hx|]. now split.
    + intros ([|y b] & c & H & Hb & Hc & Hcne); simpl in H; injection H as -> ->.
      * split; [reflexivity|]. left. split; [split; [reflexivity|]|exact Hc].
        destruct c; [congruence | reflexivity].
      * unfold all_local in Hb. simpl in Hb. apply andb_true_iff in Hb.
        destruct Hb as [Hy Hb]. split; [exact Hy|]. right. now exists b, c.
Qed.

Lemma after_local_spec s :
  SubmissionForm.after_local s = true <->
  exists a b c, s = (a ++ String "@"%char (b ++ String "."%char c))%string
                /\ all_local a /\ all_local b /\ all_local c
                /\ b <> EmptyString /\ c <> EmptyString.
Proof.
  induction s as [|x s IH]; simpl.
  - split; [discriminate|]. intros ([|y a] & b & c & H & _); discriminate.
  - destruct (Ascii.eqb_spec x "@"%char) as [->|Hx].
    + split.
      * destruct s as [|d s']; [discriminate|]. rewrite andb_true_iff, domain_tail_spec.
        intros [Hd (b & c & -> & Hb & Hc & Hcne)].
        exists EmptyString, (String d b), c. split; [reflexivity|]. split; [reflexivity|].
        split; [unfold all_local; simpl; now rewrite Hd|]. repeat split; auto. discriminate.
      * intros ([|y a] & b & c & H & Ha & Hb & Hc & Hbne & Hcne); simpl in H.
        -- injection H as ->. destruct b as [|d b]; [congruence|]. simpl.
           unfold all_local in Hb. simpl in Hb. apply andb_true_iff in Hb.
           destruct Hb as [Hd Hb]. rewrite Hd. simpl. apply domain_tail_spec.
           now exists b, c.
        -- injection H as <- _. unfold all_local in Ha. simpl in Ha. discriminate.
    + rewrite andb_true_iff, IH. split.
      * intros [Hl (a & b & c & -> & Ha & Hrest)].
        exists (String x a), b, c. split; [reflexivity|].
        split; [unfold all_local; simpl; now rewrite Hl | exact Hrest].
      * intros ([|y a] & b & c & H & Ha & Hrest); simpl in H; injection H as -> ->.
        -- congruence.
        -- unfold all_local in Ha. simpl in Ha. apply andb_true_iff in Ha.
           destruct Ha as [Hy Ha]. split; [exact Hy|]. now exists a, b, c.
Qed.

Lemma email_pattern_spec (value : string) :
  SubmissionForm.email_pattern_test value = true <->
  exists a b c,
    value = (a ++ String "@"%char (b ++ String "."%char c))%string
    /\ all_local a /\ all_local b /\ all_local c
    /\ a <> EmptyString /\ b <> EmptyString /\ c <> EmptyString.
Proof.
  unfold SubmissionForm.email_pattern_test. destruct value as [|x s].
  - split; [discriminate|]. intros ([|y a] & b & c & H & _ & _ & _ & Hne & _);
      [congruence | discriminate].
  - rewrite andb_true_iff, after_local_spec. split.
    + intros [Hx (a & b & c & -> & Ha & Hb & Hc & Hbne & Hcne)].
      exists (String x a), b, c. split; [reflexivity|].
      split; [unfold all_local; simpl; now rewrite Hx|]. repeat split; auto. discriminate.
    + intros ([|y a] & b & c & H & Ha & Hb & Hc & Hane & Hbne & Hcne); [congruence|].
      simpl in H. injection H as -> ->. unfold all_local in Ha. simpl in Ha.
      apply andb_true_iff in Ha. destruct Ha as [Hy Ha]. split; [exact Hy|].
      now exists a, b, c.
Qed.

Lemma validate_reporter_email_spec value :
  SubmissionForm.validateField SubmissionForm.f_reporter_email value = None <->
  value = EmptyString \/ SubmissionForm.email_pattern_test value = true.
Proof.
  unfold SubmissionForm.validateField. destruct value as [|x s]; [simpl; tauto|].
  cbn [SubmissionForm.is_empty negb andb].
  destruct (SubmissionForm.email_pattern_test (String x s)); cbn [negb];
    split; intros H; try discriminate; auto. destruct H; discriminate.
Qed.

(** X19. The address check is the pattern it is written as: a text passes
    [/^[^\s@]+@[^\s@]+\.[^\s@]+$/] exactly when it reads [a@b.c] with [a],
    [b] and [c] non-empty and free of white space and of [@]. The form
    accepts the reporter contact exactly when it is empty or such a text. *)
Theorem email_pattern_is_the_regex (value : string) :
  (SubmissionForm.email_pattern_test value = true <->
     exists a b c,
       value = (a ++ String "@"%char (b ++ String "."%char c))%string
       /\ all_local a /\ all_local b /\ all_local c
       /\ a <> EmptyString /\ b <> EmptyString /\ c <> EmptyString)
  /\ (SubmissionForm.validateField SubmissionForm.f_reporter_email value = None <->
        value = EmptyString \/ SubmissionForm.email_pattern_test value = true).
Proof. split; [apply email_pattern_spec | apply validate_reporter_email_spec]. Qed.

Lemma all_local_no_space s :
  all_local s ->
  forallb (fun c => negb (SubmissionForm.is_space c)) (list_ascii_of_string s) = true.
Proof.
  unfold all_local. intros H. rewrite forallb_forall in *. intros c Hc.
  specialize (H c Hc). apply local_char_spec in H. destruct H as [H _]. now rewrite H.
Qed.

Lemma email_pattern_no_space s :
  SubmissionForm.email_pattern_test s = true -> SubmissionForm.trim s = s.
Proof.
  intros H. apply email_pattern_spec in H.
  destruct H as (a & b & c & -> & Ha & Hb & Hc & _).
  apply trim_no_space. rewrite list_ascii_of_string_append, forallb_app. simpl.
  rewrite list_ascii_of_string_append, forallb_app. simpl.
  now rewrite !all_local_no_space.
Qed.

(** ** What the form sends *)

Lemma validateForm_spec fd :
  SubmissionForm.validateForm fd = true <->
  SubmissionForm.validateField SubmissionForm.f_tyrant_name (SubmissionForm.tyrant_name fd) = None
  /\ SubmissionForm.validateField SubmissionForm.f_title_position
       (SubmissionForm.title_position fd) = None
  /\ SubmissionForm.validateField SubmissionForm.f_category
       (SubmissionForm.category_value (SubmissionForm.category fd)) = None
  /\ SubmissionForm.validateField SubmissionForm.f_description
       (SubmissionForm.description fd) = None
  /\ (SubmissionForm.reporter_email fd = EmptyString
      \/ SubmissionForm.validateField SubmissionForm.f_reporter_email
           (SubmissionForm.reporter_email fd) = None).
Proof.
  unfold SubmissionForm.validateForm, SubmissionForm.form_errors.
  destruct (SubmissionForm.validateField SubmissionForm.f_tyrant_name _);
  destruct (SubmissionForm.validateField SubmissionForm.f_title_position _);
  destruct (SubmissionForm.validateField SubmissionForm.f_category _);
  destruct (SubmissionForm.validateField SubmissionForm.f_description _);
  destruct (SubmissionForm.reporter_email fd) as [|x e] eqn:He;
  cbn [SubmissionForm.is_empty negb app existsb orb];
  try (split; [discriminate | intros (H1 & H2 & H3 & H4 & H5); discriminate]);
  try (split; [auto 10 | reflexivity]).
  destruct (SubmissionForm.validateField SubmissionForm.f_reporter_email (String x e));
    cbn [existsb orb negb]; split; try discriminate; auto 10.
  intros (_ & _ & _ & _ & [H|H]); discriminate.
Qed.

Lemma required_text_spec (f : SubmissionForm.field) (bound : nat) v :
  (f = SubmissionForm.f_tyrant_name /\ bound = 100%nat
   \/ f = SubmissionForm.f_title_position /\ bound = 150%nat
   \/ f = SubmissionForm.f_description /\ bound = 5000%nat) ->
  SubmissionForm.validateField f v = None ->
  (1 <= String.length (SubmissionForm.trim v) <= bound)%nat
  /\ (f = SubmissionForm.f_description -> (20 <= String.length v)%nat).
Proof.
  intros Hf Hv. pose proof (trim_length_le v) as Hle.
  assert (Hcase : SubmissionForm.is_empty v || SubmissionForm.is_empty (SubmissionForm.trim v)
                  = false /\ (String.length v <= bound)%nat
                  /\ (f = SubmissionForm.f_description -> (20 <= String.length v)%nat)).
  { destruct Hf as [[-> ->]|[[-> ->]|[-> ->]]]; unfold SubmissionForm.validateField in Hv;
      destruct (SubmissionForm.is_empty v || SubmissionForm.is_empty (SubmissionForm.trim v));
      try discriminate.
    - destruct (100 <? String.length v)%nat eqn:Hb; [discriminate|].
      apply Nat.ltb_ge in Hb. repeat split; [exact Hb | discriminate].
    - destruct (150 <? String.length v)%nat eqn:Hb; [discriminate|].
      apply Nat.ltb_ge in Hb. repeat split; [exact Hb | discriminate].
    - destruct (String.length v <? 20)%nat eqn:Hm; [discriminate|].
      destruct (5000 <? String.length v)%nat eqn:Hb; [discriminate|].
      apply Nat.ltb_ge in Hb, Hm. repeat split; auto. }
  destruct Hcase as (He & Hb & Hd). apply orb_false_iff in He. destruct He as [_ He].
  split; [|exact Hd]. split; [|lia].
  destruct (SubmissionForm.trim v); [discriminate | simpl; lia].
Qed.

Lemma trimmed_of_trim s : trimmed_of s (SubmissionForm.trim s).
Proof.
  destruct (trim_surrounded s) as (l & r & H1 & H2 & H3 & H4 & H5).
  exists l, r. auto.
Qed.


(** X20. Every record [handleSubmit] sends has passed validation: its name,
    title and description are what was typed without the surrounding white
    space, non-empty, at most 100, 150 and 5000 characters long; a category
    was selected; the status is pending; and the reporter contact is either
    absent or, for a submission that is not anonymous, exactly the address
    typed, which matches the address pattern. *)
Theorem handleSubmit_sends_validated_record
    (formData : SubmissionForm.FormData) (file : SubmissionForm.upload)
    (r : SubmissionForm.Insert.row) :
  SubmissionForm.handleSubmit formData file = Some r ->
  trimmed_of (SubmissionForm.tyrant_name formData) (SubmissionForm.Insert.tyrant_name r)
  /\ trimmed_of (SubmissionForm.title_position formData)
       (SubmissionForm.Insert.title_position r)
  /\ trimmed_of (SubmissionForm.description formData) (SubmissionForm.Insert.description r)
  /\ (1 <= String.length (SubmissionForm.Insert.tyrant_name r) <= 100)%nat
  /\ (1 <= String.length (SubmissionForm.Insert.title_position r) <= 150)%nat
  /\ (1 <= String.length (SubmissionForm.Insert.description r) <= 5000)%nat
  /\ SubmissionForm.category formData <> SubmissionForm.Unselected
  /\ SubmissionForm.Insert.status r = "pending"%string
  /\ (SubmissionForm.Insert.reporter_email r = None
      \/ SubmissionForm.is_anonymous formData = false
         /\ SubmissionForm.Insert.reporter_email r
            = Some (SubmissionForm.reporter_email formData)
         /\ SubmissionForm.email_pattern_test (SubmissionForm.reporter_email formData) = true).
Proof.
  intros Hsub.
  assert (Hvalid : SubmissionForm.validateForm formData = true).
  { unfold SubmissionForm.handleSubmit in Hsub.
    destruct (SubmissionForm.validateForm formData); [reflexivity | discriminate]. }
  destruct (handleSubmit_builds _ _ _ Hsub) as (ev & ->).
  apply validateForm_spec in Hvalid. destruct Hvalid as (Hn & Ht & Hc & Hd & He).
  unfold SubmissionForm.build_submission. cbn [SubmissionForm.Insert.tyrant_name
    SubmissionForm.Insert.title_position SubmissionForm.Insert.description
    SubmissionForm.Insert.status SubmissionForm.Insert.reporter_email].
  split; [apply trimmed_of_trim|]. split; [apply trimmed_of_trim|].
  split; [apply trimmed_of_trim|].
  split; [exact (proj1 (required_text_spec _ 100 _ ltac:(auto) Hn))|].
  split; [exact (proj1 (required_text_spec _ 150 _ ltac:(auto) Ht))|].
  split; [exact (proj1 (required_text_spec _ 5000 _ ltac:(auto 6) Hd))|].
  split; [intros Hun; rewrite Hun in Hc; discriminate|]. split; [reflexivity|].
  destruct (SubmissionForm.is_anonymous formData); [now left|].
  destruct He as [He|He].
  - left. now rewrite He.
  - apply validate_reporter_email_spec in He. destruct He as [He|He].
    + left. now rewrite He.
    + right. rewrite (email_pattern_no_space _ He). split; [reflexivity|]. split; [|exact He].
      unfold SubmissionForm.or_null.
      destruct (SubmissionForm.reporter_email formData); [discriminate | reflexivity].
Qed.

Lemma handleSubmit_sends_validated_record_witness :
  exists r,
    SubmissionForm.handleSubmit
      (sample_form SubmissionForm.State "reporter@example.org" false) SubmissionForm.NoFile
    = Some r
    /\ SubmissionForm.Insert.reporter_email r = Some "reporter@example.org"%string.
Proof.
  eexists. split; [reflexivity|].
  destruct (handleSubmit_sends_validated_record
              (sample_form SubmissionForm.State "reporter@example.org" false)
              SubmissionForm.NoFile _ eq_refl) as (_ & _ & _ & _ & _ & _ & _ & _ & [H|(_ & H & _)]).
  - discriminate H.
  - exact H.
Defined.

(** ** The form as a component *)

Lemma handleSubmit_step_sends uploaded insertError st :
  snd (FormState.handleSubmit uploaded insertError st) =
  SubmissionForm.handleSubmit (FormState.formData st)
    match FormState.selectedFile st, uploaded with
    | None, _ => SubmissionForm.NoFile
    | Some _, Some publicUrl => SubmissionForm.Uploaded publicUrl
    | Some _, None => SubmissionForm.UploadFailed
    end.
Proof.
  unfold FormState.handleSubmit, SubmissionForm.handleSubmit.
  destruct (negb (SubmissionForm.validateForm (FormState.formData st))); [reflexivity|].
  destruct (FormState.selectedFile st), uploaded, insertError; reflexivity.
Qed.

Lemma newErrors_in_step fd :
  FormState.error_in_step (FormState.Errors.tyrant_name (FormState.newErrors fd))
    SubmissionForm.f_tyrant_name (SubmissionForm.tyrant_name fd)
  /\ FormState.error_in_step (FormState.Errors.title_position (FormState.newErrors fd))
       SubmissionForm.f_title_position (SubmissionForm.title_position fd)
  /\ FormState.error_in_step (FormState.Errors.category (FormState.newErrors fd))
       SubmissionForm.f_category (SubmissionForm.category_value (SubmissionForm.category fd))
  /\ FormState.error_in_step (FormState.Errors.description (FormState.newErrors fd))
       SubmissionForm.f_description (SubmissionForm.description fd)
  /\ FormState.error_in_step (FormState.Errors.reporter_email (FormState.newErrors fd))
       SubmissionForm.f_reporter_email (SubmissionForm.reporter_email fd).
Proof.
  unfold FormState.error_in_step. simpl. repeat split; try (now left).
  destruct (SubmissionForm.reporter_email fd); simpl; [now right | now left].
Qed.

Lemma newErrors_none fd :
  SubmissionForm.validateForm fd = true ->
  FormState.newErrors fd = FormState.Errors.mk None None None None None None.
Proof.
  intros H. apply validateForm_spec in H. destruct H as (H1 & H2 & H3 & H4 & H5).
  unfold FormState.newErrors. rewrite H1, H2, H3, H4.
  destruct (SubmissionForm.reporter_email fd) eqn:He;
    cbn [SubmissionForm.is_empty negb]; [reflexivity|].
  destruct H5 as [H5|H5]; [discriminate | now rewrite H5].
Qed.

Lemma form_step_invariant ev st :
  FormState.invariant st -> FormState.invariant (FormState.step ev st).
Proof.
  intros [Hfile Hn Ht Hc Hd He].
  destruct ev as [ch|file| |uploaded insertError]; simpl.
  - destruct ch as [[| | |] v|c|b]; constructor; simpl; auto; now left.
  - destruct file as [f|]; [|now constructor].
    unfold FormState.handleFileChange.
    destruct (FormState.validateFile f) eqn:Hv; constructor; simpl; auto.
    intros f' Hf'. now injection Hf' as <-.
  - constructor; simpl; auto. discriminate.
  - unfold FormState.handleSubmit.
    destruct (newErrors_in_step (FormState.formData st)) as (E1 & E2 & E3 & E4 & E5).
    destruct (negb (SubmissionForm.validateForm (FormState.formData st))) eqn:Hv;
      [now constructor|].
    apply negb_false_iff in Hv.
    assert (Hreset : FormState.invariant
              (FormState.mkState FormState.initialFormData
                 (FormState.newErrors (FormState.formData st)) None
                 FormState.success EmptyString)).
    { rewrite (newErrors_none _ Hv).
      constructor; simpl; try discriminate; right; split; reflexivity. }
    destruct (FormState.selectedFile st), uploaded, insertError; simpl;
      try exact Hreset; now constructor.
Qed.

Lemma form_reachable_invariant st : FormState.reachable st -> FormState.invariant st.
Proof.
  induction 1 as [|ev st _ IH]; [|now apply form_step_invariant].
  constructor; simpl; try discriminate; right; split; reflexivity.
Qed.

Lemma error_in_step_clear shown f value :
  FormState.error_in_step shown f value ->
  FormState.no_error shown = true -> value <> EmptyString ->
  (forall m, SubmissionForm.validateField f value = Some m -> m <> EmptyString) ->
  SubmissionForm.validateField f value = None.
Proof.
  intros [->|[_ ->]] Hno Hne Hmsg; [|congruence].
  destruct (SubmissionForm.validateField f value) as [m|] eqn:Hv; [|reflexivity].
  simpl in Hno. apply is_empty_eq in Hno. now apply Hmsg in Hno.
Qed.

Lemma validateField_message f value m :
  SubmissionForm.validateField f value = Some m -> m <> EmptyString.
Proof.
  unfold SubmissionForm.validateField.
  destruct f;
    repeat match goal with
           | |- context [if ?b then _ else _] => destruct b
           end;
    intros H; try discriminate; injection H as <-; discriminate.
Qed.

(** X21. Whenever the submit button is enabled, the submission goes through
    validation: in every state the component can reach, [isFormValid]
    implies that [validateForm] passes, so [handleSubmit] builds and sends
    a record (unless the upload of a selected file fails), and the
    description it sends, the text typed without the white space around it,
    has a [.length] of 20 or more. *)
Theorem enabled_submit_sends_a_valid_record (st : FormState.state) :
  FormState.reachable st ->
  FormState.isFormValid (FormState.formData st) (FormState.errors st) = true ->
  SubmissionForm.validateForm (FormState.formData st) = true
  /\ (forall uploaded insertError,
        FormState.selectedFile st = None \/ uploaded <> None ->
        exists r,
          snd (FormState.handleSubmit uploaded insertError st) = Some r
          /\ SubmissionForm.Insert.description r
             = SubmissionForm.trim (SubmissionForm.description (FormState.formData st))
          /\ (20 <= String.length (SubmissionForm.Insert.description r))%nat).
Proof.
  intros Hreach Hvalid. destruct (form_reachable_invariant st Hreach) as [_ Hn Ht Hc Hd He].
  unfold FormState.isFormValid in Hvalid.
  repeat (apply andb_true_iff in Hvalid; destruct Hvalid as [Hvalid ?]).
  match goal with H : FormState.no_error (FormState.Errors.reporter_email _) = true |- _ =>
    rename H into Hne_email end.
  match goal with H : FormState.no_error (FormState.Errors.description _) = true |- _ =>
    rename H into Hne_desc end.
  match goal with H : FormState.no_error (FormState.Errors.category _) = true |- _ =>
    rename H into Hne_cat end.
  match goal with H : FormState.no_error (FormState.Errors.title_position _) = true |- _ =>
    rename H into Hne_title end.
  match goal with H : FormState.no_error (FormState.Errors.tyrant_name _) = true |- _ =>
    rename H into Hne_name end.
  match goal with H : (20 <=? _)%nat = true |- _ => rename H into Hlen end.
  match goal with H : negb _ = true |- _ => rename H into Hcat end.
  match goal with H : (0 <? String.length (SubmissionForm.trim
                         (SubmissionForm.title_position _)))%nat = true |- _ =>
    rename H into Htitle end.
  rename Hvalid into Hname.
  apply Nat.ltb_lt in Hname, Htitle. apply Nat.leb_le in Hlen.
  assert (Hnonempty : forall v, (0 < String.length (SubmissionForm.trim v))%nat ->
                                v <> EmptyString).
  { intros v Hv ->. simpl in Hv. lia. }
  assert (Hvf : SubmissionForm.validateForm (FormState.formData st) = true).
  { apply validateForm_spec. split; [|split; [|split; [|split]]].
    - apply (error_in_step_clear _ _ _ Hn Hne_name); [apply Hnonempty; lia|].
      apply validateField_message.
    - apply (error_in_step_clear _ _ _ Ht Hne_title); [apply Hnonempty; lia|].
      apply validateField_message.
    - apply (error_in_step_clear _ _ _ Hc Hne_cat); [|apply validateField_message].
      intros Heq. apply negb_true_iff in Hcat. rewrite Heq in Hcat. discriminate.
    - apply (error_in_step_clear _ _ _ Hd Hne_desc); [apply Hnonempty; lia|].
      apply validateField_message.
    - destruct (SubmissionForm.reporter_email (FormState.formData st)) eqn:Hem; [now left|].
      right. rewrite <- Hem in *.
      apply (error_in_step_clear _ _ _ He Hne_email); [rewrite Hem; discriminate|].
      apply validateField_message. }
  split; [exact Hvf|]. intros uploaded insertError Hup.
  rewrite handleSubmit_step_sends. unfold SubmissionForm.handleSubmit. rewrite Hvf. simpl.
  assert (Hok : forall ev,
             SubmissionForm.Insert.description
               (SubmissionForm.build_submission (FormState.formData st) ev)
             = SubmissionForm.trim (SubmissionForm.description (FormState.formData st))
             /\ (20 <= String.length
                         (SubmissionForm.Insert.description
                            (SubmissionForm.build_submission (FormState.formData st) ev)))%nat).
  { intros ev. unfold SubmissionForm.build_submission.
    cbn [SubmissionForm.Insert.description]. split; [reflexivity | exact Hlen]. }
  destruct (FormState.selectedFile st), uploaded; eauto.
  destruct Hup as [Hup|Hup]; congruence.
Qed.

Lemma sample_form_state_reachable : FormState.reachable sample_form_state.
Proof.
  unfold sample_form_state. repeat apply FormState.reachable_step.
  apply FormState.reachable_initial.
Qed.

Lemma enabled_submit_sends_a_valid_record_witness :
  SubmissionForm.validateForm (FormState.formData sample_form_state) = true
  /\ exists r, snd (FormState.handleSubmit None None sample_form_state) = Some r.
Proof.
  destruct (enabled_submit_sends_a_valid_record sample_form_state
              sample_form_state_reachable eq_refl) as [H1 H2].
  split; [exact H1|]. destruct (H2 None None (or_introl eq_refl)) as (r & Hr & _).
  now exists r.
Defined.

(** [validateForm] alone measures the description before trimming: a
    description of one letter and nineteen blanks passes it and would be
    sent as one letter. *)
Lemma validateForm_counts_untrimmed :
  let fd := SubmissionForm.mkFormData "Jane Roe" "Mayor" SubmissionForm.State
              "a                   " None EmptyString true in
  SubmissionForm.validateForm fd = true
  /\ SubmissionForm.Insert.description (SubmissionForm.build_submission fd None)
     = "a"%string.
Proof. split; reflexivity. Qed.

Lemma validateFile_spec (f : FormState.File.t) :
  FormState.validateFile f = None <->
  In (FormState.File.type f) FormState.SUPPORTED_FORMATS
  /\ FormState.File.size f <= 5242880.
Proof.
  unfold FormState.validateFile.
  destruct (existsb _ FormState.SUPPORTED_FORMATS) eqn:Hex; simpl.
  - apply existsb_exists in Hex. destruct Hex as (x & Hx & Heq). apply String.eqb_eq in Heq.
    subst x. destruct (FormState.MAX_FILE_SIZE <? FormState.File.size f) eqn:Hs.
    + apply Z.ltb_lt in Hs. unfold FormState.MAX_FILE_SIZE in Hs.
      split; [discriminate | lia].
    + apply Z.ltb_ge in Hs. unfold FormState.MAX_FILE_SIZE in Hs. split; [|reflexivity].
      intros _. split; [exact Hx | lia].
  - split; [discriminate|]. intros [Hin _]. exfalso.
    assert (Ht : existsb (fun x => (x =? FormState.File.type f)%string)
                   FormState.SUPPORTED_FORMATS = true)
      by (apply existsb_exists; exists (FormState.File.type f); split;
          [exact Hin | apply String.eqb_refl]).
    congruence.
Qed.

(** X22. The file the component holds for upload is always one it accepted: in
    every state it can reach, a selected file has one of the four supported
    types and at most 5 MiB, so nothing else is ever uploaded; a file that
    is refused leaves the earlier selection in place. *)
Theorem selected_file_is_supported (st : FormState.state) :
  FormState.reachable st ->
  (forall f, FormState.selectedFile st = Some f ->
     In (FormState.File.type f) FormState.SUPPORTED_FORMATS
     /\ FormState.File.size f <= 5242880)
  /\ (forall f, FormState.validateFile f <> None ->
        FormState.selectedFile (FormState.handleFileChange (Some f) st)
        = FormState.selectedFile st).
Proof.
  intros Hreach. split.
  - intros f Hf. apply validateFile_spec.
    exact (FormState.inv_file _ (form_reachable_invariant st Hreach) f Hf).
  - intros f Hbad. unfold FormState.handleFileChange.
    destruct (FormState.validateFile f); [reflexivity | congruence].
Qed.

Lemma selected_file_is_supported_witness :
  FormState.selectedFile
    (FormState.handleFileChange (Some sample_text_file)
       (FormState.handleFileChange (Some sample_pdf_file) sample_form_state))
  = Some sample_pdf_file.
Proof.
  rewrite (proj2 (selected_file_is_supported
                    (FormState.handleFileChange (Some sample_pdf_file) sample_form_state)
                    (FormState.reachable_step (FormState.FileChange (Some sample_pdf_file))
                       _ sample_form_state_reachable))
             sample_text_file); [reflexivity | discriminate].
Defined.

Lemma keeps_file_error_step ev st :
  keeps_file_error ev ->
  FormState.no_error (FormState.Errors.evidence_url (FormState.errors st)) = false ->
  FormState.no_error
    (FormState.Errors.evidence_url (FormState.errors (FormState.step ev st))) = false.
Proof.
  intros Hev Herr. destruct ev as [ch|[f|]| |uploaded insertError]; simpl in *.
  - destruct ch as [[| | |] v|c|b]; exact Herr.
  - unfold FormState.handleFileChange.
    destruct (FormState.validateFile f) as [m|] eqn:Hv; [|congruence]. simpl.
    unfold FormState.validateFile in Hv.
    destruct (negb _); [injection Hv as <-; reflexivity|].
    destruct (_ <? _); [injection Hv as <-; reflexivity | discriminate].
  - exact Herr.
  - exact Herr.
  - destruct Hev.
Qed.

(** X23. Once a file has been refused, the submit button stays disabled through
    whatever the user types, selects or removes: of the events that can
    reach the component then, only the choice of a supported file clears
    the file error. *)
Theorem refused_file_keeps_submit_disabled (st : FormState.state)
    (events : list FormState.event) :
  FormState.no_error (FormState.Errors.evidence_url (FormState.errors st)) = false ->
  Forall keeps_file_error events ->
  let st' := fold_left (fun s ev => FormState.step ev s) events st in
  FormState.isFormValid (FormState.formData st') (FormState.errors st') = false.
Proof.
  intros Herr Hevs. simpl.
  assert (Hkeep : FormState.no_error
            (FormState.Errors.evidence_url
               (FormState.errors (fold_left (fun s ev => FormState.step ev s) events st)))
            = false).
  { revert st Herr. induction Hevs as [|ev evs Hev _ IH]; intros st Herr; [exact Herr|].
    simpl. apply IH. now apply keeps_file_error_step. }
  unfold FormState.isFormValid. rewrite Hkeep. apply andb_false_r.
Qed.

Lemma refused_file_keeps_submit_disabled_witness :
  FormState.isFormValid
    (FormState.formData
       (FormState.removeFile (FormState.handleFileChange (Some sample_text_file)
                                sample_form_state)))
    (FormState.errors
       (FormState.removeFile (FormState.handleFileChange (Some sample_text_file)
                                sample_form_state)))
  = false.
Proof.
  refine (refused_file_keeps_submit_disabled
            (FormState.handleFileChange (Some sample_text_file) sample_form_state)
            [FormState.RemoveFile] _ _).
  - reflexivity.
  - repeat constructor.
Defined.

(** ** The administrator login *)

Lemma isRateLimited_spec now item :
  AdminLogin.isRateLimited now item = true <->
  exists a, item = AdminLogin.Attempts a
            /\ 5 <= AdminLogin.count a
            /\ now - AdminLogin.firstAttempt a <= AdminLogin.RATE_LIMIT_WINDOW.
Proof.
  unfold AdminLogin.isRateLimited, AdminLogin.getLoginAttempts, AdminLogin.MAX_LOGIN_ATTEMPTS.
  destruct item as [|a|]; simpl.
  - split; [discriminate | intros (a & H & _); discriminate].
  - destruct (AdminLogin.RATE_LIMIT_WINDOW <? now - AdminLogin.firstAttempt a) eqn:Hw; simpl.
    + apply Z.ltb_lt in Hw. split; [discriminate|].
      intros (a' & H & _ & Hle). injection H as <-. lia.
    + apply Z.ltb_ge in Hw. rewrite Z.leb_le. split.
      * intros H. now exists a.
      * intros (a' & H & Hc & _). now injection H as <-.
  - split; [discriminate | intros (a & H & _); discriminate].
Qed.

(** X24. While the limiter is locked - five or more recorded attempts, the first
    of them no more than fifteen minutes ago - [login] answers failure
    without consulting the authentication provider and leaves the stored
    attempts untouched. *)
Theorem login_refused_while_locked now (item : AdminLogin.stored) :
  (AdminLogin.isRateLimited now item = true <->
     exists a, item = AdminLogin.Attempts a
               /\ 5 <= AdminLogin.count a
               /\ now - AdminLogin.firstAttempt a <= 15 * 60 * 1000)
  /\ (AdminLogin.isRateLimited now item = true ->
      forall signIn signIn' later later' email password,
        AdminLogin.login signIn now later email password item
        = AdminLogin.login signIn' now later' email password item
        /\ fst (AdminLogin.login signIn now later email password item) = item
        /\ AdminLogin.success
             (snd (AdminLogin.login signIn now later email password item)) = false).
Proof.
  split; [apply isRateLimited_spec|].
  intros Hlock signIn signIn' later later' email password.
  unfold AdminLogin.login. rewrite Hlock. repeat split.
Qed.

Lemma record_all_from_first t1 : forall rest n,
  t1 <> 0 -> 0 <= n ->
  Forall (fun t => t - t1 <= AdminLogin.RATE_LIMIT_WINDOW) rest ->
  AdminLogin.record_all rest (AdminLogin.Attempts (AdminLogin.mkAttempt n t1))
  = AdminLogin.Attempts (AdminLogin.mkAttempt (n + Z.of_nat (List.length rest)) t1).
Proof.
  induction rest as [|t rest IH]; intros n Ht1 Hn Hall.
  - simpl. now rewrite Z.add_0_r.
  - inversion Hall as [|? ? Ht Hrest]; subst. unfold AdminLogin.record_all in *.
    simpl fold_left. unfold AdminLogin.recordLoginAttempt at 2.
    unfold AdminLogin.getLoginAttempts. simpl AdminLogin.firstAttempt.
    replace (AdminLogin.RATE_LIMIT_WINDOW <? t - t1) with false
      by (symmetry; apply Z.ltb_ge; lia).
    simpl. replace (t1 =? 0) with false by (symmetry; apply Z.eqb_neq; exact Ht1).
    rewrite (IH (n + 1)) by (auto; lia). do 2 f_equal.
    change (List.length (t :: rest)) with (S (List.length rest)). lia.
Qed.

(** X25. The fifteen minutes run from the first failed attempt, not from the
    last: attempts recorded at times [t1], then others no later than fifteen
    minutes after [t1], leave their number and [t1] in storage; when there
    are five or more, the limiter is locked at a time [now] exactly when
    [now] is no later than fifteen minutes after [t1]. *)
Theorem lock_runs_from_first_attempt (t1 : Z) (rest : list Z) :
  t1 <> 0 ->
  Forall (fun t => t - t1 <= 15 * 60 * 1000) rest ->
  AdminLogin.record_all (t1 :: rest) AdminLogin.Absent
  = AdminLogin.Attempts (AdminLogin.mkAttempt (1 + Z.of_nat (List.length rest)) t1)
  /\ (4 <= Z.of_nat (List.length rest) ->
      forall now,
        AdminLogin.isRateLimited now (AdminLogin.record_all (t1 :: rest) AdminLogin.Absent)
        = (now - t1 <=? 15 * 60 * 1000)).
Proof.
  intros Ht1 Hall.
  assert (Hrec : AdminLogin.record_all (t1 :: rest) AdminLogin.Absent
                 = AdminLogin.Attempts
                     (AdminLogin.mkAttempt (1 + Z.of_nat (List.length rest)) t1)).
  { unfold AdminLogin.record_all. simpl fold_left.
    unfold AdminLogin.recordLoginAttempt at 2. simpl.
    replace (t1 =? 0) with false by (symmetry; apply Z.eqb_neq; exact Ht1).
    apply (record_all_from_first t1 rest 1 Ht1); [lia | exact Hall]. }
  split; [exact Hrec|]. intros Hfive now. rewrite Hrec.
  unfold AdminLogin.isRateLimited, AdminLogin.getLoginAttempts, AdminLogin.MAX_LOGIN_ATTEMPTS.
  cbn [AdminLogin.firstAttempt]. change AdminLogin.RATE_LIMIT_WINDOW with (15 * 60 * 1000).
  destruct (15 * 60 * 1000 <? now - t1) eqn:Hw; cbn [AdminLogin.count].
  - apply Z.ltb_lt in Hw. transitivity false; [reflexivity|].
    symmetry. apply Z.leb_gt. exact Hw.
  - apply Z.ltb_ge in Hw. transitivity true; [apply Z.leb_le; lia|].
    symmetry. apply Z.leb_le. exact Hw.
Qed.

Lemma lock_runs_from_first_attempt_witness :
  AdminLogin.isRateLimited 1000840000
    (AdminLogin.record_all [1000000000; 1000010000; 1000020000; 1000030000; 1000840000]
       AdminLogin.Absent) = true
  /\ AdminLogin.isRateLimited 1000900001
       (AdminLogin.record_all [1000000000; 1000010000; 1000020000; 1000030000; 1000840000]
          AdminLogin.Absent) = false.
Proof.
  destruct (lock_runs_from_first_attempt 1000000000
              [1000010000; 1000020000; 1000030000; 1000840000]) as [_ H].
  - lia.
  - repeat constructor; lia.
  - split; rewrite H by (simpl; lia); reflexivity.
Defined.

Lemma login_storage signIn now later email password item :
  fst (AdminLogin.login signIn now later email password item) = item
  /\ AdminLogin.isRateLimited now item = true
  \/ fst (AdminLogin.login signIn now later email password item) = AdminLogin.Absent
  \/ fst (AdminLogin.login signIn now later email password item)
     = AdminLogin.recordLoginAttempt later item
     /\ AdminLogin.isRateLimited now item = false.
Proof.
  unfold AdminLogin.login. destruct (AdminLogin.isRateLimited now item); [now left|].
  right. destruct (signIn email password) as [|[|]| |]; simpl; auto.
Qed.

(** X26. Through logins the stored number of attempts never exceeds five:
    whatever the provider answers and whenever the logins happen, the
    storage holds nothing or a count between 1 and 5. *)
Theorem login_attempts_are_bounded (item : AdminLogin.stored) :
  AdminLogin.reachable item ->
  item <> AdminLogin.Unparsable
  /\ (forall a, item = AdminLogin.Attempts a -> 1 <= AdminLogin.count a <= 5).
Proof.
  induction 1 as [|signIn now later email password item _ IH Hclock].
  - split; [discriminate | intros a H; discriminate].
  - destruct IH as [Hpars Hcount].
    destruct (login_storage signIn now later email password item)
      as [[-> _]|[->|[-> Hfree]]].
    + now split.
    + split; [discriminate | intros a H; discriminate].
    + split; [discriminate|]. intros a' Ha'.
      unfold AdminLogin.recordLoginAttempt in Ha'. injection Ha' as <-. simpl.
      unfold AdminLogin.isRateLimited, AdminLogin.MAX_LOGIN_ATTEMPTS in Hfree.
      apply Z.leb_gt in Hfree. unfold AdminLogin.getLoginAttempts in *.
      destruct item as [|a|]; simpl in *; try lia.
      specialize (Hcount a eq_refl).
      destruct (AdminLogin.RATE_LIMIT_WINDOW <? later - AdminLogin.firstAttempt a) eqn:Hl;
        simpl; [lia|].
      destruct (AdminLogin.RATE_LIMIT_WINDOW <? now - AdminLogin.firstAttempt a) eqn:Hn;
        simpl in Hfree; [|lia].
      apply Z.ltb_lt in Hn. apply Z.ltb_ge in Hl. lia.
Qed.

Lemma login_attempts_are_bounded_witness :
  1 <= AdminLogin.count (AdminLogin.mkAttempt 1 1001) <= 5.
Proof.
  refine (proj2 (login_attempts_are_bounded
                   (fst (AdminLogin.login (fun _ _ => AdminLogin.SignInError) 1000 1001
                           "admin@example.org" "secret" AdminLogin.Absent)) _) _ eq_refl).
  apply AdminLogin.reachable_login; [apply AdminLogin.reachable_absent | lia].
Defined.

(** X27. The minutes shown while locked: when the limiter is not locked the
    remaining time is 0; when it is locked (and the first attempt is not in
    the future) the remaining time is the time left until fifteen minutes
    after the first attempt, rounded up to whole minutes, between 0 and 15. *)
Theorem remaining_lockout_minutes now (item : AdminLogin.stored) :
  (AdminLogin.isRateLimited now item = false ->
   AdminLogin.getRemainingLockoutTime now item = 0)
  /\ (AdminLogin.isRateLimited now item = true ->
      forall a, item = AdminLogin.Attempts a -> AdminLogin.firstAttempt a <= now ->
        let m := AdminLogin.getRemainingLockoutTime now item in
        let left := 15 * 60 * 1000 - (now - AdminLogin.firstAttempt a) in
        0 <= m <= 15 /\ 60000 * (m - 1) < left <= 60000 * m).
Proof.
  split.
  - unfold AdminLogin.isRateLimited, AdminLogin.getRemainingLockoutTime. intros H.
    apply Z.leb_gt in H. now rewrite (proj2 (Z.ltb_lt _ _) H).
  - intros Hlock a -> Hfirst. apply isRateLimited_spec in Hlock.
    destruct Hlock as (a' & Ha' & Hcount & Hwin). injection Ha' as <-.
    unfold AdminLogin.getRemainingLockoutTime, AdminLogin.getLoginAttempts,
      AdminLogin.MAX_LOGIN_ATTEMPTS.
    replace (AdminLogin.RATE_LIMIT_WINDOW <? now - AdminLogin.firstAttempt a) with false
      by (symmetry; apply Z.ltb_ge; exact Hwin).
    replace (AdminLogin.count a <? 5) with false by (symmetry; apply Z.ltb_ge; exact Hcount).
    unfold AdminLogin.RATE_LIMIT_WINDOW in *. unfold AdminLogin.ceil_minutes.
    set (x := 15 * 60 * 1000 - (now - AdminLogin.firstAttempt a)) in *.
    pose proof (Z.div_mod (- x) 60000 ltac:(lia)) as Hdiv.
    pose proof (Z.mod_pos_bound (- x) 60000 ltac:(lia)) as Hmod.
    cbv zeta. lia.
Qed.

Lemma validateEmail_spec email :
  AdminLogin.validateEmail email = None <-> SubmissionForm.email_pattern_test email = true.
Proof.
  unfold AdminLogin.validateEmail. split.
  - destruct (SubmissionForm.is_empty _); [discriminate|].
    destruct (SubmissionForm.email_pattern_test email); [reflexivity | discriminate].
  - intros H. rewrite (email_pattern_no_space _ H), H.
    destruct email; [discriminate | reflexivity].
Qed.

Lemma validatePassword_spec password :
  AdminLogin.validatePassword password = None <-> (6 <= String.length password)%nat.
Proof.
  unfold AdminLogin.validatePassword. destruct password as [|c p]; simpl.
  - split; [discriminate | lia].
  - destruct (String.length p) as [|[|[|[|[|n]]]]] eqn:Hl; simpl; split; intros H;
      try discriminate; try lia; reflexivity.
Qed.

(** X28. The administrator form reaches [login] exactly when the address matches
    the address pattern and the password has six characters or more, and it
    then hands over the address exactly as typed; otherwise nothing is sent,
    and the attempt is not counted. *)
Theorem admin_form_gates_login (signIn : string -> string -> AdminLogin.sign_in)
    now later email password (item : AdminLogin.stored) :
  AdminLogin.handleSubmit signIn now later email password item
  = if SubmissionForm.email_pattern_test email && (6 <=? String.length password)%nat
    then (fst (AdminLogin.login signIn now later email password item),
          Some (snd (AdminLogin.login signIn now later email password item)))
    else (item, None).
Proof.
  unfold AdminLogin.handleSubmit.
  destruct (SubmissionForm.email_pattern_test email) eqn:He.
  - rewrite (proj2 (validateEmail_spec email) He), (email_pattern_no_space _ He).
    destruct (6 <=? String.length password)%nat eqn:Hp; simpl.
    + apply Nat.leb_le in Hp. rewrite (proj2 (validatePassword_spec password) Hp).
      now destruct (AdminLogin.login signIn now later email password item).
    + destruct (AdminLogin.validatePassword password) eqn:Hv; [reflexivity|].
      apply validatePassword_spec in Hv. apply Nat.leb_gt in Hp. lia.
  - simpl. destruct (AdminLogin.validateEmail email) eqn:Hv; [reflexivity|].
    apply validateEmail_spec in Hv. congruence.
Qed.
